(** * Provider cache, fee policy and transaction engine of the EVM SDK

    A shallow embedding of [packages/sdk/src/evm/constants/urls.ts]
    (provider resolution and the [RPC_PROVIDER_MAP] cache) and of the
    [Transaction] / [Transactions] classes (fee policy, gasless relay,
    error diagnosis, sequential batches).

    JavaScript objects that are compared by reference carry an allocation
    number; arrays live in a heap of locations; every asynchronous call to
    a collaborator is an oracle on an abstract world state and is recorded
    in a trace. *)

From Stdlib Require Import ZArith Lia Ascii.
From stdpp Require Import gmap strings list fin_maps pretty.

Local Open Scope Z_scope.

(** ** Provider resolution: [urls.ts] *)

Module Provider.

(** Characters are compared without regard to case by the [/i] flag;
    only ASCII letters occur in the pattern. *)
Definition lower (c : ascii) : ascii :=
  let n := Ascii.nat_of_ascii c in
  if ((65 <=? n)%nat && (n <=? 90)%nat)%bool
  then Ascii.ascii_of_nat (n + 32) else c.

Definition eq_ci (a b : ascii) : bool :=
  bool_decide (lower a = lower b).

(** [strip_ci p s] consumes the literal [p] at the start of [s],
    ignoring case, and gives the rest of [s]. *)
Fixpoint strip_ci (p s : string) : option string :=
  match p, s with
  | EmptyString, _ => Some s
  | String a p', String b s' => if eq_ci a b then strip_ci p' s' else None
  | String _ _, EmptyString => None
  end.

(** The tail [s?:] of the pattern: greedy optional [s], then a colon. *)
Definition opt_s_colon (s : string) : bool :=
  match strip_ci "s" s with
  | Some r =>
      match strip_ci ":" r with
      | Some _ => true
      | None => bool_decide (is_Some (strip_ci ":" s))
      end
  | None => bool_decide (is_Some (strip_ci ":" s))
  end.

Definition lower_string (s : string) : string :=
  String.string_of_list_ascii (lower <$> String.list_ascii_of_string s).

Definition take_string (n : nat) (s : string) : string :=
  String.string_of_list_ascii (take n (String.list_ascii_of_string s)).

(** [rpcUrl.match(/^(ws|http)s?:/i)] followed by
    [match[1].toLowerCase()]: the first capture group, lower-cased. *)
Definition match_scheme (url : string) : option string :=
  match strip_ci "ws" url with
  | Some r =>
      if opt_s_colon r then Some (lower_string (take_string 2 url))
      else None
  | None =>
      match strip_ci "http" url with
      | Some r =>
          if opt_s_colon r then Some (lower_string (take_string 4 url))
          else None
      | None => None
      end
  end.

Definition isRpcUrl (url : string) : bool :=
  match match_scheme url with
  | Some m =>
      bool_decide (m = "http") || bool_decide (m = "https")
      || bool_decide (m = "ws") || bool_decide (m = "wss")
  | None => false
  end.

(** The provider classes that the module instantiates. *)
Inductive ProviderClass :=
| StaticJsonRpcBatchProvider (rpcUrl : string) (chainId : Z)
| JsonRpcBatchProvider (rpcUrl : string)
| WebSocketProvider (rpcUrl : string) (chainId : option Z)
| DefaultProvider (rpcUrl : string).

(** A provider object: the number of its allocation is its identity. *)
Record Handle := mkHandle { ref : nat; made : ProviderClass }.

Definition same_object (a b : Handle) : Prop := ref a = ref b.

(** Module state: the cache and the number of objects allocated. *)
Record State := mkState {
  RPC_PROVIDER_MAP : gmap string Handle;
  allocated : nat
}.

Definition initial : State := mkState ∅ 0.

Inductive Thrown := ConstructionError (c : ProviderClass).

Section WithConstructors.

(** Whether the constructor of a provider class throws on its
    arguments (an unsupported network, no socket implementation). *)
Variable throws : ProviderClass -> bool.

Definition new (c : ProviderClass) (s : State) : State * (Thrown + Handle) :=
  if throws c then (s, inl (ConstructionError c))
  else (mkState (RPC_PROVIDER_MAP s) (S (allocated s)),
        inr (mkHandle (allocated s) c)).

(** [chainId || -1]: an absent or zero chain id gives [-1]. *)
Definition chainId_or (chainId : option Z) : Z :=
  match chainId with
  | Some c => if bool_decide (c = 0) then -1 else c
  | None => -1
  end.

(** The chain id is printed in decimal digits, as the template literal
    prints a whole number of the safe integer range. *)
Definition seralizedOpts (rpcUrl : string) (chainId : option Z) : string :=
  rpcUrl +:+ "-" +:+ pretty (chainId_or chainId).

(** [chainId ? new Static...(rpcUrl, chainId) : new JsonRpcBatch...(rpcUrl)] *)
Definition batch_class (rpcUrl : string) (chainId : option Z) : ProviderClass :=
  match chainId with
  | Some c =>
      if bool_decide (c = 0) then JsonRpcBatchProvider rpcUrl
      else StaticJsonRpcBatchProvider rpcUrl c
  | None => JsonRpcBatchProvider rpcUrl
  end.

Definition getDefaultProvider (rpcUrl : string) (s : State)
  : State * (Thrown + Handle) :=
  new (DefaultProvider rpcUrl) s.

Definition getProviderFromRpcUrl (rpcUrl : string) (chainId : option Z)
    (s : State) : State * (Thrown + Handle) :=
  match match_scheme rpcUrl with
  | Some m =>
      if bool_decide (m = "http") || bool_decide (m = "https") then
        let key := seralizedOpts rpcUrl chainId in
        match RPC_PROVIDER_MAP s !! key with
        | Some existingProvider => (s, inr existingProvider)
        | None =>
            match new (batch_class rpcUrl chainId) s with
            | (s1, inr newProvider) =>
                (mkState (<[key := newProvider]> (RPC_PROVIDER_MAP s1))
                         (allocated s1),
                 inr newProvider)
            | (s1, inl _) => getDefaultProvider rpcUrl s1
            end
        end
      else if bool_decide (m = "ws") || bool_decide (m = "wss") then
        match new (WebSocketProvider rpcUrl chainId) s with
        | (s1, inr p) => (s1, inr p)
        | (s1, inl _) => getDefaultProvider rpcUrl s1
        end
      else getDefaultProvider rpcUrl s
  | None => getDefaultProvider rpcUrl s
  end.

(** Any number of further calls, on any arguments. *)
Fixpoint calls (l : list (string * option Z)) (s : State) : State :=
  match l with
  | [] => s
  | (u, c) :: l' => calls l' (fst (getProviderFromRpcUrl u c s))
  end.

End WithConstructors.

End Provider.

(** ** The transaction builder and its execution engine *)

Module Tx.

Definition bytes := list Byte.byte.
Definition loc := positive.
Definition objref := nat.

(** Big-endian value of a hex string, as [BigNumber.from("0x..")]. *)
Definition be_value (b : bytes) : Z :=
  foldl (fun acc x => acc * 256 + Z.of_N (Byte.to_N x)) 0 b.

(** Method arguments.  An array is a reference into the heap. *)
Inductive jsval :=
| VUndefined
| VNumber (z : Z)
| VString (s : string)
| VHex (b : bytes)
| VArray (l : loc).

(** Values of the fields of a [CallOverrides] object: a JavaScript
    number, a [BigNumber] object or a hex string (address, quantity). *)
Inductive oval :=
| OUndefined
| ONumber (z : Z)
| OBigNumber (z : Z)
| OHex (b : bytes).

(** JavaScript truthiness. *)
Definition truthy (v : oval) : bool :=
  match v with
  | OUndefined => false
  | ONumber z => negb (bool_decide (z = 0))
  | OBigNumber _ => true
  | OHex _ => true
  end.

(** [obj.key]: a missing key reads as [undefined]. *)
Definition field (o : gmap string oval) (k : string) : oval :=
  default OUndefined (o !! k).

(** [a || b] *)
Definition or_else (a b : oval) : oval := if truthy a then a else b.

Record GaslessOptions := {
  openzeppelin : option string;
  biconomy : option string
}.

Record Contract := { address : bytes; functions : list string }.

Definition has_function (c : Contract) (m : string) : bool :=
  bool_decide (m ∈ functions c).

Record Receipt := { transactionHash : bytes; blockNumber : Z }.

Inductive TResult :=
| RawReceipt (receipt : Receipt)
| Parsed (v : jsval).

Inductive WaitImpl :=
| WaitOwn
| WaitForTransaction (provider : objref) (txHash : bytes).

Record ContractTransaction := { hash : bytes; wait : WaitImpl }.

Record GaslessTransaction := {
  gt_from : oval;
  gt_to : bytes;
  gt_data : bytes;
  gt_chainId : Z;
  gt_gasLimit : Z;
  functionName : string;
  functionArgs : loc;
  callOverrides : gmap string oval
}.

Record TransactionError := {
  reason : string;
  te_from : oval;
  te_to : bytes;
  te_method : string;
  te_data : bytes;
  te_network : Z;
  te_rpcUrl : option string;
  te_value : Z;
  te_hash : option bytes;
  contractName : option string;
  sources : option (list string)
}.

(** What the provider, the signer or the relay reject with. *)
Record RawError := {
  raw_message : string;
  raw_transactionHash : option bytes;
  raw_transaction_hash : option bytes;
  raw_receipt_transactionHash : option bytes
}.

(** The values that a [throw] can carry in this module. *)
Inductive thrown :=
| JsError (message : string)
| Raw (e : RawError)
| Diagnosed (e : TransactionError)
| PromiseOfDiagnosis (cause : thrown).

(** A [TransactionError] instance, as opposed to anything else. *)
Definition is_TransactionError (t : thrown) : bool :=
  match t with Diagnosed _ => true | _ => false end.

Record FeeData := {
  fd_maxFeePerGas : option Z;
  fd_maxPriorityFeePerGas : option Z
}.

Record Block := { baseFeePerGas : option Z }.

Record Metadata := { md_name : string; md_sources : bool }.

(** The builder's own fields. *)
Record Transaction := {
  contract : Contract;
  method : string;
  args : loc;
  overrides : gmap string oval;
  provider : objref;
  signer : objref;
  storage : objref;
  gaslessOptions : option GaslessOptions;
  parse : option (Receipt -> thrown + TResult)
}.

Inductive Event :=
| EGetAddress (s : objref)
| EGetNetwork (p : objref)
| EGetFeeData (p : objref)
| EGetBlock (p : objref)
| EGetGasPrice (p : objref)
| EGetBalance (p : objref) (who : oval)
| EGasStation (chainId : Z)
| ECallStatic (c : Contract) (m : string) (a : list jsval) (value : option oval)
| EEstimateGas (c : Contract) (m : string) (a : list jsval)
    (o : option (gmap string oval))
| ESend (c : Contract) (m : string) (a : list jsval) (o : gmap string oval)
| EWait (tx : ContractTransaction)
| ERelay (tx : GaslessTransaction) (h : gmap loc (list jsval))
| EGetTransaction (p : objref) (txHash : bytes)
| EFetchMetadata (a : bytes)
| EFetchSources (m : Metadata).

Definition is_relay (e : Event) : bool :=
  match e with ERelay _ _ => true | _ => false end.

(** ** Units and big-number arithmetic *)

(** [ethers.utils.parseUnits(n, "gwei")] for the three constants. *)
Definition gwei : Z := 1000000000.
Definition parseUnits_300_gwei : Z := 300 * gwei.
Definition parseUnits_2_5_gwei : Z := 2500000000.
Definition parseUnits_1_gwei : Z := 1 * gwei.

Definition MAX_SAFE : Z := 9007199254740991.

(** [BigNumber.from(v)] *)
Definition BigNumber_from (v : oval) : thrown + Z :=
  match v with
  | OUndefined => inl (JsError "invalid BigNumber value")
  | ONumber z =>
      if bool_decide (MAX_SAFE <= z) || bool_decide (z <= - MAX_SAFE)
      then inl (JsError "overflow") else inr z
  | OBigNumber z => inr z
  | OHex b => inr (be_value b)
  end.

(** [ethers.utils.solidityPack(["bytes", "address"], [tx, from])] on an
    inner call that is a hex string.  The library also packs a number and
    an array of bytes; such inner calls are outside this model, where
    every other value reads as one that cannot be packed. *)
Definition solidityPack_bytes_address (tx : jsval) (from : bytes)
  : thrown + jsval :=
  match tx with
  | VHex b => inr (VHex (b ++ from))
  | _ => inl (JsError "invalid arrayify value")
  end.

(** ** The fee policy (pure part) *)

(** [getPreferredPriorityFee]; [div] of a [BigNumber] truncates. *)
Definition getPreferredPriorityFee (defaultPriorityFeePerGas : Z) : Z :=
  let extraTip := (defaultPriorityFeePerGas ÷ 100) * 10 in
  let txGasPrice := defaultPriorityFeePerGas + extraTip in
  let maxGasPrice := parseUnits_300_gwei in
  let minGasPrice := parseUnits_2_5_gwei in
  if bool_decide (txGasPrice > maxGasPrice) then maxGasPrice
  else if bool_decide (txGasPrice < minGasPrice) then minGasPrice
  else txGasPrice.

(** ** The monad of the engine: state, trace and exceptions *)

Section Engine.

(** The state of everything outside the process: chain, relay, storage. *)
Context {W : Type}.

Record State := {
  self : Transaction;
  heap : gmap loc (list jsval);
  world : W;
  trace : list Event
}.

Definition M (A : Type) : Type := State -> State * (thrown + A).

Definition ret {A} (a : A) : M A := fun st => (st, inr a).

Definition throw {A} (e : thrown) : M A := fun st => (st, inl e).

Definition bind {A B} (m : M A) (k : A -> M B) : M B :=
  fun st =>
    match m st with
    | (st', inr a) => k a st'
    | (st', inl e) => (st', inl e)
    end.

(** [try { m } catch (e) { h e }] *)
Definition try_catch {A} (m : M A) (h : thrown -> M A) : M A :=
  fun st =>
    match m st with
    | (st', inr a) => (st', inr a)
    | (st', inl e) => h e st'
    end.

Definition lift {A} (r : thrown + A) : M A := fun st => (st, r).

Definition this : M Transaction := fun st => (st, inr (self st)).

Definition set_this (t : Transaction) : M unit :=
  fun st =>
    ({| self := t; heap := heap st; world := world st; trace := trace st |},
     inr tt).

Definition get_heap : M (gmap loc (list jsval)) :=
  fun st => (st, inr (heap st)).

(** An awaited call to a collaborator: recorded, then answered. *)
Definition call {A} (ev : Event) (f : W -> W * (thrown + A)) : M A :=
  fun st =>
    let '(w, r) := f (world st) in
    ({| self := self st; heap := heap st; world := w;
        trace := trace st ++ [ev] |}, r).

(** Reading the elements of an array; a dangling reference is a
    [TypeError]. *)
Definition read_array (l : loc) : M (list jsval) :=
  fun st =>
    match heap st !! l with
    | Some xs => (st, inr xs)
    | None => (st, inl (JsError "TypeError: not iterable"))
    end.

(** A new array object. *)
Definition alloc_array (xs : list jsval) : M loc :=
  fun st =>
    let l := fresh (dom (heap st)) in
    ({| self := self st; heap := <[l := xs]> (heap st);
        world := world st; trace := trace st |}, inr l).

(** [arr[i] = v]: an index past the end extends the array, the holes
    reading as [undefined]. *)
Definition js_set (i : nat) (v : jsval) (xs : list jsval) : list jsval :=
  if bool_decide (i < length xs)%nat then <[i := v]> xs
  else xs ++ replicate (i - length xs) VUndefined ++ [v].

Definition write_index (l : loc) (i : nat) (v : jsval) : M unit :=
  fun st =>
    ({| self := self st; heap := alter (js_set i v) l (heap st);
        world := world st; trace := trace st |}, inr tt).

(** A call that is started and not awaited: the request is recorded,
    its answer is not part of this flow. *)
Definition issue (ev : Event) : M unit :=
  fun st =>
    ({| self := self st; heap := heap st; world := world st;
        trace := trace st ++ [ev] |}, inr tt).

(** [xs.map(f)] where [f] may throw: the elements in order. *)
Fixpoint map_throwing (f : jsval -> thrown + jsval) (xs : list jsval)
  : thrown + list jsval :=
  match xs with
  | [] => inr []
  | x :: xs' =>
      match f x with
      | inl e => inl e
      | inr y =>
          match map_throwing f xs' with
          | inl e => inl e
          | inr ys => inr (y :: ys)
          end
      end
  end.

(** The same for elements of any kind. *)
Fixpoint map_result {A B} (f : A -> thrown + B) (xs : list A)
  : thrown + list B :=
  match xs with
  | [] => inr []
  | x :: xs' =>
      match f x with
      | inl e => inl e
      | inr y =>
          match map_result f xs' with
          | inl e => inl e
          | inr ys => inr (y :: ys)
          end
      end
  end.

Notation "'do' x <- m ; k" := (bind m (fun x => k))
  (at level 10, x name, m at level 100, k at level 200, only parsing).

(** ** Collaborators

    The signer, the provider, the contract interface, the relay client
    and the storage are outside this module.  Awaited calls act on the
    world; synchronous helpers are plain functions.  [ChainId_Mumbai]
    and [ChainId_Polygon] are the two members of the [ChainId]
    enumeration that the fee policy names. *)
Record Env := {
  isBrowser : bool;
  ChainId_Mumbai : Z;
  ChainId_Polygon : Z;
  signer_getAddress : objref -> W -> W * (thrown + bytes);
  provider_getNetwork : objref -> W -> W * (thrown + Z);
  provider_getFeeData : objref -> W -> W * (thrown + FeeData);
  provider_getBlock_latest : objref -> W -> W * (thrown + option Block);
  provider_getGasPrice : objref -> W -> W * (thrown + Z);
  provider_getBalance : objref -> oval -> W -> W * (thrown + Z);
  provider_getTransaction :
    objref -> bytes -> W -> W * (thrown + option ContractTransaction);
  provider_waitForTransaction : objref -> bytes -> W -> W * (thrown + Receipt);
  provider_connection_url : objref -> option string;
  getPolygonGasPriorityFee : Z -> W -> W * (thrown + Z);
  contract_callStatic :
    Contract -> string -> list jsval -> gmap loc (list jsval) ->
    option oval -> W -> W * (thrown + jsval);
  contract_estimateGas :
    Contract -> string -> list jsval -> gmap loc (list jsval) ->
    option (gmap string oval) -> W -> W * (thrown + Z);
  contract_functions :
    Contract -> string -> list jsval -> gmap loc (list jsval) ->
    gmap string oval -> W -> W * (thrown + ContractTransaction);
  transaction_wait : ContractTransaction -> W -> W * (thrown + Receipt);
  encodeFunctionData :
    Contract -> string -> list jsval -> gmap loc (list jsval) -> thrown + bytes;
  getFunction_name : Contract -> string -> thrown + string;
  show_address : bytes -> string;
  JSON_stringify :
    jsval -> gmap loc (list jsval) -> thrown + option string;
  JSON_stringify_indent2 :
    jsval -> gmap loc (list jsval) -> thrown + option string;
  parseRevertReason : thrown -> string;
  defaultGaslessSendFunction :
    GaslessTransaction -> gmap loc (list jsval) -> objref -> objref ->
    GaslessOptions -> W -> W * (thrown + bytes);
  fetchContractMetadataFromAddress :
    bytes -> objref -> objref -> W -> W * (thrown + Metadata);
  fetchSourceFilesFromMetadata :
    Metadata -> objref -> W -> W * (thrown + list string)
}.

Variable env : Env.

(** ** Mutators of the builder *)

(** [{ ...this.overrides, ...overrides }]: the keys of the second
    object win, whatever their value. *)
Definition setOverrides (o : gmap string oval) : M unit :=
  do t <- this;
  set_this {| contract := contract t; method := method t; args := args t;
              overrides := o ∪ overrides t;
              provider := provider t; signer := signer t;
              storage := storage t; gaslessOptions := gaslessOptions t;
              parse := parse t |}.

Definition setFrom (v : oval) : M unit := setOverrides {[ "from" := v ]}.
Definition setValue (v : oval) : M unit := setOverrides {[ "value" := v ]}.
Definition setGasLimit (v : oval) : M unit := setOverrides {[ "gasLimit" := v ]}.
Definition setGasPrice (v : oval) : M unit := setOverrides {[ "gasPrice" := v ]}.
Definition setMaxFeePerGas (v : oval) : M unit :=
  setOverrides {[ "maxFeePerGas" := v ]}.
Definition setMaxPriorityFeePerGas (v : oval) : M unit :=
  setOverrides {[ "maxPriorityFeePerGas" := v ]}.

Definition setParse (f : Receipt -> thrown + TResult) : M unit :=
  do t <- this;
  set_this {| contract := contract t; method := method t; args := args t;
              overrides := overrides t;
              provider := provider t; signer := signer t;
              storage := storage t; gaslessOptions := gaslessOptions t;
              parse := Some f |}.

(** ** Encoding, signer, errors *)

Definition encode : M bytes :=
  do t <- this;
  do a <- read_array (args t);
  do h <- get_heap;
  lift (encodeFunctionData env (contract t) (method t) a h).

Definition getSignerAddress : M bytes :=
  do t <- this;
  call (EGetAddress (signer t)) (signer_getAddress env (signer t)).

Definition quote : string := String (Ascii.ascii_of_nat 34) EmptyString.
Definition newline : string := String (Ascii.ascii_of_nat 10) EmptyString.

Definition functionError (t : Transaction) : thrown :=
  JsError ("Contract " +:+ quote +:+ show_address env (address (contract t))
           +:+ quote +:+ " does not have function " +:+ quote
           +:+ method t +:+ quote).

(** [overrides.from || this.getSignerAddress()], awaited. *)
Definition from_or_signer (o : gmap string oval) : M oval :=
  if truthy (field o "from") then ret (field o "from")
  else do a <- getSignerAddress; ret (OHex a).

(** [arg.split("\n").join("\n  ")] *)
Fixpoint indent_lines (s : string) : string :=
  match s with
  | EmptyString => EmptyString
  | String c s' =>
      if bool_decide (c = Ascii.ascii_of_nat 10)
      then newline +:+ "  " +:+ indent_lines s'
      else String c (indent_lines s')
  end.

(** One element of [methodArgs]: [JSON.stringify(arg)] when that text
    has at most 80 characters, [JSON.stringify(arg, undefined, 2)]
    otherwise.  [JSON.stringify] gives [undefined] (here [None]) on
    [undefined], and reading [.length] of it is a [TypeError]; it
    throws by itself on a circular structure. *)
Definition stringify_argument (arg : jsval) (h : gmap loc (list jsval))
  : thrown + option string :=
  match JSON_stringify env arg h with
  | inl e => inl e
  | inr None =>
      inl (JsError "TypeError: cannot read properties of undefined (reading 'length')")
  | inr (Some text) =>
      if bool_decide (String.length text <= 80)%nat
      then JSON_stringify env arg h
      else JSON_stringify_indent2 env arg h
  end.

(** [joinedArgs]: [join] prints an [undefined] element as the empty
    text, [arg.split] on one is a [TypeError]. *)
Definition render_arguments (a : list jsval) (h : gmap loc (list jsval))
  : thrown + string :=
  match map_result (fun arg => stringify_argument arg h) a with
  | inl e => inl e
  | inr methodArgs =>
      let joined :=
        String.concat ", " (default EmptyString <$> methodArgs) in
      if bool_decide (String.length joined <= 80)%nat then inr joined
      else
        match
          map_result
            (fun arg : option string =>
               match arg with
               | Some text => inr ("  " +:+ indent_lines text)
               | None =>
                   inl (JsError "TypeError: cannot read properties of undefined (reading 'split')")
               end)
            methodArgs
        with
        | inl e => inl e
        | inr lines =>
            inr (newline +:+ String.concat ("," +:+ newline) lines
                 +:+ newline)
        end
  end.

(** [error.transactionHash || error.transaction?.hash
     || error.receipt?.transactionHash] *)
Definition hash_of (error : thrown) : option bytes :=
  match error with
  | Raw e =>
      match raw_transactionHash e with
      | Some x => Some x
      | None =>
          match raw_transaction_hash e with
          | Some x => Some x
          | None => raw_receipt_transactionHash e
          end
      end
  | _ => None
  end.

(** [transactionError(error)], awaited: the structured error. *)
Definition transactionError (error : thrown) : M TransactionError :=
  do t <- this;
  do network <- call (EGetNetwork (provider t))
                     (provider_getNetwork env (provider t));
  do from <- from_or_signer (overrides t);
  let to := address (contract t) in
  do data <- encode;
  do value <- lift (BigNumber_from
                      (or_else (field (overrides t) "value") (ONumber 0)));
  let rpcUrl := provider_connection_url env (provider t) in
  do name <- lift (getFunction_name env (contract t) (method t));
  do a <- read_array (args t);
  do h <- get_heap;
  do joinedArgs <- lift (render_arguments a h);
  let shown := name +:+ "(" +:+ joinedArgs +:+ ")" in
  let txHash := hash_of error in
  let why := parseRevertReason env error in
  do found <-
    try_catch
      (do metadata <-
         call (EFetchMetadata (address (contract t)))
              (fetchContractMetadataFromAddress env (address (contract t))
                 (provider t) (storage t));
       ret (Some metadata))
      (fun _ => ret None);
  do enriched <-
    match found with
    | None => ret (None, None)
    | Some metadata =>
        let contractName :=
          if bool_decide (md_name metadata = EmptyString) then None
          else Some (md_name metadata) in
        if md_sources metadata then
          try_catch
            (do files <- call (EFetchSources metadata)
                           (fetchSourceFilesFromMetadata env metadata (storage t));
             ret (contractName, Some files))
            (fun _ => ret (contractName, None))
        else ret (contractName, None)
    end;
  ret {| reason := why; te_from := from; te_to := to; te_method := shown;
         te_data := data; te_network := network; te_rpcUrl := rpcUrl;
         te_value := value; te_hash := txHash;
         contractName := fst enriched; sources := snd enriched |}.

(** [throw await this.transactionError(err)] *)
Definition throw_diagnosed {A} (err : thrown) : M A :=
  do e <- transactionError err; throw (Diagnosed e).

(** ** Simulation and gas estimation *)

Definition simulate : M jsval :=
  do t <- this;
  if negb (has_function (contract t) (method t)) then throw (functionError t)
  else
    try_catch
      (do a <- read_array (args t);
       do h <- get_heap;
       let value :=
         if truthy (field (overrides t) "value")
         then Some (field (overrides t) "value") else None in
       call (ECallStatic (contract t) (method t) a value)
            (contract_callStatic env (contract t) (method t) a h value))
      (fun err => throw_diagnosed err).

(** [this.transactionError(err)] without [await]: the asynchronous
    method runs up to its first suspension, the network query, and
    hands back a promise; the rest of the diagnosis is detached from
    the caller. *)
Definition transactionError_promise (err : thrown) : M thrown :=
  do t <- this;
  do _ <- issue (EGetNetwork (provider t));
  ret (PromiseOfDiagnosis err).

(** The last statement of the handler is [throw this.transactionError(err)]
    with no [await]: what is thrown is the promise itself. *)
Definition estimateGasLimit : M Z :=
  do t <- this;
  if negb (has_function (contract t) (method t)) then throw (functionError t)
  else
    try_catch
      (do a <- read_array (args t);
       do h <- get_heap;
       call (EEstimateGas (contract t) (method t) a (Some (overrides t)))
            (contract_estimateGas env (contract t) (method t) a h
               (Some (overrides t))))
      (fun err =>
         do _ <- simulate;
         do promise <- transactionError_promise err;
         throw promise).

(** ** The fee policy *)

Definition getGasPrice : M Z :=
  do t <- this;
  do gasPrice <- call (EGetGasPrice (provider t))
                      (provider_getGasPrice env (provider t));
  let maxGasPrice := parseUnits_300_gwei in
  let extraTip := (gasPrice ÷ 100) * 10 in
  let txGasPrice := gasPrice + extraTip in
  if bool_decide (txGasPrice > maxGasPrice) then ret maxGasPrice
  else ret txGasPrice.

Definition getGasOverrides : M (gmap string oval) :=
  if isBrowser env then ret ∅
  else
    do t <- this;
    do feeData <- call (EGetFeeData (provider t))
                       (provider_getFeeData env (provider t));
    match fd_maxFeePerGas feeData, fd_maxPriorityFeePerGas feeData with
    | Some _, Some reported =>
        do chainId <- call (EGetNetwork (provider t))
                           (provider_getNetwork env (provider t));
        do block <- call (EGetBlock (provider t))
                         (provider_getBlock_latest env (provider t));
        let baseBlockFee :=
          match block with
          | Some b =>
              match baseFeePerGas b with
              | Some fee => fee
              | None => parseUnits_1_gwei
              end
          | None => parseUnits_1_gwei
          end in
        do defaultPriorityFee <-
          (if bool_decide (chainId = ChainId_Mumbai env)
              || bool_decide (chainId = ChainId_Polygon env)
           then call (EGasStation chainId) (getPolygonGasPriorityFee env chainId)
           else ret reported);
        let maxPriorityFeePerGas := getPreferredPriorityFee defaultPriorityFee in
        let baseMaxFeePerGas := baseBlockFee * 2 in
        let maxFeePerGas := baseMaxFeePerGas + maxPriorityFeePerGas in
        ret (<[ "maxFeePerGas" := OBigNumber maxFeePerGas ]>
               {[ "maxPriorityFeePerGas" := OBigNumber maxPriorityFeePerGas ]})
    | _, _ =>
        do price <- getGasPrice;
        ret {[ "gasPrice" := OBigNumber price ]}
    end.

(** ** The gasless path *)

Definition gasless_configured (g : option GaslessOptions) : bool :=
  match g with
  | Some o => bool_decide (is_Some (openzeppelin o))
              || bool_decide (is_Some (biconomy o))
  | None => false
  end.

(** The arguments of the relayed call (the statements from
    [const args = [...this.args]] to the end of the [multicall]
    block): a shallow copy of the builder's array in which, for a
    [multicall] on a non-empty array, the first element is a new array
    of the inner calls packed with the signer's address. *)
Definition sendGasless_args (t : Transaction) : M loc :=
  do elems <- read_array (args t);
  do args <- alloc_array elems;
  do _ <-
    (if bool_decide (method t = "multicall") then
       match elems !! 0%nat with
       | Some (VArray inner) =>
           do calls <- read_array inner;
           if bool_decide (0 < length calls)%nat then
             do from <- getSignerAddress;
             do packed <-
               lift (map_throwing
                       (fun tx => solidityPack_bytes_address tx from)
                       calls);
             do fresh_calls <- alloc_array packed;
             write_index args 0 (VArray fresh_calls)
           else ret tt
       | _ => ret tt
       end
     else ret tt);
  ret args.

(** The gas limit of the relayed call (the statements from
    [let gas = BigNumber.from(0)] to the end of the override check). *)
Definition sendGasless_gas (t : Transaction) (args : list jsval)
    (h : gmap loc (list jsval)) : M Z :=
  do gas <-
    try_catch
      (if negb (has_function (contract t) (method t))
       then throw (JsError "TypeError: not a function")
       else
         do gasEstimate <-
           call (EEstimateGas (contract t) (method t) args None)
                (contract_estimateGas env (contract t) (method t)
                   args h None);
         ret (gasEstimate * 2))
      (fun _ => ret 0);
  let gas := if bool_decide (gas < 100000) then 500000 else gas in
  if truthy (field (overrides t) "gasLimit") then
    do limit <- lift (BigNumber_from (field (overrides t) "gasLimit"));
    if bool_decide (limit > gas) then ret limit else ret gas
  else ret gas.

Definition sendGasless : M ContractTransaction :=
  do t <- this;
  match gaslessOptions t with
  | Some options =>
    if negb (gasless_configured (Some options))
    then throw (JsError "Invariant failed: No gasless options set on this transaction!")
    else
      do args <- sendGasless_args t;
      do chainId <- call (EGetNetwork (provider t))
                         (provider_getNetwork env (provider t));
      do from <- from_or_signer (overrides t);
      let to := address (contract t) in
      let value := or_else (field (overrides t) "value") (ONumber 0) in
      do amount <- lift (BigNumber_from value);
      if bool_decide (amount > 0) then
        throw (JsError "Cannot send native token value with gasless transaction")
      else
        do packed_args <- read_array args;
        do h <- get_heap;
        do data <- lift (encodeFunctionData env (contract t) (method t)
                           packed_args h);
        do gas <- sendGasless_gas t packed_args h;
        let tx := {| gt_from := from; gt_to := to; gt_data := data;
                     gt_chainId := chainId; gt_gasLimit := gas;
                     functionName := method t; functionArgs := args;
                     callOverrides := overrides t |} in
        do txHash <-
          call (ERelay tx h)
               (defaultGaslessSendFunction env tx h (signer t) (provider t)
                  options);
        do sentTx <- call (EGetTransaction (provider t) txHash)
                          (provider_getTransaction env (provider t) txHash);
        match sentTx with
        | Some found =>
            ret {| hash := hash found;
                   wait := WaitForTransaction (provider t) txHash |}
        | None => throw (JsError "TypeError: cannot set properties of null")
        end
  | None =>
      throw (JsError "Invariant failed: No gasless options set on this transaction!")
  end.

(** ** Sending and executing *)

Definition send : M ContractTransaction :=
  do t <- this;
  if negb (has_function (contract t) (method t)) then throw (functionError t)
  else if gasless_configured (gaslessOptions t) then sendGasless
  else
    do gasOverrides <- getGasOverrides;
    let merged := overrides t ∪ gasOverrides in
    do merged <-
      (if negb (truthy (field merged "gasLimit")) then
         do limit <- estimateGasLimit;
         ret (<[ "gasLimit" := OBigNumber limit ]> merged)
       else ret merged);
    try_catch
      (do a <- read_array (args t);
       do h <- get_heap;
       call (ESend (contract t) (method t) a merged)
            (contract_functions env (contract t) (method t) a h merged))
      (fun err =>
         do from <- from_or_signer merged;
         let value := or_else (field merged "value") (ONumber 0) in
         do balance <- call (EGetBalance (provider t) from)
                            (provider_getBalance env (provider t) from);
         do short <-
           (if bool_decide (balance = 0) then ret true
            else if truthy value then
              do v <- lift (BigNumber_from value);
              ret (bool_decide (balance < v))
            else ret false);
         if short : bool then
           throw_diagnosed
             (JsError "You have insufficient funds in your account to execute this transaction.")
         else throw_diagnosed err).

(** [tx.wait()] *)
Definition wait_for (tx : ContractTransaction) : M Receipt :=
  match wait tx with
  | WaitOwn => call (EWait tx) (transaction_wait env tx)
  | WaitForTransaction p txHash =>
      call (EWait tx) (provider_waitForTransaction env p txHash)
  end.

Definition execute : M TResult :=
  do tx <- send;
  do receipt <-
    try_catch (wait_for tx)
      (fun err =>
         do _ <- simulate;
         throw_diagnosed err);
  do t <- this;
  match parse t with
  | Some f => lift (f receipt)
  | None => ret (RawReceipt receipt)
  end.

(** ** Batches: the class [Transactions] *)

(** A method invoked on the builder [t]; the caller's [this] is put
    back afterwards. *)
Definition on {A} (t : Transaction) (m : M A) : M A :=
  fun st =>
    let '(st', r) :=
      m {| self := t; heap := heap st; world := world st;
           trace := trace st |} in
    ({| self := self st; heap := heap st'; world := world st';
        trace := trace st' |}, r).

Definition add (transactions : list Transaction) (transaction : Transaction)
  : list Transaction := transactions ++ [transaction].

Definition get (transactions : list Transaction) (index : nat)
  : option Transaction := transactions !! index.

Definition getAll (transactions : list Transaction) : list Transaction :=
  transactions.

(** The body of the [for ... of] loop, from the receipts so far. *)
Fixpoint executeAll_loop (transactions : list Transaction)
    (receipts : list TResult) : M (list TResult) :=
  match transactions with
  | [] => ret receipts
  | transaction :: rest =>
      do receipt <- on transaction execute;
      executeAll_loop rest (receipts ++ [receipt])
  end.

Definition executeAll (transactions : list Transaction) : M (list TResult) :=
  executeAll_loop transactions [].

End Engine.

Arguments State : clear implicits.
Arguments Env : clear implicits.
Arguments M : clear implicits.

(** ** Reading a run of the engine *)

Section Reading.

Context {W : Type}.

(** The outcome of a computation from a state, by cases. *)
Definition wp {A} (m : M W A) (Q : A -> State W -> Prop)
    (E : thrown -> State W -> Prop) (st : State W) : Prop :=
  match m st with
  | (st', inr a) => Q a st'
  | (st', inl e) => E e st'
  end.

(** [m] keeps the invariant [I] on every outcome, and what it returns
    satisfies [R]. *)
Definition preserves {A} (I : State W -> Prop) (m : M W A)
    (R : A -> Prop) : Prop :=
  forall st, I st ->
    wp m (fun a st' => I st' /\ R a) (fun _ st' => I st') st.

(** The state after an awaited call that was answered in world [w]. *)
Definition after_call (st : State W) (ev : Event) (w : W) : State W :=
  {| self := self st; heap := heap st; world := w;
     trace := trace st ++ [ev] |}.

(** A collaborator that answers, whatever the world is. *)
Definition answers {A} (f : W -> W * (thrown + A)) : Prop :=
  forall w, exists w' a, f w = (w', inr a).


(** The trace of [st'] extends that of [st] by events that are not
    relay submissions. *)
Definition no_relay_since (st st' : State W) : Prop :=
  exists evs, trace st' = trace st ++ evs /\
              Forall (fun e => is_relay e = false) evs.

(** The builder is [t0] and the heap still holds all of [h0]. *)
Definition frame_inv (t0 : Transaction) (h0 : gmap loc (list jsval))
    (st : State W) : Prop :=
  self st = t0 /\ h0 ⊆ heap st.

(** The builder is that of [st0] and no relay submission has been
    made since [st0]. *)
Definition quiet_inv (st0 st : State W) : Prop :=
  self st = self st0 /\ no_relay_since st0 st.

End Reading.

(** [overrides.value] as a strictly positive amount, in any of its
    representations. *)
Definition value_positive (o : gmap string oval) : Prop :=
  match field o "value" with
  | OUndefined => False
  | ONumber z => z > 0
  | OBigNumber z => z > 0
  | OHex b => be_value b > 0
  end.

(** The explicit gas limit of the overrides, when one is set. *)
Definition gasLimit_override (o : gmap string oval) : thrown + option Z :=
  if truthy (field o "gasLimit") then
    match BigNumber_from (field o "gasLimit") with
    | inr g => inr (Some g)
    | inl e => inl e
    end
  else inr None.

End Tx.

(** ** A concrete environment

    Collaborators that give fixed answers; the world counts the requests
    served. *)

Module Scenario.

Import Tx.

Record Answers := {
  sc_isBrowser : bool;
  sc_address : thrown + bytes;
  sc_network : thrown + Z;
  sc_feeData : thrown + FeeData;
  sc_block : thrown + option Block;
  sc_gasPrice : thrown + Z;
  sc_balance : thrown + Z;
  sc_gasStation : thrown + Z;
  sc_callStatic : thrown + jsval;
  sc_estimateGas : thrown + Z;
  sc_send : thrown + ContractTransaction;
  sc_wait : thrown + Receipt;
  sc_relay : thrown + bytes;
  sc_getTransaction : thrown + option ContractTransaction
}.

Definition served {A} (r : thrown + A) (w : nat) : nat * (thrown + A) :=
  (S w, r).

(** The bytes of the hex arguments, arrays flattened one level. *)
Definition flat (h : gmap loc (list jsval)) (v : jsval) : bytes :=
  match v with
  | VHex b => b
  | VArray l =>
      concat ((fun x => match x with VHex b => b | _ => [] end)
                <$> default [] (h !! l))
  | _ => []
  end.

Definition environment (a : Answers) : Env nat := {|
  isBrowser := sc_isBrowser a;
  ChainId_Mumbai := 80001;
  ChainId_Polygon := 137;
  signer_getAddress := fun _ => served (sc_address a);
  provider_getNetwork := fun _ => served (sc_network a);
  provider_getFeeData := fun _ => served (sc_feeData a);
  provider_getBlock_latest := fun _ => served (sc_block a);
  provider_getGasPrice := fun _ => served (sc_gasPrice a);
  provider_getBalance := fun _ _ => served (sc_balance a);
  provider_getTransaction := fun _ _ => served (sc_getTransaction a);
  provider_waitForTransaction := fun _ _ => served (sc_wait a);
  provider_connection_url := fun _ => Some "https://rpc.example/v1";
  getPolygonGasPriorityFee := fun _ => served (sc_gasStation a);
  contract_callStatic := fun _ _ _ _ _ => served (sc_callStatic a);
  contract_estimateGas := fun _ _ _ _ _ => served (sc_estimateGas a);
  contract_functions := fun _ _ _ _ _ => served (sc_send a);
  transaction_wait := fun _ => served (sc_wait a);
  encodeFunctionData := fun _ _ args h => inr (concat (flat h <$> args));
  getFunction_name := fun _ m => inr m;
  show_address := fun _ => "0x";
  JSON_stringify := fun v _ =>
    match v with VUndefined => inr None | _ => inr (Some "null") end;
  JSON_stringify_indent2 := fun v _ =>
    match v with VUndefined => inr None | _ => inr (Some "null") end;
  parseRevertReason := fun _ => "reverted";
  defaultGaslessSendFunction := fun _ _ _ _ _ => served (sc_relay a);
  fetchContractMetadataFromAddress := fun _ _ _ =>
    served (inl (JsError "no metadata"));
  fetchSourceFilesFromMetadata := fun _ _ => served (inr [])
|}.

Definition sender : bytes := [Byte.xaa; Byte.xbb].
Definition txHash : bytes := [Byte.x77].

Definition rejected : thrown :=
  Raw {| raw_message := "missing revert data";
         raw_transactionHash := None;
         raw_transaction_hash := None;
         raw_receipt_transactionHash := None |}.

(** A network with fee-market data at chain id 1. *)
Definition answers (priority gasPrice estimate : Z) : Answers := {|
  sc_isBrowser := false;
  sc_address := inr sender;
  sc_network := inr 1;
  sc_feeData := inr {| fd_maxFeePerGas := Some (100 * gwei);
                       fd_maxPriorityFeePerGas := Some priority |};
  sc_block := inr (Some {| baseFeePerGas := Some (20 * gwei) |});
  sc_gasPrice := inr gasPrice;
  sc_balance := inr (5 * gwei);
  sc_gasStation := inr (30 * gwei);
  sc_callStatic := inr VUndefined;
  sc_estimateGas := inr estimate;
  sc_send := inr {| hash := txHash; wait := WaitOwn |};
  sc_wait := inr {| transactionHash := txHash; blockNumber := 1 |};
  sc_relay := inr txHash;
  sc_getTransaction := inr (Some {| hash := txHash; wait := WaitOwn |})
|}.

(** The same network when gas estimation is rejected. *)
Definition answers_no_estimate : Answers := {|
  sc_isBrowser := false;
  sc_address := inr sender;
  sc_network := inr 1;
  sc_feeData := inr {| fd_maxFeePerGas := Some (100 * gwei);
                       fd_maxPriorityFeePerGas := Some (3 * gwei) |};
  sc_block := inr (Some {| baseFeePerGas := Some (20 * gwei) |});
  sc_gasPrice := inr (3 * gwei);
  sc_balance := inr (5 * gwei);
  sc_gasStation := inr (30 * gwei);
  sc_callStatic := inr VUndefined;
  sc_estimateGas := inl rejected;
  sc_send := inr {| hash := txHash; wait := WaitOwn |};
  sc_wait := inr {| transactionHash := txHash; blockNumber := 1 |};
  sc_relay := inr txHash;
  sc_getTransaction := inr (Some {| hash := txHash; wait := WaitOwn |})
|}.

Definition token : Contract :=
  {| address := [Byte.x10]; functions := ["transfer"; "multicall"] |}.

Definition relay : GaslessOptions :=
  {| openzeppelin := Some "https://relay.example"; biconomy := None |}.

(** A builder on [token]; its argument array is at location 1. *)
Definition builder (m : string) (o : gmap string oval)
    (g : option GaslessOptions) : Transaction :=
  {| contract := token; method := m; args := 1%positive; overrides := o;
     provider := 0%nat; signer := 0%nat; storage := 0%nat;
     gaslessOptions := g; parse := None |}.

Definition start (t : Transaction) (h : gmap loc (list jsval)) : State nat :=
  {| self := t; heap := h; world := 0%nat; trace := [] |}.

(** [transfer(0x01)] and [multicall([0x01, 0x0102])]. *)
Definition transfer_heap : gmap loc (list jsval) :=
  {[ 1%positive := [VHex [Byte.x01]] ]}.

Definition multicall_heap : gmap loc (list jsval) :=
  <[ 1%positive := [VArray 2%positive] ]>
    {[ 2%positive := [VHex [Byte.x01]; VHex [Byte.x01; Byte.x02]] ]}.

(** A fee-market network on which an estimate of 21000 is given. *)
Definition mainnet : Env nat := environment (answers (3 * gwei) 0 21000).

Definition batch_start : State nat :=
  start (builder "transfer" ∅ None) transfer_heap.

End Scenario.

(** ** Chain names, the chain table and [getChainProvider]: [urls.ts] *)

Module Chains.

(** The members of the [ChainId] enumeration that the name table uses. *)
Inductive ChainId :=
| Mainnet | Goerli | Polygon | Mumbai | Fantom | FantomTestnet
| Avalanche | AvalancheFujiTestnet | Optimism | OptimismGoerli
| Arbitrum | ArbitrumGoerli | BinanceSmartChainMainnet
| BinanceSmartChainTestnet | Hardhat | Localhost.

Global Instance ChainId_eq_dec : EqDecision ChainId.
Proof. solve_decision. Defined.

(** The entries of [CHAIN_NAME_TO_ID], in the order of the object literal. *)
Definition CHAIN_NAME_TO_ID : list (string * ChainId) :=
  [ ("avalanche-fuji", AvalancheFujiTestnet);
    ("avalanche-testnet", AvalancheFujiTestnet);
    ("fantom-testnet", FantomTestnet);
    ("ethereum", Mainnet);
    ("matic", Polygon);
    ("mumbai", Mumbai);
    ("goerli", Goerli);
    ("polygon", Polygon);
    ("mainnet", Mainnet);
    ("optimism", Optimism);
    ("optimism-goerli", OptimismGoerli);
    ("arbitrum", Arbitrum);
    ("arbitrum-goerli", ArbitrumGoerli);
    ("fantom", Fantom);
    ("avalanche", Avalanche);
    ("binance", BinanceSmartChainMainnet);
    ("binance-testnet", BinanceSmartChainTestnet);
    ("hardhat", Hardhat);
    ("localhost", Localhost) ].

(** [obj[name]] on the own properties of the table. *)
Fixpoint own (entries : list (string * ChainId)) (name : string)
  : option ChainId :=
  match entries with
  | [] => None
  | (n, c) :: rest => if bool_decide (n = name) then Some c else own rest name
  end.

(** What resolving a network gives: a number, or, for a string that names
    a member inherited from [Object.prototype], that member. *)
Inductive Resolved :=
| IdNumber (n : Z)
| InheritedMember (name : string).

Inductive failure :=
| Error (message : string)
| SchemaError (issue : string)
| Construction (e : Provider.Thrown).

Section WithChains.

(** The number of each member of the enumeration. *)
Variable value : ChainId -> Z.

(** The names that every object inherits ([toString], [constructor], ...):
    the [in] operator answers [true] on them too. *)
Variable inherited : string -> bool.

(** A chain descriptor; the code reads its [chainId] only. *)
Variable Chain : Type.
Variable chainId : Chain -> Z.

(** [Object.fromEntries(Object.entries(CHAIN_NAME_TO_ID).map(([name, id]) =>
    [id, name]))]: a later entry replaces an earlier one with the same id. *)
Definition fromEntries (entries : list (Z * string)) : gmap Z string :=
  foldl (fun m e => <[e.1 := e.2]> m) ∅ entries.

Definition CHAIN_ID_TO_NAME : gmap Z string :=
  fromEntries ((fun e => (value e.2, e.1)) <$> CHAIN_NAME_TO_ID).

Inductive Network :=
| NChain (c : Chain)
| NNumber (n : Z)
| NString (s : string).

(** [isChainConfig]: neither a string nor a number (signers and providers
    are not among the inputs of [getChainProvider]). *)
Definition isChainConfig (network : Network) : bool :=
  match network with NChain _ => true | _ => false end.

Definition show_network (network : Network) : string :=
  match network with
  | NChain _ => "[object Object]"
  | NNumber n => pretty n
  | NString s => s
  end.

Definition getChainIdFromNetwork (network : Network) : failure + Resolved :=
  match network with
  | NChain c => inr (IdNumber (chainId c))
  | NNumber n => inr (IdNumber n)
  | NString s =>
      match own CHAIN_NAME_TO_ID s with
      | Some c => inr (IdNumber (value c))
      | None =>
          if inherited s then inr (InheritedMember s)
          else inl (Error ("Cannot resolve chainId from: " +:+ s +:+
                 " - please pass the chainId instead and specify it in the 'chains' property of the SDK options."))
      end
  end.

(** The parsed SDK options, as far as this file reads them. *)
Record SDKOptionsOutput := {
  supportedChains : list Chain;
  thirdwebApiKey : string;
  infuraApiKey : option string;
  alchemyApiKey : option string
}.

Record ApiKeys := {
  key_thirdweb : string;
  key_infura : option string;
  key_alchemy : option string
}.

(** The options as the caller writes them, the schema that parses them,
    and a parsed object handed back where options are expected. *)
Variable SDKOptions : Type.
Variable SDKOptionsSchema_parse : SDKOptions -> failure + SDKOptionsOutput.
Variable as_options : SDKOptionsOutput -> SDKOptions.

(** The URL that [getChainProvider] settles on: the answer of
    [getChainRPC] (taken as empty when it throws), or the default endpoint
    of the chain when that answer is empty. *)
Definition chosen_url (answer : failure + string) (resolved_text key : string)
  : string :=
  let rpcUrl := match answer with inr url => url | inl _ => EmptyString end in
  if bool_decide (rpcUrl = EmptyString)
  then "https://" +:+ resolved_text +:+ ".rpc.thirdweb.com/" +:+ key
  else rpcUrl.

(** [getChainRPC] of the chains package and the default access key. *)
Variable getChainRPC : option Chain -> ApiKeys -> failure + string.
Variable DEFAULT_API_KEY : string.

(** The text of an inherited member in a template literal, and what the
    provider layer does when such a member is passed as the chain id. *)
Variable member_text : string -> string.
Variable provider_for_member :
  string -> string -> Provider.State ->
  Provider.State * (Provider.Thrown + Provider.Handle).

Variable throws : Provider.ProviderClass -> bool.

(** The [reduce] of [buildDefaultMap] over the supported chains. *)
Definition chain_map (chains : list Chain) : gmap Z Chain :=
  foldl (fun previousValue currentValue =>
           <[chainId currentValue := currentValue]> previousValue) ∅ chains.

Definition buildDefaultMap (sdkOptions : SDKOptions) : failure + gmap Z Chain :=
  match SDKOptionsSchema_parse sdkOptions with
  | inl e => inl e
  | inr options => inr (chain_map (supportedChains options))
  end.

(** [a || b] on strings: the empty string is falsy. *)
Definition or_string (a b : string) : string :=
  if bool_decide (a = EmptyString) then b else a.

Definition show_resolved (r : Resolved) : string :=
  match r with
  | IdNumber n => pretty n
  | InheritedMember name => member_text name
  end.

Definition lift_provider (r : Provider.State * (Provider.Thrown + Provider.Handle))
  : Provider.State * (failure + Provider.Handle) :=
  match r with
  | (s, inl e) => (s, inl (Construction e))
  | (s, inr h) => (s, inr h)
  end.

(** The first test of [getChainProvider]: a string that is an RPC URL. *)
Definition as_rpc_url (network : Network) : option string :=
  match network with
  | NString url => if Provider.isRpcUrl url then Some url else None
  | _ => None
  end.

(** [[network, ...options.supportedChains]] when the network is a chain. *)
Definition with_network (network : Network) (options : SDKOptionsOutput)
  : SDKOptionsOutput :=
  match network with
  | NChain c =>
      {| supportedChains := c :: supportedChains options;
         thirdwebApiKey := thirdwebApiKey options;
         infuraApiKey := infuraApiKey options;
         alchemyApiKey := alchemyApiKey options |}
  | _ => options
  end.

(** [getChainProvider]; an absent [thirdwebApiKey] reads as the empty
    string, and the warning printed when [getChainRPC] throws is left
    out. *)
Definition getChainProvider (network : Network) (sdkOptions : SDKOptions)
    (s : Provider.State) : Provider.State * (failure + Provider.Handle) :=
  match as_rpc_url network with
  | Some url => lift_provider (Provider.getProviderFromRpcUrl throws url None s)
  | None =>
      match SDKOptionsSchema_parse sdkOptions with
      | inl e => (s, inl e)
      | inr parsed =>
          let options := with_network network parsed in
          match buildDefaultMap (as_options options) with
          | inl e => (s, inl e)
          | inr rpcMap =>
              match getChainIdFromNetwork network with
              | inl e => (s, inl e)
              | inr resolved =>
                  let key := or_string (thirdwebApiKey options) DEFAULT_API_KEY in
                  let found :=
                    match resolved with
                    | IdNumber n => rpcMap !! n
                    | InheritedMember _ => None
                    end in
                  let rpcUrl :=
                    match getChainRPC found
                            {| key_thirdweb := key;
                               key_infura := infuraApiKey options;
                               key_alchemy := alchemyApiKey options |} with
                    | inr url => url
                    | inl _ => EmptyString
                    end in
                  let rpcUrl :=
                    if bool_decide (rpcUrl = EmptyString)
                    then "https://" +:+ show_resolved resolved
                         +:+ ".rpc.thirdweb.com/" +:+ key
                    else rpcUrl in
                  if bool_decide (rpcUrl = EmptyString)
                  then (s, inl (Error ("No rpc url found for chain "
                          +:+ show_network network +:+
                          ". Please provide a valid rpc url via the 'chains' property of the sdk options.")))
                  else
                    match resolved with
                    | IdNumber n =>
                        lift_provider
                          (Provider.getProviderFromRpcUrl throws rpcUrl (Some n) s)
                    | InheritedMember name =>
                        lift_provider (provider_for_member rpcUrl name s)
                    end
              end
          end
      end
  end.

End WithChains.

Arguments NChain {Chain}.
Arguments NNumber {Chain}.
Arguments NString {Chain}.

End Chains.

(** A concrete chain table: chains are pairs of an id and an RPC URL, the
    options are the list of supported chains. *)

Module UrlScenario.

Import Chains.

Definition value (c : ChainId) : Z :=
  match c with
  | Mainnet => 1 | Goerli => 5 | Polygon => 137 | Mumbai => 80001
  | Fantom => 250 | FantomTestnet => 4002 | Avalanche => 43114
  | AvalancheFujiTestnet => 43113 | Optimism => 10 | OptimismGoerli => 420
  | Arbitrum => 42161 | ArbitrumGoerli => 421613
  | BinanceSmartChainMainnet => 56 | BinanceSmartChainTestnet => 97
  | Hardhat => 31337 | Localhost => 1337
  end.

Definition inherited (name : string) : bool :=
  bool_decide (name = "toString") || bool_decide (name = "constructor").

Definition Chain : Type := Z * string.

Definition parse (chains : list Chain) : failure + SDKOptionsOutput Chain :=
  inr {| supportedChains := chains; thirdwebApiKey := EmptyString;
         infuraApiKey := None; alchemyApiKey := None |}.

Definition getChainRPC (found : option Chain) (keys : ApiKeys)
  : failure + string :=
  match found with
  | Some c => inr c.2
  | None => inl (Error "no chain")
  end.

Definition never (c : Provider.ProviderClass) : bool := false.

(** The text and the provider given for a name inherited from
    [Object.prototype] are stand-ins: the networks that the theorems
    pass are numbers, chain descriptors and names of the table, which
    never reach them. *)
Definition getChainProvider :=
  Chains.getChainProvider value inherited Chain fst (list Chain) parse
    (supportedChains Chain) getChainRPC "key"
    (fun _ => "function () { [native code] }")
    (fun url _ => Provider.getDefaultProvider never url) never.

Definition buildDefaultMap :=
  Chains.buildDefaultMap Chain fst (list Chain) parse.

(** A constructor of batch and streaming providers that always throws. *)
Definition only_default (c : Provider.ProviderClass) : bool :=
  match c with Provider.DefaultProvider _ => false | _ => true end.

(** Two supported chains, and a descriptor of the caller's for the
    first chain id. *)
Definition supported : list Chain :=
  [(1, "https://one.example/rpc"); (137, "https://polygon.example/rpc")].

Definition mine : Chain := (1, "https://mine.example/rpc").

End UrlScenario.


(** ** What the provider cache holds *)

(** Every cached object was allocated, and no object sits under two keys. *)
Definition cache_sound (s : Provider.State) : Prop :=
  (forall k h, Provider.RPC_PROVIDER_MAP s !! k = Some h ->
               (Provider.ref h < Provider.allocated s)%nat) /\
  (forall k1 k2 h1 h2,
      Provider.RPC_PROVIDER_MAP s !! k1 = Some h1 ->
      Provider.RPC_PROVIDER_MAP s !! k2 = Some h2 ->
      Provider.same_object h1 h2 -> k1 = k2).

(** A text without the separator of the cache key. *)
Fixpoint no_dash (s : string) : bool :=
  match s with
  | EmptyString => true
  | String c s' => negb (bool_decide (c = "-"%char)) && no_dash s'
  end.

(** ** The collaborators that a method calls *)

Module Calls.

Import Tx.

(** The collaborator call behind an event. *)
Inductive kind :=
| KGetAddress | KGetNetwork | KGetFeeData | KGetBlock | KGetGasPrice
| KGetBalance | KGasStation | KCallStatic | KEstimateGas | KSend | KWait
| KRelay | KGetTransaction | KFetchMetadata | KFetchSources.

Global Instance kind_eq_dec : EqDecision kind.
Proof. solve_decision. Defined.

Definition kind_of (e : Event) : kind :=
  match e with
  | EGetAddress _ => KGetAddress
  | EGetNetwork _ => KGetNetwork
  | EGetFeeData _ => KGetFeeData
  | EGetBlock _ => KGetBlock
  | EGetGasPrice _ => KGetGasPrice
  | EGetBalance _ _ => KGetBalance
  | EGasStation _ => KGasStation
  | ECallStatic _ _ _ _ => KCallStatic
  | EEstimateGas _ _ _ _ => KEstimateGas
  | ESend _ _ _ _ => KSend
  | EWait _ => KWait
  | ERelay _ _ => KRelay
  | EGetTransaction _ _ => KGetTransaction
  | EFetchMetadata _ => KFetchMetadata
  | EFetchSources _ => KFetchSources
  end.

(** The calls that each method can make, read off its body. *)
Definition diagnosis_calls : list kind :=
  [KGetNetwork; KGetAddress; KFetchMetadata; KFetchSources].

Definition simulate_calls : list kind := KCallStatic :: diagnosis_calls.

Definition estimate_calls : list kind := KEstimateGas :: simulate_calls.

Definition fee_calls : list kind :=
  [KGetFeeData; KGetNetwork; KGetBlock; KGasStation; KGetGasPrice].

Definition gasless_calls : list kind :=
  [KGetAddress; KGetNetwork; KEstimateGas; KRelay; KGetTransaction].

Definition direct_calls : list kind :=
  KSend :: KGetBalance :: fee_calls ++ estimate_calls.

Section Since.

Context {W : Type}.

(** The trace of [st] extends that of [st0] by events that satisfy
    [P]. *)
Definition only_since (P : Event -> Prop) (st0 st : State W) : Prop :=
  exists evs, trace st = trace st0 ++ evs /\ Forall P evs.

(** The builder is that of [st0], and only such events were added. *)
Definition since_inv (P : Event -> Prop) (st0 st : State W) : Prop :=
  self st = self st0 /\ only_since P st0 st.

End Since.

(** A direct submission of the builder [t]: it goes to the builder's
    contract and method, carries a gas limit, and carries every override
    that the builder holds (a gas limit that reads as false apart). *)
Definition submission_ok (t : Transaction) (e : Event) : Prop :=
  match e with
  | ESend c m _ o =>
      c = contract t /\ m = method t /\
      truthy (field o "gasLimit") = true /\
      forall k v, overrides t !! k = Some v ->
                  k <> "gasLimit" \/ truthy v = true -> o !! k = Some v
  | _ => True
  end.

(** A relay submission of the builder [t]. *)
Definition relay_ok (t : Transaction) (e : Event) : Prop :=
  match e with
  | ERelay tx _ =>
      gt_to tx = address (contract t) /\ functionName tx = method t /\
      callOverrides tx = overrides t /\
      100000 <= gt_gasLimit tx /\
      forall g, gasLimit_override (overrides t) = inr (Some g) ->
                g <= gt_gasLimit tx
  | _ => True
  end.

(** The steps of [send] before the submission (from the call of
    [getGasOverrides] to the gas limit) went through: they left the
    state [st1] and the overrides [merged]. *)
Definition send_prepared {W : Type} (env : Env W) (st st1 : State W)
    (merged : gmap string oval) : Prop :=
  exists gasOverrides st0,
    getGasOverrides env st = (st0, inr gasOverrides) /\
    (if truthy (field (overrides (self st) ∪ gasOverrides) "gasLimit")
     then st1 = st0 /\ merged = overrides (self st) ∪ gasOverrides
     else exists limit,
         estimateGasLimit env st0 = (st1, inr limit) /\
         merged = <[ "gasLimit" := OBigNumber limit ]>
                    (overrides (self st) ∪ gasOverrides)).

(** ** The cost estimate *)

Record GasCost := { ether : string; wei : Z }.

Section Cost.

Context {W : Type}.

Variable env : Env W.

(** [ethers.utils.formatEther] *)
Variable formatEther : Z -> string.

Definition estimateGasCost : M W GasCost :=
  bind (estimateGasLimit env) (fun gasLimit =>
  bind (getGasPrice env) (fun gasPrice =>
  let gasCost := gasLimit * gasPrice in
  ret {| ether := formatEther gasCost; wei := gasCost |})).

End Cost.

End Calls.

(** A network on which the transaction is accepted and then fails while
    it is waited for. *)
Definition answers_no_wait : Scenario.Answers := {|
  Scenario.sc_isBrowser := false;
  Scenario.sc_address := inr Scenario.sender;
  Scenario.sc_network := inr 1;
  Scenario.sc_feeData :=
    inr {| Tx.fd_maxFeePerGas := Some (100 * Tx.gwei);
           Tx.fd_maxPriorityFeePerGas := Some (3 * Tx.gwei) |};
  Scenario.sc_block := inr (Some {| Tx.baseFeePerGas := Some (20 * Tx.gwei) |});
  Scenario.sc_gasPrice := inr (3 * Tx.gwei);
  Scenario.sc_balance := inr (5 * Tx.gwei);
  Scenario.sc_gasStation := inr (30 * Tx.gwei);
  Scenario.sc_callStatic := inr Tx.VUndefined;
  Scenario.sc_estimateGas := inr 21000;
  Scenario.sc_send := inr {| Tx.hash := Scenario.txHash; Tx.wait := Tx.WaitOwn |};
  Scenario.sc_wait := inl Scenario.rejected;
  Scenario.sc_relay := inr Scenario.txHash;
  Scenario.sc_getTransaction :=
    inr (Some {| Tx.hash := Scenario.txHash; Tx.wait := Tx.WaitOwn |})
|}.

(** A network on which the submission is rejected and the sender has no
    funds. *)
Definition answers_no_funds : Scenario.Answers := {|
  Scenario.sc_isBrowser := false;
  Scenario.sc_address := inr Scenario.sender;
  Scenario.sc_network := inr 1;
  Scenario.sc_feeData :=
    inr {| Tx.fd_maxFeePerGas := Some (100 * Tx.gwei);
           Tx.fd_maxPriorityFeePerGas := Some (3 * Tx.gwei) |};
  Scenario.sc_block := inr (Some {| Tx.baseFeePerGas := Some (20 * Tx.gwei) |});
  Scenario.sc_gasPrice := inr (3 * Tx.gwei);
  Scenario.sc_balance := inr 0;
  Scenario.sc_gasStation := inr (30 * Tx.gwei);
  Scenario.sc_callStatic := inr Tx.VUndefined;
  Scenario.sc_estimateGas := inr 21000;
  Scenario.sc_send := inl Scenario.rejected;
  Scenario.sc_wait :=
    inr {| Tx.transactionHash := Scenario.txHash; Tx.blockNumber := 1 |};
  Scenario.sc_relay := inr Scenario.txHash;
  Scenario.sc_getTransaction :=
    inr (Some {| Tx.hash := Scenario.txHash; Tx.wait := Tx.WaitOwn |})
|}.
(** ** The provider cache *)

Section ProviderFacts.

Import Provider.

Variable throws : ProviderClass -> bool.

Lemma new_cache c s :
  RPC_PROVIDER_MAP (fst (new throws c s)) = RPC_PROVIDER_MAP s.
Proof. unfold new. by destruct (throws c). Qed.

(** On an http(s) URL the function is a cache lookup followed, on a
    miss, by a construction and an insertion. *)
Lemma getProviderFromRpcUrl_http rpcUrl chainId s :
  match_scheme rpcUrl = Some "http" ->
  getProviderFromRpcUrl throws rpcUrl chainId s =
    match RPC_PROVIDER_MAP s !! seralizedOpts rpcUrl chainId with
    | Some existingProvider => (s, inr existingProvider)
    | None =>
        match new throws (batch_class rpcUrl chainId) s with
        | (s1, inr newProvider) =>
            (mkState (<[seralizedOpts rpcUrl chainId := newProvider]>
                        (RPC_PROVIDER_MAP s1)) (allocated s1),
             inr newProvider)
        | (s1, inl _) => getDefaultProvider throws rpcUrl s1
        end
    end.
Proof. intros Hm. unfold getProviderFromRpcUrl. by rewrite Hm. Qed.

Lemma getProviderFromRpcUrl_ws rpcUrl chainId s :
  match_scheme rpcUrl = Some "ws" ->
  getProviderFromRpcUrl throws rpcUrl chainId s =
    match new throws (WebSocketProvider rpcUrl chainId) s with
    | (s1, inr p) => (s1, inr p)
    | (s1, inl _) => getDefaultProvider throws rpcUrl s1
    end.
Proof. intros Hm. unfold getProviderFromRpcUrl. by rewrite Hm. Qed.

(** Entries are never evicted nor overwritten. *)
Lemma cache_kept rpcUrl chainId s k h :
  RPC_PROVIDER_MAP s !! k = Some h ->
  RPC_PROVIDER_MAP (fst (getProviderFromRpcUrl throws rpcUrl chainId s)) !! k
    = Some h.
Proof.
  intros Hk. unfold getProviderFromRpcUrl, getDefaultProvider.
  destruct (match_scheme rpcUrl) as [m|]; [|by rewrite new_cache].
  destruct (_ || _).
  - destruct (RPC_PROVIDER_MAP s !! seralizedOpts rpcUrl chainId) eqn:Hc;
      [done|].
    unfold new. destruct (throws (batch_class _ _)); simpl.
    + by destruct (throws (DefaultProvider _)).
    + rewrite lookup_insert_ne; [done|]. intros Heq. rewrite Heq in Hc. congruence.
  - destruct (_ || _); [|by rewrite new_cache].
    unfold new. destruct (throws (WebSocketProvider _ _)); simpl; [|done].
    by destruct (throws (DefaultProvider _)).
Qed.

Lemma calls_cache_kept between s k h :
  RPC_PROVIDER_MAP s !! k = Some h ->
  RPC_PROVIDER_MAP (calls throws between s) !! k = Some h.
Proof.
  revert s. induction between as [|[u c] l IH]; intros s Hk; [done|].
  simpl. apply IH. by apply cache_kept.
Qed.

Lemma http_hit rpcUrl chainId s h :
  match_scheme rpcUrl = Some "http" ->
  RPC_PROVIDER_MAP s !! seralizedOpts rpcUrl chainId = Some h ->
  getProviderFromRpcUrl throws rpcUrl chainId s = (s, inr h).
Proof. intros Hm Hk. rewrite getProviderFromRpcUrl_http; [|done]. by rewrite Hk. Qed.

Lemma http_first rpcUrl chainId s :
  match_scheme rpcUrl = Some "http" ->
  throws (batch_class rpcUrl chainId) = false ->
  exists h,
    snd (getProviderFromRpcUrl throws rpcUrl chainId s) = inr h /\
    RPC_PROVIDER_MAP (fst (getProviderFromRpcUrl throws rpcUrl chainId s))
      !! seralizedOpts rpcUrl chainId = Some h.
Proof.
  intros Hm Hok. rewrite getProviderFromRpcUrl_http; [|done].
  destruct (RPC_PROVIDER_MAP s !! seralizedOpts rpcUrl chainId) as [e|] eqn:Hc.
  - by exists e.
  - unfold new. rewrite Hok. simpl. eexists. split; [done|].
    by rewrite lookup_insert_eq.
Qed.

(** C1 (as amended): for an http(s) URL whose provider can be built,
    the first call returns a handle and leaves it in the cache under the
    key of (URL, chain id), and a later call with the same URL and chain
    id, after any number of other calls, returns that very handle. *)
Theorem http_provider_is_reused rpcUrl chainId s between :
  match_scheme rpcUrl = Some "http" ->
  throws (batch_class rpcUrl chainId) = false ->
  exists h,
    snd (getProviderFromRpcUrl throws rpcUrl chainId s) = inr h /\
    RPC_PROVIDER_MAP (fst (getProviderFromRpcUrl throws rpcUrl chainId s))
      !! seralizedOpts rpcUrl chainId = Some h /\
    getProviderFromRpcUrl throws rpcUrl chainId
      (calls throws between
         (fst (getProviderFromRpcUrl throws rpcUrl chainId s)))
    = (calls throws between
         (fst (getProviderFromRpcUrl throws rpcUrl chainId s)), inr h).
Proof.
  intros Hm Hok.
  destruct (http_first rpcUrl chainId s Hm Hok) as (h & Hr & Hc).
  exists h. repeat split; [done..|].
  apply http_hit; [done|]. by apply calls_cache_kept.
Qed.

(** A streaming URL is answered by a new object on every call. *)
Lemma ws_provider_is_fresh rpcUrl chainId s :
  match_scheme rpcUrl = Some "ws" ->
  throws (WebSocketProvider rpcUrl chainId) = false ->
  exists h1 h2 s1 s2,
    getProviderFromRpcUrl throws rpcUrl chainId s = (s1, inr h1) /\
    getProviderFromRpcUrl throws rpcUrl chainId s1 = (s2, inr h2) /\
    ~ same_object h1 h2.
Proof.
  intros Hm Hok. rewrite !getProviderFromRpcUrl_ws by done.
  unfold new. rewrite Hok. do 4 eexists. split; [done|].
  rewrite getProviderFromRpcUrl_ws by done. unfold new. rewrite Hok.
  split; [done|]. unfold same_object. simpl. lia.
Qed.

End ProviderFacts.

Lemma http_provider_is_reused_witness :
  exists h,
    snd (Provider.getProviderFromRpcUrl (fun _ => false)
           "https://rpc.example/v1" (Some 5) Provider.initial) = inr h /\
    Provider.RPC_PROVIDER_MAP
      (fst (Provider.getProviderFromRpcUrl (fun _ => false)
              "https://rpc.example/v1" (Some 5) Provider.initial))
      !! Provider.seralizedOpts "https://rpc.example/v1" (Some 5) = Some h /\
    Provider.getProviderFromRpcUrl (fun _ => false)
      "https://rpc.example/v1" (Some 5)
      (Provider.calls (fun _ => false) [("wss://rpc.example/ws", None)]
         (fst (Provider.getProviderFromRpcUrl (fun _ => false)
                 "https://rpc.example/v1" (Some 5) Provider.initial)))
    = (Provider.calls (fun _ => false) [("wss://rpc.example/ws", None)]
         (fst (Provider.getProviderFromRpcUrl (fun _ => false)
                 "https://rpc.example/v1" (Some 5) Provider.initial)), inr h).
Proof.
  apply (http_provider_is_reused (fun _ => false)
           "https://rpc.example/v1" (Some 5) Provider.initial
           [("wss://rpc.example/ws", None)]); reflexivity.
Defined.

(** C1 (as stated) fails on a streaming URL: two calls with the same URL
    and the same chain id give two distinct provider objects. *)
Lemma ws_provider_not_reused :
  exists h1 h2 s1 s2,
    Provider.getProviderFromRpcUrl (fun _ => false)
      "wss://rpc.example/ws" (Some 5) Provider.initial = (s1, inr h1) /\
    Provider.getProviderFromRpcUrl (fun _ => false)
      "wss://rpc.example/ws" (Some 5) s1 = (s2, inr h2) /\
    ~ Provider.same_object h1 h2.
Proof.
  do 4 eexists. split; [reflexivity|]. split; [reflexivity|].
  unfold Provider.same_object. simpl. lia.
Qed.

(** ** Rules for reading a run *)

Section Rules.

Import Tx.

Context {W : Type}.

Implicit Types st : State W.

Lemma wp_run {A} (m : M W A) Q E st :
  wp m Q E st ->
  exists st' r, m st = (st', r) /\
    match r with inr a => Q a st' | inl e => E e st' end.
Proof. unfold wp. destruct (m st) as [st' [e|a]]; eauto. Qed.



Lemma wp_weaken {A} (m : M W A) (Q Q' : A -> State W -> Prop)
    (E E' : thrown -> State W -> Prop) st :
  (forall a s, Q a s -> Q' a s) -> (forall e s, E e s -> E' e s) ->
  wp m Q E st -> wp m Q' E' st.
Proof. unfold wp. destruct (m st) as [st' [e|a]]; eauto. Qed.

Lemma wp_ret {A} (a : A) Q E st : Q a st -> wp (ret a) Q E st.
Proof. done. Qed.

Lemma wp_throw {A} e (Q : A -> State W -> Prop) E st :
  E e st -> wp (throw e) Q E st.
Proof. done. Qed.

Lemma wp_lift {A} (r : thrown + A) Q E st :
  match r with inr a => Q a st | inl e => E e st end -> wp (lift r) Q E st.
Proof. unfold wp, lift. by destruct r. Qed.

Lemma wp_bind {A B} (m : M W A) (k : A -> M W B) Q E st :
  wp m (fun a st' => wp (k a) Q E st') E st -> wp (bind m k) Q E st.
Proof. unfold wp, bind. by destruct (m st) as [st' [e|a]]. Qed.

Lemma wp_try_catch {A} (m : M W A) h Q E st :
  wp m Q (fun e st' => wp (h e) Q E st') st -> wp (try_catch m h) Q E st.
Proof. unfold wp, try_catch. by destruct (m st) as [st' [e|a]]. Qed.

Lemma wp_this Q E st : Q (self st) st -> wp this Q E st.
Proof. done. Qed.

Lemma wp_get_heap Q E st : Q (heap st) st -> wp get_heap Q E st.
Proof. done. Qed.

Lemma wp_set_this t Q E st :
  Q tt {| self := t; heap := heap st; world := world st; trace := trace st |} ->
  wp (set_this t) Q E st.
Proof. done. Qed.

Lemma wp_call {A} ev (f : W -> W * (thrown + A)) Q E st :
  (forall w r, f (world st) = (w, r) ->
     match r with
     | inr a => Q a (after_call st ev w)
     | inl e => E e (after_call st ev w)
     end) ->
  wp (call ev f) Q E st.
Proof.
  intros H. unfold wp, call. destruct (f (world st)) as [w r] eqn:Hf.
  specialize (H w r eq_refl). by destruct r.
Qed.


Lemma wp_call_reject {A} ev (f : W -> W * (thrown + A)) w e
    (Q : A -> State W -> Prop) E st :
  f (world st) = (w, inl e) -> E e (after_call st ev w) ->
  wp (call ev f) Q E st.
Proof. intros Hf HQ. unfold wp, call. by rewrite Hf. Qed.

Lemma wp_read_array l Q E st :
  match heap st !! l with
  | Some xs => Q xs st
  | None => E (JsError "TypeError: not iterable") st
  end ->
  wp (read_array l) Q E st.
Proof. unfold wp, read_array. by destruct (heap st !! l). Qed.

Lemma wp_alloc_array xs Q E st :
  Q (fresh (dom (heap st)))
    {| self := self st; heap := <[fresh (dom (heap st)) := xs]> (heap st);
       world := world st; trace := trace st |} ->
  wp (alloc_array xs) Q E st.
Proof. done. Qed.

Lemma wp_write_index l i v Q E st :
  Q tt {| self := self st;
          heap := alter (js_set i v) l (heap st);
          world := world st; trace := trace st |} ->
  wp (write_index l i v) Q E st.
Proof. done. Qed.

Lemma wp_issue ev Q E st :
  Q tt {| self := self st; heap := heap st; world := world st;
          trace := trace st ++ [ev] |} ->
  wp (issue ev) Q E st.
Proof. done. Qed.

Lemma wp_on {A} (t : Transaction) (m : M W A) Q E st :
  wp m
     (fun a st' => Q a {| self := self st; heap := heap st';
                          world := world st'; trace := trace st' |})
     (fun e st' => E e {| self := self st; heap := heap st';
                          world := world st'; trace := trace st' |})
     {| self := t; heap := heap st; world := world st; trace := trace st |} ->
  wp (on t m) Q E st.
Proof.
  unfold wp, on.
  by destruct (m _) as [st' [e|a]].
Qed.

(** The heap of a new allocation extends the old one. *)
Lemma heap_alloc_subseteq (h0 h : gmap loc (list jsval)) xs :
  h0 ⊆ h -> h0 ⊆ <[fresh (dom h) := xs]> h.
Proof.
  intros Hs. etrans; [exact Hs|].
  apply insert_subseteq, not_elem_of_dom, is_fresh.
Qed.

Lemma heap_alter_subseteq (h0 h : gmap loc (list jsval)) f l :
  h0 ⊆ h -> h0 !! l = None -> h0 ⊆ alter f l h.
Proof.
  intros Hs Hl. apply map_subseteq_spec. intros i x Hi.
  rewrite lookup_alter_ne; [|congruence].
  by eapply lookup_weaken.
Qed.

Lemma fresh_not_in_sub (h0 h : gmap loc (list jsval)) :
  h0 ⊆ h -> h0 !! fresh (dom h) = None.
Proof.
  intros Hs. apply not_elem_of_dom. intros Hin.
  apply (is_fresh (dom h)). by apply (subseteq_dom _ _ Hs).
Qed.

End Rules.

(** ** Invariants of a run, construct by construct *)

Section Invariants.

Import Tx.

Context {W : Type} (I : State W -> Prop).

Lemma preserves_weaken {A} (m : M W A) (R R' : A -> Prop) :
  (forall a, R a -> R' a) -> preserves I m R -> preserves I m R'.
Proof.
  intros HR Hm st Hst. eapply wp_weaken; [| |exact (Hm st Hst)]; [|done].
  intros a s [Hs Ha]. auto.
Qed.

Lemma preserves_bind {A B} (m : M W A) (k : A -> M W B) R R' :
  preserves I m R -> (forall a, R a -> preserves I (k a) R') ->
  preserves I (bind m k) R'.
Proof.
  intros Hm Hk st Hst. apply wp_bind.
  eapply wp_weaken; [| |exact (Hm st Hst)]; [|done].
  intros a s [Hs Ha]. by apply Hk.
Qed.

Lemma preserves_try_catch {A} (m : M W A) h R :
  preserves I m R -> (forall e, preserves I (h e) R) ->
  preserves I (try_catch m h) R.
Proof.
  intros Hm Hh st Hst. apply wp_try_catch.
  eapply wp_weaken; [| |exact (Hm st Hst)]; [done|].
  intros e s Hs. by apply Hh.
Qed.

Lemma preserves_ret {A} (a : A) (R : A -> Prop) :
  R a -> preserves I (ret a) R.
Proof. by intros Ha st Hst. Qed.

Lemma preserves_throw {A} e (R : A -> Prop) : preserves I (throw e) R.
Proof. by intros st Hst. Qed.

Lemma preserves_lift {A} (r : thrown + A) (R : A -> Prop) :
  (forall a, r = inr a -> R a) -> preserves I (lift r) R.
Proof. intros Hr st Hst. apply wp_lift. destruct r; auto. Qed.

Lemma preserves_lift_eq {A} (r : thrown + A) :
  preserves I (lift r) (fun a => r = inr a).
Proof. by apply preserves_lift. Qed.

Lemma preserves_this (R : Transaction -> Prop) :
  (forall st, I st -> R (self st)) -> preserves I this R.
Proof. intros HR st Hst. apply wp_this. auto. Qed.

Lemma preserves_get_heap : preserves I get_heap (fun _ => True).
Proof. by intros st Hst. Qed.

Lemma preserves_read_array l : preserves I (read_array l) (fun _ => True).
Proof. intros st Hst. apply wp_read_array. by destruct (heap st !! l). Qed.

Lemma preserves_call {A} ev (f : W -> W * (thrown + A)) :
  (forall st w, I st -> I (after_call st ev w)) ->
  preserves I (call ev f) (fun _ => True).
Proof.
  intros Hev st Hst. apply wp_call. intros w [e|a] _; auto.
Qed.

Lemma preserves_alloc_array xs (R : loc -> Prop) :
  (forall st, I st ->
     I {| self := self st; heap := <[fresh (dom (heap st)) := xs]> (heap st);
          world := world st; trace := trace st |}
     /\ R (fresh (dom (heap st)))) ->
  preserves I (alloc_array xs) R.
Proof. intros H st Hst. apply wp_alloc_array. auto. Qed.

Lemma preserves_write_index l i v :
  (forall st, I st ->
     I {| self := self st;
          heap := alter (js_set i v) l (heap st);
          world := world st; trace := trace st |}) ->
  preserves I (write_index l i v) (fun _ => True).
Proof. intros H st Hst. apply wp_write_index. auto. Qed.

Lemma preserves_issue ev :
  (forall st, I st ->
     I {| self := self st; heap := heap st; world := world st;
          trace := trace st ++ [ev] |}) ->
  preserves I (issue ev) (fun _ => True).
Proof. intros H st Hst. apply wp_issue. auto. Qed.

End Invariants.

(** ** The fee policy *)

Section FeeFacts.

Import Tx.

Context {W : Type} (env : Env W).

Implicit Types st : State W.

(** The branches of [getPreferredPriorityFee] are a clamp. *)
Lemma getPreferredPriorityFee_clamp p :
  getPreferredPriorityFee p =
    Z.max parseUnits_2_5_gwei (Z.min parseUnits_300_gwei (p + p ÷ 100 * 10)).
Proof.
  unfold getPreferredPriorityFee, parseUnits_2_5_gwei, parseUnits_300_gwei, gwei.
  cbv zeta. repeat case_bool_decide; lia.
Qed.

Lemma getPreferredPriorityFee_bounds p :
  parseUnits_2_5_gwei <= getPreferredPriorityFee p <= parseUnits_300_gwei.
Proof.
  rewrite getPreferredPriorityFee_clamp.
  unfold parseUnits_2_5_gwei, parseUnits_300_gwei, gwei. lia.
Qed.

(** The buffer is ten percent of the whole hundreds of wei in [p]. *)
Lemma buffer_near_ten_percent p :
  0 <= p ->
  11 * p - 100 < 10 * (p + p ÷ 100 * 10) <= 11 * p.
Proof.
  intros Hp. rewrite Z.quot_div_nonneg by lia.
  pose proof (Z.div_mod p 100 ltac:(lia)).
  pose proof (Z.mod_pos_bound p 100 ltac:(lia)). lia.
Qed.

Lemma buffer_exact_on_hundreds k :
  10 * (100 * k + (100 * k) ÷ 100 * 10) = 11 * (100 * k).
Proof.
  replace (100 * k) with (k * 100) by lia.
  rewrite Z.quot_mul by lia. lia.
Qed.

(** What [getGasOverrides] does on a network with fee-market data. *)
Lemma getGasOverrides_fee_market st w1 w2 w3 w4 feeData maxFee p chainId block d :
  isBrowser env = false ->
  provider_getFeeData env (provider (self st)) (world st) = (w1, inr feeData) ->
  fd_maxFeePerGas feeData = Some maxFee ->
  fd_maxPriorityFeePerGas feeData = Some p ->
  provider_getNetwork env (provider (self st)) w1 = (w2, inr chainId) ->
  provider_getBlock_latest env (provider (self st)) w2 = (w3, inr block) ->
  (if bool_decide (chainId = ChainId_Mumbai env)
      || bool_decide (chainId = ChainId_Polygon env)
   then getPolygonGasPriorityFee env chainId w3 = (w4, inr d)
   else w4 = w3 /\ d = p) ->
  exists st',
    getGasOverrides env st =
      (st', inr (<[ "maxFeePerGas" :=
                      OBigNumber
                        (match block with
                         | Some b =>
                             match baseFeePerGas b with
                             | Some fee => fee
                             | None => parseUnits_1_gwei
                             end
                         | None => parseUnits_1_gwei
                         end * 2 + getPreferredPriorityFee d) ]>
                   {[ "maxPriorityFeePerGas" :=
                        OBigNumber (getPreferredPriorityFee d) ]})) /\
    self st' = self st /\ heap st' = heap st /\ world st' = w4.
Proof.
  intros Hb Hfee Hmax Hpri Hnet Hblock Hsrc.
  unfold getGasOverrides. rewrite Hb.
  unfold bind at 1, this at 1.
  unfold bind at 1, call at 1. rewrite Hfee. cbn [self heap world trace].
  rewrite Hmax, Hpri.
  unfold bind at 1, call at 1. cbn [self heap world trace]. rewrite Hnet.
  unfold bind at 1, call at 1. cbn [self heap world trace]. rewrite Hblock.
  unfold bind at 1.
  destruct (bool_decide (chainId = ChainId_Mumbai env)
            || bool_decide (chainId = ChainId_Polygon env)).
  - unfold call. cbn [self heap world trace]. rewrite Hsrc.
    eexists. split; [reflexivity|done].
  - destruct Hsrc as [-> ->].
    eexists. split; [reflexivity|done].
Qed.

(** C2 (as amended): outside the gas-station subset the priority fee
    attached is the reported fee [p] plus ten times the whole hundreds of
    wei in [p], clamped to [2.5 gwei, 300 gwei].  The buffer is within
    10 wei below ten percent of [p]; 1 gwei gives exactly 2.5 gwei and
    1000 gwei gives exactly 300 gwei. *)
Theorem priority_fee_buffered_and_clamped
    st w1 w2 w3 feeData maxFee p chainId block :
  isBrowser env = false ->
  provider_getFeeData env (provider (self st)) (world st) = (w1, inr feeData) ->
  fd_maxFeePerGas feeData = Some maxFee ->
  fd_maxPriorityFeePerGas feeData = Some p ->
  provider_getNetwork env (provider (self st)) w1 = (w2, inr chainId) ->
  chainId <> ChainId_Mumbai env -> chainId <> ChainId_Polygon env ->
  provider_getBlock_latest env (provider (self st)) w2 = (w3, inr block) ->
  exists st' o fee,
    getGasOverrides env st = (st', inr o) /\
    o !! "maxPriorityFeePerGas" = Some (OBigNumber fee) /\
    fee = Z.max parseUnits_2_5_gwei
            (Z.min parseUnits_300_gwei (p + p ÷ 100 * 10)) /\
    parseUnits_2_5_gwei <= fee <= parseUnits_300_gwei /\
    (0 <= p -> 11 * p - 100 < 10 * (p + p ÷ 100 * 10) <= 11 * p) /\
    (p = 1 * gwei -> fee = parseUnits_2_5_gwei) /\
    (p = 1000 * gwei -> fee = parseUnits_300_gwei).
Proof.
  intros Hb Hfee Hmax Hpri Hnet Hm Hp Hblock.
  destruct (getGasOverrides_fee_market st w1 w2 w3 w3 feeData maxFee p
              chainId block p) as (st' & Hrun & _); try done.
  { by rewrite !bool_decide_eq_false_2. }
  eexists st', _, (getPreferredPriorityFee p). split; [exact Hrun|].
  split; [by rewrite lookup_insert_ne, lookup_singleton_eq|].
  split; [apply getPreferredPriorityFee_clamp|].
  split; [apply getPreferredPriorityFee_bounds|].
  split; [apply buffer_near_ten_percent|].
  split; intros ->; reflexivity.
Qed.

(** C3 (as amended): on a reported price [p >= 0] the legacy path gives
    the smaller of [p + 10 * (p / 100)] and 300 gwei: never more than
    300 gwei, exactly 300 gwei when the buffered price is above it,
    otherwise at least [p] and within 10 wei below [p * 1.10]; a price
    below 2.5 gwei is returned as it is. *)
Theorem gas_price_buffered_and_capped st w p :
  provider_getGasPrice env (provider (self st)) (world st) = (w, inr p) ->
  0 <= p ->
  exists r,
    getGasPrice env st
      = (after_call st (EGetGasPrice (provider (self st))) w, inr r) /\
    r = Z.min (p + p ÷ 100 * 10) parseUnits_300_gwei /\
    r <= parseUnits_300_gwei /\
    (p + p ÷ 100 * 10 > parseUnits_300_gwei -> r = parseUnits_300_gwei) /\
    (p + p ÷ 100 * 10 <= parseUnits_300_gwei ->
       p <= r /\ 11 * p - 100 < 10 * r <= 11 * p) /\
    (p + p ÷ 100 * 10 < parseUnits_2_5_gwei -> r = p + p ÷ 100 * 10).
Proof.
  intros Hq Hp.
  pose proof (buffer_near_ten_percent p Hp) as Hb.
  unfold getGasPrice, bind, this, call. rewrite Hq. cbv zeta.
  unfold parseUnits_300_gwei, parseUnits_2_5_gwei, gwei in *.
  case_bool_decide; eexists; (split; [reflexivity|]); lia.
Qed.

(** C4 (as amended): with fee-market data and outside a browser,
    [maxFeePerGas] is twice the base fee of the latest block, or twice
    1 gwei when the block has none, plus the priority fee, which is
    itself attached as [maxPriorityFeePerGas].  That priority fee is the
    fee [d] of the source (the gas station on the two Polygon networks,
    the reported fee elsewhere) plus ten times the whole hundreds of wei
    in [d], clamped to [2.5 gwei, 300 gwei]: a buffer within 10 wei below
    ten percent of [d]. *)
Theorem max_fee_is_twice_base_plus_priority
    st w1 w2 w3 w4 feeData maxFee p chainId block d :
  isBrowser env = false ->
  provider_getFeeData env (provider (self st)) (world st) = (w1, inr feeData) ->
  fd_maxFeePerGas feeData = Some maxFee ->
  fd_maxPriorityFeePerGas feeData = Some p ->
  provider_getNetwork env (provider (self st)) w1 = (w2, inr chainId) ->
  provider_getBlock_latest env (provider (self st)) w2 = (w3, inr block) ->
  (if bool_decide (chainId = ChainId_Mumbai env)
      || bool_decide (chainId = ChainId_Polygon env)
   then getPolygonGasPriorityFee env chainId w3 = (w4, inr d)
   else w4 = w3 /\ d = p) ->
  exists st' o priority,
    getGasOverrides env st = (st', inr o) /\
    o !! "maxPriorityFeePerGas" = Some (OBigNumber priority) /\
    priority = Z.max parseUnits_2_5_gwei
                 (Z.min parseUnits_300_gwei (d + d ÷ 100 * 10)) /\
    parseUnits_2_5_gwei <= priority <= parseUnits_300_gwei /\
    (0 <= d -> 11 * d - 100 < 10 * (d + d ÷ 100 * 10) <= 11 * d) /\
    o !! "maxFeePerGas" =
      Some (OBigNumber
              (2 * match block with
                   | Some {| baseFeePerGas := Some fee |} => fee
                   | _ => parseUnits_1_gwei
                   end + priority)).
Proof.
  intros Hb Hfee Hmax Hpri Hnet Hblock Hsrc.
  destruct (getGasOverrides_fee_market st w1 w2 w3 w4 feeData maxFee p
              chainId block d) as (st' & Hrun & _); try done.
  eexists st', _, (getPreferredPriorityFee d). split; [exact Hrun|].
  split; [by rewrite lookup_insert_ne, lookup_singleton_eq|].
  split; [apply getPreferredPriorityFee_clamp|].
  split; [apply getPreferredPriorityFee_bounds|].
  split; [apply buffer_near_ten_percent|].
  rewrite lookup_insert_eq. do 2 f_equal.
  destruct block as [[[?|]]|]; simpl; lia.
Qed.

End FeeFacts.

Lemma priority_fee_buffered_and_clamped_witness :
  exists st' o,
    Tx.getGasOverrides (Scenario.environment (Scenario.answers (1 * Tx.gwei) 0 0))
      (Scenario.start (Scenario.builder "transfer" ∅ None) Scenario.transfer_heap)
    = (st', inr o) /\
    o !! "maxPriorityFeePerGas" = Some (Tx.OBigNumber Tx.parseUnits_2_5_gwei).
Proof.
  destruct (priority_fee_buffered_and_clamped
              (Scenario.environment (Scenario.answers (1 * Tx.gwei) 0 0))
              (Scenario.start (Scenario.builder "transfer" ∅ None)
                 Scenario.transfer_heap)
              1%nat 2%nat 3%nat
              {| Tx.fd_maxFeePerGas := Some (100 * Tx.gwei);
                 Tx.fd_maxPriorityFeePerGas := Some (1 * Tx.gwei) |}
              (100 * Tx.gwei) (1 * Tx.gwei) 1
              (Some {| Tx.baseFeePerGas := Some (20 * Tx.gwei) |}))
    as (st' & o & fee & Hrun & Hlook & _ & _ & _ & Hfloor & _);
    try reflexivity; try (vm_compute; discriminate).
  exists st', o. split; [exact Hrun|].
  rewrite Hlook. f_equal. f_equal. apply Hfloor. reflexivity.
Defined.

(** C2 (as stated) fails on a reported fee of 3.00000001 gwei: ten percent
    more is exactly 3300000011 wei, inside the clamp interval, and the fee
    attached is 3300000010 wei. *)
Lemma priority_fee_short_of_ten_percent :
  exists st' o,
    Tx.getGasOverrides (Scenario.environment (Scenario.answers 3000000010 0 0))
      (Scenario.start (Scenario.builder "transfer" ∅ None) Scenario.transfer_heap)
    = (st', inr o) /\
    o !! "maxPriorityFeePerGas" = Some (Tx.OBigNumber 3300000010) /\
    10 * 3300000011 = 11 * 3000000010 /\
    Tx.parseUnits_2_5_gwei <= 3300000011 <= Tx.parseUnits_300_gwei /\
    3300000010 <> 3300000011.
Proof.
  exists (fst (Tx.getGasOverrides
                 (Scenario.environment (Scenario.answers 3000000010 0 0))
                 (Scenario.start (Scenario.builder "transfer" ∅ None)
                    Scenario.transfer_heap))),
         (<[ "maxFeePerGas" := Tx.OBigNumber 43300000010 ]>
            {[ "maxPriorityFeePerGas" := Tx.OBigNumber 3300000010 ]}).
  split; [vm_compute; reflexivity|].
  split; [vm_compute; reflexivity|].
  unfold Tx.parseUnits_2_5_gwei, Tx.parseUnits_300_gwei, Tx.gwei. lia.
Qed.

Lemma gas_price_buffered_and_capped_witness :
  exists st',
    Tx.getGasPrice (Scenario.environment (Scenario.answers 0 (400 * Tx.gwei) 0))
      (Scenario.start (Scenario.builder "transfer" ∅ None) Scenario.transfer_heap)
    = (st', inr Tx.parseUnits_300_gwei).
Proof.
  destruct (gas_price_buffered_and_capped
              (Scenario.environment (Scenario.answers 0 (400 * Tx.gwei) 0))
              (Scenario.start (Scenario.builder "transfer" ∅ None)
                 Scenario.transfer_heap)
              1%nat (400 * Tx.gwei))
    as (r & Hrun & _ & _ & Hcap & _);
    [reflexivity | vm_compute; discriminate |].
  eexists. rewrite Hrun. f_equal. f_equal. apply Hcap. reflexivity.
Defined.

(** C3 (as stated) fails on a reported price of 1.00000005 gwei: the
    price returned is 1100000050 wei, under the cap and below
    [p * 1.10 = 1100000055]. *)
Lemma gas_price_short_of_ten_percent :
  exists st',
    Tx.getGasPrice (Scenario.environment (Scenario.answers 0 1000000050 0))
      (Scenario.start (Scenario.builder "transfer" ∅ None) Scenario.transfer_heap)
    = (st', inr 1100000050) /\
    10 * 1100000050 < 11 * 1000000050 /\
    1100000050 < Tx.parseUnits_300_gwei.
Proof.
  exists (fst (Tx.getGasPrice
                 (Scenario.environment (Scenario.answers 0 1000000050 0))
                 (Scenario.start (Scenario.builder "transfer" ∅ None)
                    Scenario.transfer_heap))).
  split; [vm_compute; reflexivity|].
  unfold Tx.parseUnits_300_gwei, Tx.gwei. lia.
Qed.

Lemma max_fee_is_twice_base_plus_priority_witness :
  exists st' o,
    Tx.getGasOverrides (Scenario.environment (Scenario.answers (3 * Tx.gwei) 0 0))
      (Scenario.start (Scenario.builder "transfer" ∅ None) Scenario.transfer_heap)
    = (st', inr o) /\
    o !! "maxFeePerGas" = Some (Tx.OBigNumber 43300000000) /\
    o !! "maxPriorityFeePerGas" = Some (Tx.OBigNumber 3300000000).
Proof.
  destruct (max_fee_is_twice_base_plus_priority
              (Scenario.environment (Scenario.answers (3 * Tx.gwei) 0 0))
              (Scenario.start (Scenario.builder "transfer" ∅ None)
                 Scenario.transfer_heap)
              1%nat 2%nat 3%nat 3%nat
              {| Tx.fd_maxFeePerGas := Some (100 * Tx.gwei);
                 Tx.fd_maxPriorityFeePerGas := Some (3 * Tx.gwei) |}
              (100 * Tx.gwei) (3 * Tx.gwei) 1
              (Some {| Tx.baseFeePerGas := Some (20 * Tx.gwei) |})
              (3 * Tx.gwei))
    as (st' & o & priority & Hrun & Hpri & -> & _ & _ & Hmax);
    try reflexivity; [vm_compute; done|].
  exists st', o. split; [exact Hrun|]. split; [exact Hmax | exact Hpri].
Defined.

(** C4 (as stated, with the priority fee buffered by ten percent) fails
    on a reported fee of 3.00000001 gwei over a base fee of 20 gwei: twice
    the base fee plus ten percent more than the reported fee, which lies
    inside the clamp interval, is 43300000011 wei, and the maximum fee
    attached is 43300000010 wei. *)
Lemma max_fee_short_of_ten_percent :
  exists st' o,
    Tx.getGasOverrides (Scenario.environment (Scenario.answers 3000000010 0 0))
      (Scenario.start (Scenario.builder "transfer" ∅ None) Scenario.transfer_heap)
    = (st', inr o) /\
    o !! "maxFeePerGas" = Some (Tx.OBigNumber 43300000010) /\
    10 * 3300000011 = 11 * 3000000010 /\
    Tx.parseUnits_2_5_gwei <= 3300000011 <= Tx.parseUnits_300_gwei /\
    2 * (20 * Tx.gwei) + 3300000011 = 43300000011 /\
    43300000010 <> 43300000011.
Proof.
  exists (fst (Tx.getGasOverrides
                 (Scenario.environment (Scenario.answers 3000000010 0 0))
                 (Scenario.start (Scenario.builder "transfer" ∅ None)
                    Scenario.transfer_heap))),
         (<[ "maxFeePerGas" := Tx.OBigNumber 43300000010 ]>
            {[ "maxPriorityFeePerGas" := Tx.OBigNumber 3300000010 ]}).
  split; [vm_compute; reflexivity|].
  split; [vm_compute; reflexivity|].
  unfold Tx.parseUnits_2_5_gwei, Tx.parseUnits_300_gwei, Tx.gwei. lia.
Qed.

(** ** The gasless path *)

(** One construct of a computation under an invariant.  [this_tac] and
    [alloc_tac] settle what the invariant says of [this] and of a new
    array. *)
Ltac inv_step this_tac alloc_tac :=
  lazymatch goal with
  | |- Tx.preserves _ (Tx.bind Tx.this _) _ =>
      eapply preserves_bind; [this_tac | intros ? ?]
  | |- Tx.preserves _ (Tx.bind (Tx.lift _) _) _ =>
      eapply preserves_bind; [apply preserves_lift_eq | intros ? ?]
  | |- Tx.preserves _ (Tx.bind (Tx.alloc_array _) _) _ =>
      eapply preserves_bind; [alloc_tac | intros ? ?]
  | |- Tx.preserves _ (Tx.bind _ _) _ =>
      eapply (preserves_bind _ _ _ (fun _ => True)); [| intros ? _]
  | |- Tx.preserves _ (Tx.try_catch _ _) _ =>
      apply preserves_try_catch; [| intros ?]
  | |- Tx.preserves _ (Tx.ret _) _ => apply preserves_ret
  | |- Tx.preserves _ (Tx.throw _) _ => apply preserves_throw
  | |- Tx.preserves _ Tx.get_heap _ => apply preserves_get_heap
  | |- Tx.preserves _ (Tx.read_array _) _ => apply preserves_read_array
  | |- Tx.preserves _ (Tx.lift _) _ =>
      eapply preserves_weaken; [| apply preserves_lift_eq]; intros ? ?
  | |- Tx.preserves _ (Tx.call _ _) _ => apply preserves_call
  | |- Tx.preserves _ (Tx.write_index _ _ _) _ => apply preserves_write_index
  | |- Tx.preserves _ (Tx.issue _) _ => apply preserves_issue
  | |- Tx.preserves _ (match ?x with _ => _ end) _ => destruct x eqn:?
  | |- Tx.preserves _ (Tx.getSignerAddress _) _ => unfold Tx.getSignerAddress
  | |- Tx.preserves _ (Tx.from_or_signer _ _) _ => unfold Tx.from_or_signer
  | |- Tx.preserves _ (Tx.encode _) _ => unfold Tx.encode
  end.

Ltac inv_steps this_tac alloc_tac :=
  repeat (cbn beta iota zeta; inv_step this_tac alloc_tac).

(** One construct of a run from a known state. *)
Ltac wp_step :=
  lazymatch goal with
  | |- Tx.wp (Tx.bind _ _) _ _ _ => apply wp_bind
  | |- Tx.wp (Tx.try_catch _ _) _ _ _ => apply wp_try_catch
  | |- Tx.wp Tx.this _ _ _ => apply wp_this
  | |- Tx.wp Tx.get_heap _ _ _ => apply wp_get_heap
  | |- Tx.wp (Tx.alloc_array _) _ _ _ => apply wp_alloc_array
  | |- Tx.wp (Tx.write_index _ _ _) _ _ _ => apply wp_write_index
  | |- Tx.wp (Tx.issue _) _ _ _ => apply wp_issue
  | |- Tx.wp (Tx.ret _) _ _ _ => apply wp_ret
  | |- Tx.wp (Tx.throw _) _ _ _ => apply wp_throw
  | |- Tx.wp (Tx.read_array _) _ _ _ =>
      apply wp_read_array;
      lazymatch goal with |- match ?x with _ => _ end => destruct x eqn:? end
  | |- Tx.wp (Tx.lift _) _ _ _ =>
      apply wp_lift;
      lazymatch goal with |- match ?x with _ => _ end => destruct x eqn:? end
  | |- Tx.wp (Tx.call _ _) _ _ _ => apply wp_call; intros ? [?|?] ?
  | |- Tx.wp (match ?x with _ => _ end) _ _ _ => destruct x eqn:?
  | |- Tx.wp (Tx.getSignerAddress _) _ _ _ => unfold Tx.getSignerAddress
  | |- Tx.wp (Tx.from_or_signer _ _) _ _ _ => unfold Tx.from_or_signer
  | |- Tx.wp (Tx.encode _) _ _ _ => unfold Tx.encode
  | |- Tx.wp (Tx.throw_diagnosed _ _) _ _ _ => unfold Tx.throw_diagnosed
  end.

Ltac wp_steps :=
  repeat (cbn beta iota zeta;
          cbn [Tx.self Tx.heap Tx.world Tx.trace Tx.after_call];
          wp_step).

Section GaslessFacts.

Import Tx.

Context {W : Type} (env : Env W).

Implicit Types st : State W.

(** *** The builder and the heap it was given are left as they were *)

Section Frame.

Variables (t0 : Transaction) (h0 : gmap loc (list jsval)).

Local Abbreviation framed := (@frame_inv W t0 h0).

Lemma frame_this : preserves framed this (fun t => t = t0).
Proof. apply preserves_this. by intros st [? ?]. Qed.

Lemma frame_call st ev w :
  frame_inv t0 h0 st -> frame_inv t0 h0 (after_call st ev w).
Proof. done. Qed.

(** A new array is outside the heap that the method was given. *)
Lemma frame_alloc xs :
  preserves framed (alloc_array xs) (fun l => h0 !! l = None).
Proof.
  apply preserves_alloc_array. intros st [Hs Hh].
  split; [split; [done|]|].
  - by apply heap_alloc_subseteq.
  - by apply fresh_not_in_sub.
Qed.

(** Writing into an array that is outside [h0] keeps [h0]. *)
Lemma frame_write l i v :
  h0 !! l = None ->
  preserves framed (write_index l i v) (fun _ => True).
Proof.
  intros Hl. apply preserves_write_index. intros st [Hs Hh].
  split; [done|]. by apply heap_alter_subseteq.
Qed.

Lemma sendGasless_args_frame t :
  preserves framed (sendGasless_args env t) (fun _ => True).
Proof.
  unfold sendGasless_args.
  eapply (preserves_bind _ _ _ (fun _ => True));
    [apply preserves_read_array|]. intros elems _.
  eapply preserves_bind; [apply frame_alloc|]. intros args Hargs.
  eapply (preserves_bind _ _ _ (fun _ => True));
    [|intros; by apply preserves_ret].
  destruct (bool_decide _); [|by apply preserves_ret].
  destruct (elems !! 0%nat) as [[| | | |inner]|]; try by apply preserves_ret.
  eapply (preserves_bind _ _ _ (fun _ => True));
    [apply preserves_read_array|]. intros calls _.
  destruct (bool_decide _); [|by apply preserves_ret].
  inv_steps ltac:(apply frame_this) ltac:(apply frame_alloc).
  - intros. by apply frame_call.
  - by apply frame_write.
Qed.

Lemma sendGasless_gas_frame t a h :
  preserves framed (sendGasless_gas env t a h) (fun _ => True).
Proof.
  unfold sendGasless_gas.
  inv_steps ltac:(apply frame_this) ltac:(apply frame_alloc);
    try done; try (intros; by apply frame_call).
Qed.

Lemma sendGasless_frame :
  preserves framed (sendGasless env) (fun _ => True).
Proof.
  unfold sendGasless.
  eapply preserves_bind; [apply frame_this|].
  intros t ->. cbn beta.
  destruct (gaslessOptions t0) as [options|]; [|apply preserves_throw].
  destruct (negb _); [apply preserves_throw|].
  eapply (preserves_bind _ _ _ (fun _ => True));
    [apply sendGasless_args_frame|]. intros args _.
  eapply (preserves_bind _ _ _ (fun _ => True));
    [apply preserves_call; intros; by apply frame_call|]. intros chainId _.
  eapply (preserves_bind _ _ _ (fun _ => True)).
  { inv_steps ltac:(apply frame_this) ltac:(apply frame_alloc); done. }
  intros from _. cbn zeta.
  eapply preserves_bind; [apply preserves_lift_eq|]. intros amount _.
  destruct (bool_decide _); [apply preserves_throw|].
  do 3 (inv_step idtac idtac).
  eapply (preserves_bind _ _ _ (fun _ => True));
    [apply sendGasless_gas_frame|]. intros gas _.
  inv_steps ltac:(apply frame_this) ltac:(apply frame_alloc);
    try done; try (intros; by apply frame_call).
Qed.

End Frame.


(** C10: whatever the outcome of the gasless send, the builder has the
    same fields as before (method, argument array, overrides and the
    rest) and every array of the heap it started from, the builder's
    argument array and the arrays nested in it among them, has the same
    elements: the packing works on new arrays only. *)
Theorem sendGasless_leaves_builder st :
  self (fst (sendGasless env st)) = self st /\
  heap st ⊆ heap (fst (sendGasless env st)).
Proof.
  pose proof (sendGasless_frame (self st) (heap st) st
                (conj eq_refl (reflexivity _))) as H.
  unfold wp, frame_inv in H.
  destruct (sendGasless env st) as [st' [e|a]]; simpl;
    [exact H | exact (proj1 H)].
Qed.

(** *** A positive value is refused before the relay is reached *)

Section Quiet.

Variable st0 : State W.

Local Abbreviation quiet := (@quiet_inv W st0).

Lemma quiet_start : quiet st0.
Proof. split; [done|]. exists []. by rewrite app_nil_r. Qed.

Lemma quiet_this : preserves quiet this (fun t => t = self st0).
Proof. apply preserves_this. by intros st [? ?]. Qed.

Lemma quiet_call ev st w :
  is_relay ev = false -> quiet st -> quiet (after_call st ev w).
Proof.
  intros Hev [Hs (evs & Ht & Hn)]. split; [done|].
  exists (evs ++ [ev]). simpl. rewrite Ht, app_assoc. split; [done|].
  apply Forall_app. split; [done|]. by apply Forall_singleton.
Qed.

Lemma quiet_alloc xs : preserves quiet (alloc_array xs) (fun _ => True).
Proof. apply preserves_alloc_array. by intros st [? ?]. Qed.

Lemma quiet_write l i v : preserves quiet (write_index l i v) (fun _ => True).
Proof. apply preserves_write_index. by intros st [? ?]. Qed.

Lemma sendGasless_args_quiet t :
  preserves quiet (sendGasless_args env t) (fun _ => True).
Proof.
  unfold sendGasless_args.
  inv_steps ltac:(apply quiet_this) ltac:(apply quiet_alloc);
    try done; try apply quiet_write.
  intros. by apply quiet_call.
Qed.

Lemma value_positive_amount o a :
  value_positive o ->
  BigNumber_from (or_else (field o "value") (ONumber 0)) = inr a ->
  a > 0.
Proof.
  unfold value_positive, or_else.
  destruct (field o "value") as [|z|z|b]; simpl; [done|..].
  - intros Hz. rewrite bool_decide_eq_false_2 by lia. simpl.
    destruct (_ || _); naive_solver.
  - naive_solver.
  - naive_solver.
Qed.

Lemma sendGasless_refuses_value :
  value_positive (overrides (self st0)) ->
  preserves quiet (sendGasless env) (fun _ => False).
Proof.
  intros Hpos. unfold sendGasless.
  eapply preserves_bind; [apply quiet_this|].
  intros t ->. cbn beta.
  destruct (gaslessOptions (self st0)) as [options|];
    [|apply preserves_throw].
  destruct (negb _); [apply preserves_throw|].
  eapply (preserves_bind _ _ _ (fun _ => True));
    [apply sendGasless_args_quiet|]. intros args _.
  eapply (preserves_bind _ _ _ (fun _ => True));
    [apply preserves_call; intros; by apply quiet_call|]. intros chainId _.
  eapply (preserves_bind _ _ _ (fun _ => True)).
  { inv_steps ltac:(apply quiet_this) ltac:(apply quiet_alloc); try done.
    intros. by apply quiet_call. }
  intros from _. cbn zeta.
  eapply preserves_bind; [apply preserves_lift_eq|]. intros amount Ha.
  apply (value_positive_amount _ _ Hpos) in Ha.
  rewrite bool_decide_eq_true_2 by done. apply preserves_throw.
Qed.

End Quiet.

(** C7: when the value of the overrides is strictly positive, the
    gasless send ends in an error, and nothing was submitted to the relay
    on the way. *)
Theorem gasless_refuses_native_value st :
  value_positive (overrides (self st)) ->
  exists st' e,
    sendGasless env st = (st', inl e) /\ no_relay_since st st'.
Proof.
  intros Hpos.
  pose proof (sendGasless_refuses_value st Hpos st (quiet_start st)) as H.
  unfold wp in H. destruct (sendGasless env st) as [st' [e|a]].
  - exists st', e. split; [done|]. by destruct H.
  - by destruct H.
Qed.

(** When the steps before the check succeed, the error is the one of
    the check itself. *)
Lemma gasless_value_error st st1 args amount :
  gasless_configured (gaslessOptions (self st)) = true ->
  sendGasless_args env (self st) st = (st1, inr args) ->
  answers (provider_getNetwork env (provider (self st))) ->
  answers (signer_getAddress env (signer (self st))) ->
  BigNumber_from (or_else (field (overrides (self st)) "value") (ONumber 0))
    = inr amount ->
  amount > 0 ->
  exists st',
    sendGasless env st =
      (st', inl (JsError "Cannot send native token value with gasless transaction")).
Proof.
  intros Hconf Hargs Hnet Hsig Hamount Hpos.
  pose proof (sendGasless_args_frame (self st) (heap st) (self st) st
                (conj eq_refl (reflexivity _))) as Hfr.
  unfold wp in Hfr. rewrite Hargs in Hfr. destruct Hfr as [[Hself _] _].
  unfold sendGasless, bind at 1, this at 1.
  destruct (gaslessOptions (self st)) as [options|]; [|done].
  rewrite Hconf. cbn [negb]. unfold bind at 1. rewrite Hargs.
  destruct (Hnet (world st1)) as (w2 & chainId & Hn).
  unfold bind at 1, call at 1. rewrite Hn.
  unfold bind at 1, from_or_signer.
  destruct (truthy (field (overrides (self st)) "from")).
  - unfold ret at 1, bind at 1, lift at 1. rewrite Hamount.
    rewrite bool_decide_eq_true_2 by done. by eexists.
  - unfold bind at 1, getSignerAddress, bind at 1, this at 1.
    cbn [self heap world trace]. rewrite Hself.
    destruct (Hsig w2) as (w3 & a & Hs).
    unfold call at 1. cbn [self heap world trace]. rewrite Hs.
    unfold ret at 1, bind at 1, lift at 1. rewrite Hamount.
    rewrite bool_decide_eq_true_2 by done. by eexists.
Qed.

(** *** What is submitted to the relay *)









(** When estimation is rejected the limit starts from zero. *)
Lemma sendGasless_gas_no_estimate t a h st w err :
  contract_estimateGas env (contract t) (method t) a h None (world st)
    = (w, inl err) ->
  gasLimit_override (overrides t) = inr None ->
  exists st', sendGasless_gas env t a h st = (st', inr 500000).
Proof.
  intros Hest Hlim. unfold sendGasless_gas, gasLimit_override in *.
  destruct (truthy (field (overrides t) "gasLimit"));
    [by destruct (BigNumber_from _)|].
  unfold bind at 1, try_catch.
  destruct (negb _); [by eexists|].
  unfold bind at 1, call. rewrite Hest. by eexists.
Qed.







End GaslessFacts.

(** ** Estimation, execution and batches *)

Section EngineFacts.

Import Tx.

Context {W : Type} (env : Env W).

Implicit Types st : State W.

(** C8, where the code departs from it: when estimation is rejected and
    the simulation that follows goes through, what [estimateGasLimit]
    throws is the promise of a diagnosis, not a [TransactionError]. *)
Theorem estimateGasLimit_throws_promise st w1 w2 elems err v :
  has_function (contract (self st)) (method (self st)) = true ->
  heap st !! args (self st) = Some elems ->
  contract_estimateGas env (contract (self st)) (method (self st)) elems
    (heap st) (Some (overrides (self st))) (world st) = (w1, inl err) ->
  contract_callStatic env (contract (self st)) (method (self st)) elems
    (heap st)
    (if truthy (field (overrides (self st)) "value")
     then Some (field (overrides (self st)) "value") else None) w1
    = (w2, inr v) ->
  exists st',
    estimateGasLimit env st = (st', inl (PromiseOfDiagnosis err)) /\
    is_TransactionError (PromiseOfDiagnosis err) = false.
Proof.
  intros Hfun Hargs Hest Hsim.
  unfold estimateGasLimit, bind at 1, this at 1. rewrite Hfun. cbn [negb].
  unfold try_catch, bind at 1, read_array at 1. rewrite Hargs.
  unfold bind at 1, get_heap at 1, call at 1. rewrite Hest.
  unfold bind at 1, simulate, bind at 1, this at 1.
  cbn [self heap world trace]. rewrite Hfun. cbn [negb].
  unfold try_catch, bind at 1, read_array at 1.
  cbn [self heap world trace]. rewrite Hargs.
  unfold bind at 1, get_heap at 1, call at 1.
  cbn [self heap world trace]. rewrite Hsim.
  by eexists.
Qed.

(** *** No method but the setters changes the builder *)

Section BuilderKept.

Variables (t0 : Transaction) (h0 : gmap loc (list jsval)).

Local Abbreviation framed := (@frame_inv W t0 h0).

Ltac frame_steps :=
  inv_steps ltac:(apply frame_this) ltac:(apply frame_alloc);
  try done; try (intros; by apply frame_call).

Lemma transactionError_frame err :
  preserves framed (transactionError env err) (fun _ => True).
Proof. unfold transactionError. frame_steps. Qed.

Lemma throw_diagnosed_frame {A} err (R : A -> Prop) :
  preserves framed (throw_diagnosed env err) R.
Proof.
  unfold throw_diagnosed. eapply preserves_bind;
    [apply transactionError_frame|]. intros e _. apply preserves_throw.
Qed.

Lemma simulate_frame :
  preserves framed (simulate env) (fun _ => True).
Proof.
  unfold simulate. frame_steps. apply throw_diagnosed_frame.
Qed.

Lemma estimateGasLimit_frame :
  preserves framed (estimateGasLimit env) (fun _ => True).
Proof.
  unfold estimateGasLimit, transactionError_promise. frame_steps.
  apply simulate_frame.
Qed.

Lemma getGasPrice_frame :
  preserves framed (getGasPrice env) (fun _ => True).
Proof. unfold getGasPrice. frame_steps. Qed.

Lemma getGasOverrides_frame :
  preserves framed (getGasOverrides env) (fun _ => True).
Proof.
  unfold getGasOverrides. frame_steps; apply getGasPrice_frame.
Qed.

Lemma send_frame : preserves framed (send env) (fun _ => True).
Proof.
  unfold send. frame_steps;
    first [ apply sendGasless_frame | apply getGasOverrides_frame
          | apply estimateGasLimit_frame | apply throw_diagnosed_frame ].
Qed.

Lemma execute_frame : preserves framed (execute env) (fun _ => True).
Proof.
  unfold execute, wait_for. frame_steps;
    first [ apply send_frame | apply simulate_frame
          | apply throw_diagnosed_frame ].
Qed.

End BuilderKept.

(** [on] puts back a builder that [execute] has not changed. *)
Lemma execute_keeps_builder st :
  self (fst (execute env st)) = self st /\
  heap st ⊆ heap (fst (execute env st)).
Proof.
  pose proof (execute_frame (self st) (heap st) st
                (conj eq_refl (reflexivity _))) as H.
  unfold wp, frame_inv in H.
  destruct (execute env st) as [st' [e|a]]; simpl;
    [exact H | exact (proj1 H)].
Qed.

(** *** Batches *)



End EngineFacts.

(** ** The theorems at work on the concrete environment *)

Section Witnesses.

Import Tx Scenario.

Lemma served_answers {A} (a : A) : Tx.answers (served (inr a)).
Proof. intros w. by eexists _, _. Qed.


End Witnesses.


(** The other two cases of the gas limit: an estimate of 40000 gives
    500000, an estimate of 80000 gives 160000. *)
Lemma relay_limit_examples :
  (exists st',
     Tx.sendGasless_gas (Scenario.environment (Scenario.answers 0 0 40000))
       (Scenario.builder "transfer" ∅ (Some Scenario.relay))
       [Tx.VHex [Byte.x01]] Scenario.transfer_heap
       (Scenario.start (Scenario.builder "transfer" ∅ (Some Scenario.relay))
          Scenario.transfer_heap) = (st', inr 500000)) /\
  (exists st',
     Tx.sendGasless_gas (Scenario.environment (Scenario.answers 0 0 80000))
       (Scenario.builder "transfer" ∅ (Some Scenario.relay))
       [Tx.VHex [Byte.x01]] Scenario.transfer_heap
       (Scenario.start (Scenario.builder "transfer" ∅ (Some Scenario.relay))
          Scenario.transfer_heap) = (st', inr 160000)).
Proof. split; eexists; vm_compute; reflexivity. Qed.


Lemma gasless_refuses_native_value_witness :
  exists st' e,
    Tx.sendGasless (Scenario.environment (Scenario.answers 0 0 80000))
      (Scenario.start
         (Scenario.builder "transfer" {[ "value" := Tx.ONumber 7 ]}
            (Some Scenario.relay))
         Scenario.transfer_heap) = (st', inl e) /\
    Tx.no_relay_since
      (Scenario.start
         (Scenario.builder "transfer" {[ "value" := Tx.ONumber 7 ]}
            (Some Scenario.relay))
         Scenario.transfer_heap) st'.
Proof.
  apply (gasless_refuses_native_value
           (Scenario.environment (Scenario.answers 0 0 80000))
           (Scenario.start
              (Scenario.builder "transfer" {[ "value" := Tx.ONumber 7 ]}
                 (Some Scenario.relay))
              Scenario.transfer_heap)).
  vm_compute. reflexivity.
Defined.

Lemma sendGasless_leaves_builder_witness :
  Tx.self
    (fst (Tx.sendGasless (Scenario.environment (Scenario.answers 0 0 80000))
            (Scenario.start
               (Scenario.builder "multicall" ∅ (Some Scenario.relay))
               Scenario.multicall_heap)))
  = Scenario.builder "multicall" ∅ (Some Scenario.relay) /\
  Scenario.multicall_heap ⊆
    Tx.heap
      (fst (Tx.sendGasless (Scenario.environment (Scenario.answers 0 0 80000))
              (Scenario.start
                 (Scenario.builder "multicall" ∅ (Some Scenario.relay))
                 Scenario.multicall_heap))).
Proof.
  exact (sendGasless_leaves_builder
           (Scenario.environment (Scenario.answers 0 0 80000))
           (Scenario.start
              (Scenario.builder "multicall" ∅ (Some Scenario.relay))
              Scenario.multicall_heap)).
Defined.

Lemma estimateGasLimit_throws_promise_witness :
  exists st',
    Tx.estimateGasLimit (Scenario.environment Scenario.answers_no_estimate)
      (Scenario.start (Scenario.builder "transfer" ∅ None)
         Scenario.transfer_heap)
    = (st', inl (Tx.PromiseOfDiagnosis Scenario.rejected)) /\
    Tx.is_TransactionError (Tx.PromiseOfDiagnosis Scenario.rejected) = false.
Proof.
  apply (estimateGasLimit_throws_promise
           (Scenario.environment Scenario.answers_no_estimate)
           (Scenario.start (Scenario.builder "transfer" ∅ None)
              Scenario.transfer_heap)
           1%nat 2%nat [Tx.VHex [Byte.x01]] Scenario.rejected Tx.VUndefined);
    reflexivity.
Defined.

(** ** More on provider resolution *)

Section UrlFacts.

Import Provider.

Lemma lower_string_cons a s :
  lower_string (String a s) = String (lower a) (lower_string s).
Proof. done. Qed.

Lemma strip_ci_Some p s r :
  strip_ci p s = Some r ->
  lower_string s = lower_string p +:+ lower_string r.
Proof.
  revert s. induction p as [|a p IH]; intros s H.
  - destruct s; simpl in H; by simplify_eq.
  - destruct s as [|b s]; [done|]. simpl in H.
    unfold eq_ci in H. case_bool_decide as Hab; [|done].
    rewrite !lower_string_cons, (IH _ H). simpl. by rewrite Hab.
Qed.

Lemma strip_ci_prefix p s t :
  lower_string s = lower_string p +:+ t ->
  exists r, strip_ci p s = Some r /\ lower_string r = t.
Proof.
  revert s. induction p as [|a p IH]; intros s H.
  - exists s. by destruct s.
  - destruct s as [|b s]; [done|].
    rewrite !lower_string_cons in H. simpl in H. injection H as Hab Hs.
    destruct (IH _ Hs) as (r & Hr & Ht). exists r. split; [|done].
    simpl. unfold eq_ci. by rewrite bool_decide_eq_true_2.
Qed.

Lemma opt_s_colon_spec r :
  opt_s_colon r = true <->
  exists t, lower_string r = ":" +:+ t \/ lower_string r = "s:" +:+ t.
Proof.
  unfold opt_s_colon. split.
  - destruct (strip_ci "s" r) as [r1|] eqn:Hs.
    + destruct (strip_ci ":" r1) as [r2|] eqn:Hc.
      * intros _. exists (lower_string r2). right.
        rewrite (strip_ci_Some _ _ _ Hs), (strip_ci_Some _ _ _ Hc). done.
      * intros [r2 Hr2]%bool_decide_eq_true.
        exists (lower_string r2). left. by rewrite (strip_ci_Some _ _ _ Hr2).
    + intros [r2 Hr2]%bool_decide_eq_true.
      exists (lower_string r2). left. by rewrite (strip_ci_Some _ _ _ Hr2).
  - intros [t [H|H]].
    + destruct (strip_ci_prefix ":" r t H) as (r2 & Hr2 & _).
      rewrite Hr2. destruct (strip_ci "s" r) as [r1|]; [|done].
      by destruct (strip_ci ":" r1).
    + destruct (strip_ci_prefix "s" r (":" +:+ t) H) as (r1 & Hr1 & Ht).
      rewrite Hr1.
      destruct (strip_ci_prefix ":" r1 t Ht) as (r2 & Hr2 & _). by rewrite Hr2.
Qed.

(** The capture group is [ws] or [http], whatever follows: the cases
    [https] and [wss] of the two [switch] statements are never taken. *)
Lemma match_scheme_values url m :
  match_scheme url = Some m -> m = "ws" \/ m = "http".
Proof.
  unfold match_scheme.
  destruct (strip_ci "ws" url) as [r|] eqn:Hws.
  - destruct (opt_s_colon r); [|done]. intros [= <-]. left.
    destruct url as [|a [|b u]]; apply strip_ci_Some in Hws;
      rewrite ?lower_string_cons in Hws; cbn in Hws; try discriminate.
    injection Hws as Ha Hb _.
    unfold take_string. simpl. rewrite !lower_string_cons. by rewrite Ha, Hb.
  - destruct (strip_ci "http" url) as [r|] eqn:Hh; [|done].
    destruct (opt_s_colon r); [|done]. intros [= <-]. right.
    destruct url as [|a [|b [|c [|d u]]]]; apply strip_ci_Some in Hh;
      rewrite ?lower_string_cons in Hh; cbn in Hh; try discriminate.
    injection Hh as Ha Hb Hc Hd _.
    unfold take_string. simpl. rewrite !lower_string_cons.
    by rewrite Ha, Hb, Hc, Hd.
Qed.

Lemma match_scheme_prefix url t :
  (lower_string url = "http:" +:+ t \/ lower_string url = "https:" +:+ t ->
   match_scheme url = Some "http") /\
  (lower_string url = "ws:" +:+ t \/ lower_string url = "wss:" +:+ t ->
   match_scheme url = Some "ws").
Proof.
  split; intros H.
  - assert (exists r, strip_ci "http" url = Some r /\ opt_s_colon r = true)
      as (r & Hr & Ho).
    { destruct H as [H|H].
      - destruct (strip_ci_prefix "http" url (":" +:+ t) H) as (r & ? & ?).
        exists r. split; [done|]. apply opt_s_colon_spec. eauto.
      - destruct (strip_ci_prefix "http" url ("s:" +:+ t) H) as (r & ? & ?).
        exists r. split; [done|]. apply opt_s_colon_spec. eauto. }
    assert (match_scheme url = Some (lower_string (take_string 4 url))) as Hm.
    { unfold match_scheme. destruct (strip_ci "ws" url) as [r'|] eqn:Hws.
      - apply strip_ci_Some in Hws. destruct H as [H|H]; rewrite H in Hws; done.
      - by rewrite Hr, Ho. }
    destruct (match_scheme_values _ _ Hm) as [Hv|Hv]; [|congruence].
    exfalso. destruct url as [|a [|b [|c [|d u]]]];
      apply strip_ci_Some in Hr; rewrite ?lower_string_cons in Hr;
      cbn in Hr; discriminate.
  - assert (exists r, strip_ci "ws" url = Some r /\ opt_s_colon r = true)
      as (r & Hr & Ho).
    { destruct H as [H|H].
      - destruct (strip_ci_prefix "ws" url (":" +:+ t) H) as (r & ? & ?).
        exists r. split; [done|]. apply opt_s_colon_spec. eauto.
      - destruct (strip_ci_prefix "ws" url ("s:" +:+ t) H) as (r & ? & ?).
        exists r. split; [done|]. apply opt_s_colon_spec. eauto. }
    assert (match_scheme url = Some (lower_string (take_string 2 url))) as Hm.
    { unfold match_scheme. by rewrite Hr, Ho. }
    destruct (match_scheme_values _ _ Hm) as [Hv|Hv]; [congruence|].
    exfalso. destruct url as [|a [|b [|c u]]];
      unfold take_string in Hv; simpl in Hv;
      rewrite ?lower_string_cons in Hv; discriminate.
Qed.

Lemma match_scheme_shape url m :
  match_scheme url = Some m ->
  exists t,
    (m = "http" /\ (lower_string url = "http:" +:+ t
                    \/ lower_string url = "https:" +:+ t)) \/
    (m = "ws" /\ (lower_string url = "ws:" +:+ t
                  \/ lower_string url = "wss:" +:+ t)).
Proof.
  intros Hm. pose proof (match_scheme_values _ _ Hm) as Hv.
  unfold match_scheme in Hm.
  destruct (strip_ci "ws" url) as [r|] eqn:Hws.
  - destruct (opt_s_colon r) eqn:Ho; [|done].
    apply opt_s_colon_spec in Ho as [t Ht]. exists t. right.
    rewrite (strip_ci_Some _ _ _ Hws).
    pose proof (proj2 (match_scheme_prefix url t)) as Hp.
    rewrite (strip_ci_Some _ _ _ Hws) in Hp.
    split; [|destruct Ht as [-> | ->]; auto].
    assert (match_scheme url = Some "ws") as Hq
      by (apply Hp; destruct Ht as [-> | ->]; auto).
    unfold match_scheme in Hq. rewrite Hws in Hq.
    destruct (opt_s_colon r); congruence.
  - destruct (strip_ci "http" url) as [r|] eqn:Hh; [|done].
    destruct (opt_s_colon r) eqn:Ho; [|done].
    apply opt_s_colon_spec in Ho as [t Ht]. exists t. left.
    pose proof (proj1 (match_scheme_prefix url t)) as Hp.
    rewrite (strip_ci_Some _ _ _ Hh) in Hp.
    rewrite (strip_ci_Some _ _ _ Hh).
    split; [|destruct Ht as [-> | ->]; auto].
    assert (match_scheme url = Some "http") as Hq
      by (apply Hp; destruct Ht as [-> | ->]; auto).
    unfold match_scheme in Hq. rewrite Hws, Hh in Hq.
    destruct (opt_s_colon r); congruence.
Qed.

(** X1: [isRpcUrl] accepts exactly the texts that begin, in any mix of
    upper and lower case, with [http:], [https:], [ws:] or [wss:];
    nothing after the colon is inspected. *)
Theorem isRpcUrl_prefix url :
  isRpcUrl url = true <->
  exists t, lower_string url = "http:" +:+ t \/ lower_string url = "https:" +:+ t
            \/ lower_string url = "ws:" +:+ t \/ lower_string url = "wss:" +:+ t.
Proof.
  split.
  - unfold isRpcUrl. destruct (match_scheme url) as [m|] eqn:Hm; [|done].
    intros _. destruct (match_scheme_shape _ _ Hm) as (t & [[_ H]|[_ H]]);
      exists t; tauto.
  - intros [t H]. unfold isRpcUrl.
    destruct (match_scheme_prefix url t) as [Hh Hw].
    destruct H as [H|[H|[H|H]]];
      [rewrite Hh by auto | rewrite Hh by auto
      | rewrite Hw by auto | rewrite Hw by auto]; done.
Qed.

End UrlFacts.

Section CacheFacts.

Import Provider.

Variable throws : ProviderClass -> bool.

Lemma append_assoc (a b c : string) : (a +:+ b) +:+ c = a +:+ b +:+ c.
Proof.
  induction a as [|x a IH]; [done|].
  change (String x ((a +:+ b) +:+ c) = String x (a +:+ b +:+ c)).
  by rewrite IH.
Qed.

Lemma lower_string_app a b :
  lower_string (a +:+ b) = lower_string a +:+ lower_string b.
Proof.
  induction a as [|x a IH]; [done|].
  change (lower_string (String x (a +:+ b))
          = String (lower x) (lower_string a +:+ lower_string b)).
  by rewrite lower_string_cons, IH.
Qed.

(** The scheme is read off the start of the text. *)
Lemma match_scheme_append u v m :
  match_scheme u = Some m -> match_scheme (u +:+ v) = Some m.
Proof.
  intros Hm. destruct (match_scheme_shape _ _ Hm) as (t & [[-> H]|[-> H]]).
  - apply (proj1 (match_scheme_prefix _ (t +:+ lower_string v))).
    rewrite lower_string_app.
    destruct H as [-> | ->]; [left|right]; by rewrite append_assoc.
  - apply (proj2 (match_scheme_prefix _ (t +:+ lower_string v))).
    rewrite lower_string_app.
    destruct H as [-> | ->]; [left|right]; by rewrite append_assoc.
Qed.

(** X2: the function has a provider to return whenever the default
    provider can be built: a constructor of a batch or streaming
    provider that throws is caught. *)
Theorem getProviderFromRpcUrl_falls_back rpcUrl chainId s :
  throws (DefaultProvider rpcUrl) = false ->
  exists h, snd (getProviderFromRpcUrl throws rpcUrl chainId s) = inr h.
Proof.
  intros Hd. unfold getProviderFromRpcUrl, getDefaultProvider, new.
  destruct (match_scheme rpcUrl) as [m|]; [|rewrite Hd; by eexists].
  destruct (_ || _).
  - destruct (RPC_PROVIDER_MAP s !! _); [by eexists|].
    destruct (throws (batch_class _ _)); simpl; [rewrite Hd|]; by eexists.
  - destruct (_ || _); [|rewrite Hd; by eexists].
    destruct (throws (WebSocketProvider _ _)); simpl; [rewrite Hd|];
      by eexists.
Qed.

(** X3: a call changes no entry of the cache but the one under its own
    key, and changes none at all when the URL is not an http(s) URL or
    when the constructor of the batch provider throws. *)
Theorem call_touches_own_key_only rpcUrl chainId s k :
  k <> seralizedOpts rpcUrl chainId \/ match_scheme rpcUrl <> Some "http"
  \/ throws (batch_class rpcUrl chainId) = true ->
  RPC_PROVIDER_MAP (fst (getProviderFromRpcUrl throws rpcUrl chainId s)) !! k
  = RPC_PROVIDER_MAP s !! k.
Proof.
  intros H. unfold getProviderFromRpcUrl, getDefaultProvider.
  destruct (match_scheme rpcUrl) as [m|] eqn:Hm; [|by rewrite new_cache].
  destruct (match_scheme_values _ _ Hm) as [-> | ->]; simpl.
  - unfold new. destruct (throws (WebSocketProvider _ _)); simpl; [|done].
    by destruct (throws (DefaultProvider _)).
  - destruct (RPC_PROVIDER_MAP s !! seralizedOpts rpcUrl chainId); [done|].
    unfold new. destruct (throws (batch_class _ _)) eqn:Hb; simpl.
    + by destruct (throws (DefaultProvider _)).
    + destruct H as [Hk|[?|?]]; [|done..]. by rewrite lookup_insert_ne.
Qed.

Lemma cache_sound_initial : cache_sound initial.
Proof.
  split; [intros k h H | intros k1 k2 h1 h2 H]; simpl in H;
    by rewrite lookup_empty in H.
Qed.

Lemma cache_sound_alloc s c :
  cache_sound s -> cache_sound (fst (new throws c s)).
Proof.
  intros [Hlt Hinj]. unfold new. destruct (throws c); [done|]. simpl.
  split; [|done]. intros k h Hk. simpl in *. specialize (Hlt _ _ Hk). lia.
Qed.

Lemma cache_sound_call rpcUrl chainId s :
  cache_sound s ->
  cache_sound (fst (getProviderFromRpcUrl throws rpcUrl chainId s)).
Proof.
  intros Hs. unfold getProviderFromRpcUrl, getDefaultProvider.
  destruct (match_scheme rpcUrl) as [m|]; [|by apply cache_sound_alloc].
  destruct (_ || _).
  - destruct (RPC_PROVIDER_MAP s !! seralizedOpts rpcUrl chainId) eqn:Hc;
      [done|].
    pose proof (cache_sound_alloc s (batch_class rpcUrl chainId) Hs) as Ha.
    unfold new in *. destruct (throws (batch_class _ _)); simpl in *.
    + by apply (cache_sound_alloc s (DefaultProvider rpcUrl)).
    + destruct Hs as [Hlt Hinj]. split; simpl.
      * intros k h. rewrite lookup_insert. case_decide.
        -- intros [= <-]. simpl. lia.
        -- intros Hk. specialize (Hlt _ _ Hk). lia.
      * intros k1 k2 h1 h2. rewrite !lookup_insert. unfold same_object.
        repeat case_decide; subst; try done.
        -- intros [= <-] Hk2 Heq. specialize (Hlt _ _ Hk2). simpl in *. lia.
        -- intros Hk1 [= <-] Heq. specialize (Hlt _ _ Hk1). simpl in *. lia.
        -- apply Hinj.
  - destruct (_ || _); [|by apply cache_sound_alloc].
    pose proof (cache_sound_alloc s (WebSocketProvider rpcUrl chainId) Hs)
      as Ha.
    unfold new in *. destruct (throws (WebSocketProvider _ _)); simpl in *;
      [|done].
    by apply (cache_sound_alloc s (DefaultProvider rpcUrl)).
Qed.

Lemma cache_sound_calls l s : cache_sound s -> cache_sound (calls throws l s).
Proof.
  revert s. induction l as [|[u c] l IH]; intros s Hs; [done|].
  simpl. by apply IH, cache_sound_call.
Qed.

(** X4: after any sequence of calls from the empty cache, one provider
    object is never cached under two different keys. *)
Theorem cached_objects_distinct l k1 k2 h1 h2 :
  RPC_PROVIDER_MAP (calls throws l initial) !! k1 = Some h1 ->
  RPC_PROVIDER_MAP (calls throws l initial) !! k2 = Some h2 ->
  same_object h1 h2 -> k1 = k2.
Proof.
  intros H1 H2. by apply (cache_sound_calls l initial cache_sound_initial).
Qed.

(** An object that a call builds is none of the cached ones. *)
Lemma new_is_fresh s c h s' k h' :
  cache_sound s -> new throws c s = (s', inr h) ->
  RPC_PROVIDER_MAP s !! k = Some h' -> ~ same_object h' h.
Proof.
  intros [Hlt _] Hnew Hk. unfold new in Hnew.
  destruct (throws c); [done|]. injection Hnew as <- <-.
  unfold same_object. simpl. specialize (Hlt _ _ Hk). lia.
Qed.

(** X5: the provider returned for a ws(s) URL is never an object of the
    cache, neither before nor after the call: every request for a
    streaming URL opens a connection of its own. *)
Theorem streaming_provider_never_cached l rpcUrl chainId s' h k h' :
  match_scheme rpcUrl = Some "ws" ->
  getProviderFromRpcUrl throws rpcUrl chainId (calls throws l initial)
    = (s', inr h) ->
  RPC_PROVIDER_MAP s' !! k = Some h' -> ~ same_object h' h.
Proof.
  intros Hm Hrun Hk.
  pose proof (cache_sound_calls l initial cache_sound_initial) as Hs.
  assert (RPC_PROVIDER_MAP s' = RPC_PROVIDER_MAP (calls throws l initial))
    as Heq.
  { replace s' with (fst (getProviderFromRpcUrl throws rpcUrl chainId
                            (calls throws l initial))) by by rewrite Hrun.
    apply map_eq. intros i. apply call_touches_own_key_only.
    right. left. congruence. }
  rewrite Heq in Hk.
  rewrite getProviderFromRpcUrl_ws in Hrun by done.
  destruct (new throws (WebSocketProvider rpcUrl chainId) _)
    as [s1 [e|p]] eqn:Hn.
  - unfold getDefaultProvider in Hrun.
    assert (RPC_PROVIDER_MAP s1 = RPC_PROVIDER_MAP (calls throws l initial)
            /\ cache_sound s1) as [Hc1 Hs1].
    { unfold new in Hn. destruct (throws (WebSocketProvider _ _)); [|done].
      by injection Hn as <- _. }
    rewrite <- Hc1 in Hk. by eapply new_is_fresh.
  - injection Hrun as <- <-. by eapply new_is_fresh.
Qed.

Lemma no_dash_pretty_go x s :
  no_dash s = true -> no_dash (pretty_N_go x s) = true.
Proof.
  revert s. induction (N.lt_wf_0 x) as [x _ IH]; intros s Hs.
  assert (x = 0 \/ 0 < x)%N as [->|?] by lia.
  - by rewrite pretty_N_go_0.
  - rewrite pretty_N_go_step by done. apply IH.
    { by apply N.div_lt. }
    simpl. rewrite Hs. unfold pretty_N_char. by repeat case_match.
Qed.

Lemma no_dash_pretty c : 0 < c -> no_dash (pretty c) = true.
Proof.
  destruct c as [|p|p]; try lia. intros _.
  unfold pretty, pretty_Z, pretty, pretty_positive, pretty, pretty_N.
  case_decide; [done|]. by apply no_dash_pretty_go.
Qed.

Lemma dash_found u d : no_dash (u +:+ "-" +:+ d) = false.
Proof.
  induction u as [|c u IH]; [done|].
  simpl in *. rewrite IH. by destruct (bool_decide _).
Qed.

Lemma key_split u1 u2 d1 d2 :
  no_dash d1 = true -> no_dash d2 = true ->
  u1 +:+ "-" +:+ d1 = u2 +:+ "-" +:+ d2 -> u1 = u2 /\ d1 = d2.
Proof.
  intros H1 H2. revert u2. induction u1 as [|a u1 IH]; intros [|b u2] H;
    simpl in H.
  - by injection H.
  - injection H as _ Hd. pose proof (dash_found u2 d2) as Hf.
    rewrite <- Hd in Hf. change (no_dash d1 = false) in Hf. congruence.
  - injection H as _ Hd. pose proof (dash_found u1 d1) as Hf.
    rewrite Hd in Hf. change (no_dash d2 = false) in Hf. congruence.
  - injection H as -> H. destruct (IH _ H) as [-> ->]. done.
Qed.

(** X6: for chain ids above zero the cache key determines the URL and
    the chain id: two requests that differ in either never share an
    entry. *)
Theorem cache_key_injective rpcUrl1 rpcUrl2 c1 c2 :
  0 < c1 -> 0 < c2 ->
  seralizedOpts rpcUrl1 (Some c1) = seralizedOpts rpcUrl2 (Some c2) ->
  rpcUrl1 = rpcUrl2 /\ c1 = c2.
Proof.
  intros H1 H2. unfold seralizedOpts, chainId_or.
  rewrite !bool_decide_eq_false_2 by lia. intros H.
  apply key_split in H as [-> Hp]; [|by apply no_dash_pretty..].
  split; [done|]. by apply (inj pretty).
Qed.

Lemma cache_key_collision rpcUrl :
  seralizedOpts rpcUrl None = seralizedOpts (rpcUrl +:+ "-") (Some 1).
Proof. unfold seralizedOpts, chainId_or. by rewrite append_assoc. Qed.

(** X7: the key of a request without chain id is also the key of
    exactly one request with a chain id above zero: the one for the URL
    followed by a dash, on chain 1. *)
Theorem cache_key_of_no_chain_id rpcUrl1 rpcUrl2 c :
  0 < c ->
  seralizedOpts rpcUrl1 None = seralizedOpts rpcUrl2 (Some c) <->
  rpcUrl2 = rpcUrl1 +:+ "-" /\ c = 1.
Proof.
  intros Hc. split.
  - rewrite cache_key_collision. intros H.
    apply cache_key_injective in H as [<- <-]; [done|lia|done].
  - intros [-> ->]. apply cache_key_collision.
Qed.

(** X8: after a request for an http(s) URL without chain id has filled
    the cache, a request for that URL followed by a dash on chain 1 is
    answered with the provider of the first request: a batch provider
    without fixed network, built for the other URL. *)
Theorem no_chain_id_shares_entry rpcUrl s :
  match_scheme rpcUrl = Some "http" ->
  throws (JsonRpcBatchProvider rpcUrl) = false ->
  RPC_PROVIDER_MAP s !! seralizedOpts rpcUrl None = None ->
  exists h,
    snd (getProviderFromRpcUrl throws rpcUrl None s) = inr h /\
    snd (getProviderFromRpcUrl throws (rpcUrl +:+ "-") (Some 1)
           (fst (getProviderFromRpcUrl throws rpcUrl None s))) = inr h /\
    made h = JsonRpcBatchProvider rpcUrl.
Proof.
  intros Hm Hok Hmiss.
  pose proof (match_scheme_append _ "-" _ Hm) as Hm'.
  destruct (http_first throws rpcUrl None s Hm Hok) as (h & Hr & Hc).
  exists h. split; [done|]. split.
  - rewrite (http_hit throws (rpcUrl +:+ "-") (Some 1) _ h Hm'); [done|].
    by rewrite <- cache_key_collision.
  - rewrite getProviderFromRpcUrl_http in Hr by done.
    rewrite Hmiss in Hr. unfold new in Hr. simpl in Hr. rewrite Hok in Hr.
    simpl in Hr. by injection Hr as <-.
Qed.

End CacheFacts.

(** ** Chain names and [getChainProvider] *)

Section ChainFacts.

Import Chains.

Context (value : ChainId -> Z) (inherited : string -> bool).
Context (Chain : Type) (chainId : Chain -> Z).
Context (SDKOptions : Type).
Context (SDKOptionsSchema_parse : SDKOptions -> failure + SDKOptionsOutput Chain).
Context (as_options : SDKOptionsOutput Chain -> SDKOptions).
Context (getChainRPC : option Chain -> ApiKeys -> failure + string).
Context (DEFAULT_API_KEY : string) (member_text : string -> string).
Context (provider_for_member :
           string -> string -> Provider.State ->
           Provider.State * (Provider.Thrown + Provider.Handle)).
Context (throws : Provider.ProviderClass -> bool).

Local Abbreviation resolve :=
  (getChainIdFromNetwork value inherited Chain chainId).
Local Abbreviation default_map :=
  (buildDefaultMap Chain chainId SDKOptions SDKOptionsSchema_parse).
Local Abbreviation chain_provider :=
  (getChainProvider value inherited Chain chainId SDKOptions
     SDKOptionsSchema_parse as_options getChainRPC DEFAULT_API_KEY
     member_text provider_for_member throws).

(** An object filled by assignments in the order of a list holds, under
    each key, the value of the last element with that key. *)
Lemma foldl_insert_last {A B} (key : A -> Z) (val : A -> B) l
    (m : gmap Z B) k :
  foldl (fun m e => <[key e := val e]> m) m l !! k =
    match last (filter (fun e => key e = k) l) with
    | Some e => Some (val e)
    | None => m !! k
    end.
Proof.
  revert m. induction l as [|a l IH]; intros m; [done|].
  cbn [foldl]. rewrite IH, filter_cons.
  destruct (decide (key a = k)) as [<-|Hne].
  - rewrite last_cons. destruct (last _); [done|].
    by rewrite lookup_insert_eq.
  - destruct (last _); [done|]. by rewrite lookup_insert_ne.
Qed.

Lemma filter_fmap {A B} (f : A -> B) (P : B -> Prop)
    `{forall x, Decision (P x)} (l : list A) :
  filter P (f <$> l) = f <$> filter (fun x => P (f x)) l.
Proof.
  induction l as [|a l IH]; [done|].
  rewrite fmap_cons, !filter_cons, IH. by destruct (decide _).
Qed.

Lemma chain_map_lookup chains n :
  chain_map Chain chainId chains !! n
  = last (filter (fun c => chainId c = n) chains).
Proof.
  unfold chain_map.
  rewrite (foldl_insert_last chainId (fun c => c) chains ∅ n).
  by destruct (last _).
Qed.

(** X9: the map of [buildDefaultMap] holds, under each chain id, the
    last of the supported chains with that id: of two chains with one
    id the later one is kept, the earlier one is dropped. *)
Theorem buildDefaultMap_last_wins sdkOptions options :
  SDKOptionsSchema_parse sdkOptions = inr options ->
  exists rpcMap,
    default_map sdkOptions = inr rpcMap /\
    forall n, rpcMap !! n
              = last (filter (fun c => chainId c = n)
                        (supportedChains Chain options)).
Proof.
  intros Hp. unfold buildDefaultMap. rewrite Hp. eexists. split; [done|].
  apply chain_map_lookup.
Qed.

Lemma names_are_own :
  Forall (fun e => own CHAIN_NAME_TO_ID e.1 = Some e.2) CHAIN_NAME_TO_ID.
Proof. repeat (constructor; [reflexivity|]). constructor. Qed.

(** X10: every name that [CHAIN_ID_TO_NAME] gives for a chain id
    resolves back to that chain id. *)
Theorem chain_name_resolves_to_its_id z name :
  CHAIN_ID_TO_NAME value !! z = Some name ->
  resolve (NString name) = inr (IdNumber z).
Proof.
  unfold CHAIN_ID_TO_NAME, fromEntries.
  rewrite (foldl_insert_last fst snd). rewrite lookup_empty.
  destruct (last _) as [[z' n']|] eqn:Hl; [|done]. intros [= ->].
  apply last_Some_elem_of, list_elem_of_filter in Hl as [Hz Hin].
  simpl in Hz. subst z'.
  apply list_elem_of_fmap in Hin as ([n c] & [= -> ->] & Hin).
  pose proof (proj1 (Forall_forall _ _) names_are_own _ Hin) as Hown.
  simpl in *. by rewrite Hown.
Qed.

Lemma chain_id_to_name_lookup c :
  Inj (=) (=) value ->
  CHAIN_ID_TO_NAME value !! value c
  = fst <$> last (filter (fun e => e.2 = c) CHAIN_NAME_TO_ID).
Proof.
  intros Hinj. unfold CHAIN_ID_TO_NAME, fromEntries.
  rewrite (foldl_insert_last fst snd), lookup_empty.
  rewrite (filter_fmap (fun e : string * ChainId => (value e.2, e.1))
             (fun e => e.1 = value c)).
  rewrite fmap_last.
  rewrite (list_filter_iff _ (fun e : string * ChainId => e.2 = c)).
  - by destruct (last _).
  - intros [n c']. simpl. split; [apply Hinj|congruence].
Qed.

(** X11: when the members of [ChainId] have different numbers, the
    name that [CHAIN_ID_TO_NAME] gives for the chain id of a name of
    [CHAIN_NAME_TO_ID] is that name again, except for the three aliases
    [avalanche-fuji], [ethereum] and [matic], which come back as
    [avalanche-testnet], [mainnet] and [polygon]. *)
Theorem chain_aliases_are_not_inverted name c :
  Inj (=) (=) value ->
  (name, c) ∈ CHAIN_NAME_TO_ID ->
  (CHAIN_ID_TO_NAME value !! value c = Some name <->
   name <> "avalanche-fuji" /\ name <> "ethereum" /\ name <> "matic") /\
  (name = "avalanche-fuji" ->
   CHAIN_ID_TO_NAME value !! value c = Some "avalanche-testnet") /\
  (name = "ethereum" -> CHAIN_ID_TO_NAME value !! value c = Some "mainnet") /\
  (name = "matic" -> CHAIN_ID_TO_NAME value !! value c = Some "polygon").
Proof.
  intros Hinj Hin. rewrite chain_id_to_name_lookup by done.
  unfold CHAIN_NAME_TO_ID in Hin.
  repeat (apply elem_of_cons in Hin as [[= -> ->]|Hin]);
    [..|by apply elem_of_nil in Hin];
    match goal with
    | |- context [fst <$> ?l] =>
        let r := eval vm_compute in (fst <$> l) in
        change (fst <$> l) with r
    end;
    (split; [split; [intros Heq; by simplify_eq
                    | intros (? & ? & ?); done]|]);
    repeat split; intros Heq; by simplify_eq.
Qed.

(** *** [getChainProvider] *)

(** The access key and the keys passed to [getChainRPC]. *)
Local Abbreviation key_of options :=
  (or_string (thirdwebApiKey Chain options) DEFAULT_API_KEY).
Local Abbreviation keys_of options :=
  {| key_thirdweb := key_of options;
     key_infura := infuraApiKey Chain options;
     key_alchemy := alchemyApiKey Chain options |}.

Lemma with_network_keys network parsed :
  thirdwebApiKey Chain (with_network Chain network parsed)
    = thirdwebApiKey Chain parsed /\
  infuraApiKey Chain (with_network Chain network parsed)
    = infuraApiKey Chain parsed /\
  alchemyApiKey Chain (with_network Chain network parsed)
    = alchemyApiKey Chain parsed.
Proof. by destruct network. Qed.

(** The steps of [getChainProvider] after the resolution of the chain
    id: the check for an empty URL never fires. *)
Lemma getChainProvider_resolved network sdkOptions parsed rpcMap n s :
  as_rpc_url Chain network = None ->
  SDKOptionsSchema_parse sdkOptions = inr parsed ->
  default_map (as_options (with_network Chain network parsed)) = inr rpcMap ->
  resolve network = inr (IdNumber n) ->
  chain_provider network sdkOptions s =
    lift_provider
      (Provider.getProviderFromRpcUrl throws
         (chosen_url (getChainRPC (rpcMap !! n) (keys_of parsed))
            (pretty n) (key_of parsed))
         (Some n) s).
Proof.
  intros Hurl Hparse Hmap Hid. unfold getChainProvider.
  rewrite Hurl, Hparse, Hmap, Hid. cbv zeta.
  destruct (with_network_keys network parsed) as (-> & -> & ->).
  unfold chosen_url, show_resolved.
  destruct (getChainRPC _ _) as [e|url]; simpl.
  - done.
  - destruct (decide (url = "")) as [->|Hne]; [done|].
    by rewrite !(bool_decide_eq_false_2 (url = "")) by done.
Qed.

(** X12: when the options parse and the network resolves to the chain
    id [n], [getChainProvider] hands over to [getProviderFromRpcUrl]
    with chain id [n]: with the URL that [getChainRPC] answers, and,
    when [getChainRPC] throws or answers the empty text, with the URL
    https://n.rpc.thirdweb.com/ followed by the access key.  The error
    for a missing URL is never raised, whatever the chain id. *)
Theorem getChainProvider_hands_over network sdkOptions parsed rpcMap n s :
  as_rpc_url Chain network = None ->
  SDKOptionsSchema_parse sdkOptions = inr parsed ->
  default_map (as_options (with_network Chain network parsed)) = inr rpcMap ->
  resolve network = inr (IdNumber n) ->
  (forall url,
      getChainRPC (rpcMap !! n) (keys_of parsed) = inr url ->
      url <> "" ->
      chain_provider network sdkOptions s =
        lift_provider
          (Provider.getProviderFromRpcUrl throws url (Some n) s)) /\
  ((forall url, getChainRPC (rpcMap !! n) (keys_of parsed) = inr url ->
                url = "") ->
   chain_provider network sdkOptions s =
     lift_provider
       (Provider.getProviderFromRpcUrl throws
          ("https://" +:+ pretty n +:+ ".rpc.thirdweb.com/"
           +:+ key_of parsed)
          (Some n) s)).
Proof.
  intros Hurl Hparse Hmap Hid.
  rewrite (getChainProvider_resolved _ _ _ _ _ _ Hurl Hparse Hmap Hid).
  unfold chosen_url. split.
  - intros url -> Hne. by rewrite bool_decide_eq_false_2.
  - intros Hempty. destruct (getChainRPC _ _) as [e|url]; [done|].
    by rewrite bool_decide_eq_true_2 by by apply Hempty.
Qed.

(** X13: a chain descriptor passed as the network is put before the
    supported chains, so a supported chain with the same chain id takes
    its place: the descriptor that [getChainRPC] is asked about is the
    last supported chain with that id, and the one that was passed only
    when there is none. *)
Theorem passed_chain_is_shadowed c sdkOptions parsed s :
  SDKOptionsSchema_parse sdkOptions = inr parsed ->
  SDKOptionsSchema_parse (as_options (with_network Chain (NChain c) parsed))
    = inr (with_network Chain (NChain c) parsed) ->
  chain_provider (NChain c) sdkOptions s =
    lift_provider
      (Provider.getProviderFromRpcUrl throws
         (chosen_url
            (getChainRPC
               (Some (default c
                        (last (filter (fun x => chainId x = chainId c)
                                 (supportedChains Chain parsed)))))
               (keys_of parsed))
            (pretty (chainId c)) (key_of parsed))
         (Some (chainId c)) s).
Proof.
  intros Hparse Hagain.
  rewrite (getChainProvider_resolved (NChain c) sdkOptions parsed
             (chain_map Chain chainId (c :: supportedChains Chain parsed))
             (chainId c)); [|done|done| |done].
  - rewrite chain_map_lookup, filter_cons_True, last_cons by done.
    by destruct (last _).
  - unfold buildDefaultMap. by rewrite Hagain.
Qed.

(** X14: asked twice for the same network under the same options,
    [getChainProvider] gives the same provider object, when the URL it
    settles on is an http(s) URL and the batch provider can be built. *)
Theorem getChainProvider_reuses network sdkOptions parsed rpcMap n s :
  as_rpc_url Chain network = None ->
  SDKOptionsSchema_parse sdkOptions = inr parsed ->
  default_map (as_options (with_network Chain network parsed)) = inr rpcMap ->
  resolve network = inr (IdNumber n) ->
  Provider.match_scheme
    (chosen_url (getChainRPC (rpcMap !! n) (keys_of parsed))
       (pretty n) (key_of parsed)) = Some "http" ->
  throws (Provider.batch_class
            (chosen_url (getChainRPC (rpcMap !! n) (keys_of parsed))
               (pretty n) (key_of parsed)) (Some n)) = false ->
  exists h,
    snd (chain_provider network sdkOptions s) = inr h /\
    chain_provider network sdkOptions
      (fst (chain_provider network sdkOptions s))
    = (fst (chain_provider network sdkOptions s), inr h).
Proof.
  intros Hurl Hparse Hmap Hid Hm Hok.
  rewrite !(getChainProvider_resolved _ _ _ _ _ _ Hurl Hparse Hmap Hid).
  destruct (http_first throws _ (Some n) s Hm Hok) as (h & Hr & Hc).
  exists h.
  destruct (Provider.getProviderFromRpcUrl throws _ (Some n) s)
    as [s1 r] eqn:Hrun.
  simpl in Hr, Hc. subst r. simpl. split; [done|].
  by rewrite (http_hit throws _ (Some n) s1 h Hm Hc).
Qed.

End ChainFacts.

(** ** The calls that each method makes *)

Section Footprints.

Import Tx Calls.

Context {W : Type} (env : Env W).

Implicit Types st : State W.

Section Within.

Variables (P : Event -> Prop) (st0 : State W).

Local Abbreviation within := (@since_inv W P st0).

Lemma since_start : within st0.
Proof. split; [done|]. exists []. by rewrite app_nil_r. Qed.

Lemma since_this : preserves within this (fun t => t = self st0).
Proof. apply preserves_this. by intros st [? ?]. Qed.

Lemma since_call ev st w :
  P ev -> within st -> within (after_call st ev w).
Proof.
  intros Hev [Hs (evs & Ht & Hn)]. split; [done|].
  exists (evs ++ [ev]). simpl. rewrite Ht, app_assoc. split; [done|].
  apply Forall_app. split; [done|]. by apply Forall_singleton.
Qed.

Lemma since_alloc xs : preserves within (alloc_array xs) (fun _ => True).
Proof. apply preserves_alloc_array. by intros st [? ?]. Qed.

Lemma since_write l i v :
  preserves within (write_index l i v) (fun _ => True).
Proof. apply preserves_write_index. by intros st [? ?]. Qed.

Lemma since_issue ev : P ev -> preserves within (issue ev) (fun _ => True).
Proof.
  intros Hev. apply preserves_issue. intros st [Hs (evs & Ht & Hn)].
  split; [done|]. exists (evs ++ [ev]). simpl.
  rewrite Ht, app_assoc. split; [done|].
  apply Forall_app. split; [done|]. by apply Forall_singleton.
Qed.

Ltac in_kinds := apply (bool_decide_unpack _); vm_compute; exact I.

Ltac since_steps HP :=
  inv_steps ltac:(apply since_this) ltac:(apply since_alloc);
  try done; try apply since_write;
  try (apply since_issue; apply HP; in_kinds);
  try (intros; apply since_call; [apply HP; in_kinds|done]).

Lemma transactionError_within err :
  (forall e, kind_of e ∈ diagnosis_calls -> P e) ->
  preserves within (transactionError env err) (fun _ => True).
Proof. intros HP. unfold transactionError. since_steps HP. Qed.

Lemma throw_diagnosed_within {A} err (R : A -> Prop) :
  (forall e, kind_of e ∈ diagnosis_calls -> P e) ->
  preserves within (throw_diagnosed env err) R.
Proof.
  intros HP. unfold throw_diagnosed. eapply preserves_bind;
    [by apply transactionError_within|]. intros e _. apply preserves_throw.
Qed.

Lemma simulate_within :
  (forall e, kind_of e ∈ simulate_calls -> P e) ->
  preserves within (simulate env) (fun _ => True).
Proof.
  intros HP. unfold simulate. since_steps HP.
  apply throw_diagnosed_within. intros ev Hev. apply HP.
  apply elem_of_cons. by right.
Qed.

Lemma estimateGasLimit_within :
  (forall e, kind_of e ∈ estimate_calls -> P e) ->
  preserves within (estimateGasLimit env) (fun _ => True).
Proof.
  intros HP. unfold estimateGasLimit, transactionError_promise.
  since_steps HP.
  apply simulate_within. intros ev Hev. apply HP.
  apply elem_of_cons. by right.
Qed.

Lemma getGasPrice_within :
  (forall e, kind_of e = KGetGasPrice -> P e) ->
  preserves within (getGasPrice env) (fun _ => True).
Proof.
  intros HP. unfold getGasPrice.
  inv_steps ltac:(apply since_this) ltac:(apply since_alloc); try done.
  intros. apply since_call; [by apply HP|done].
Qed.

Lemma getGasOverrides_within :
  (forall e, kind_of e ∈ fee_calls -> P e) ->
  preserves within (getGasOverrides env) (fun _ => True).
Proof.
  intros HP. unfold getGasOverrides. since_steps HP;
    apply getGasPrice_within; intros ev Hev; apply HP; rewrite Hev;
    in_kinds.
Qed.

Lemma sendGasless_args_within t :
  (forall e, kind_of e = KGetAddress -> P e) ->
  preserves within (sendGasless_args env t) (fun _ => True).
Proof.
  intros HP. unfold sendGasless_args.
  inv_steps ltac:(apply since_this) ltac:(apply since_alloc);
    try done; try apply since_write.
  intros. apply since_call; [by apply HP|done].
Qed.

(** The gas limit of a relayed call is at least 100000 and at least
    the limit of the overrides. *)
Lemma sendGasless_gas_within t a h :
  (forall e, kind_of e = KEstimateGas -> P e) ->
  preserves within (sendGasless_gas env t a h)
    (fun gas => 100000 <= gas /\
                forall g, gasLimit_override (overrides t) = inr (Some g) ->
                          g <= gas).
Proof.
  intros HP. unfold sendGasless_gas, gasLimit_override.
  eapply (preserves_bind _ _ _ (fun _ => True)).
  { inv_steps ltac:(apply since_this) ltac:(apply since_alloc); try done.
    intros. apply since_call; [by apply HP|done]. }
  intros gas _. cbn zeta.
  destruct (truthy (field (overrides t) "gasLimit")).
  - eapply preserves_bind; [apply preserves_lift_eq|].
    intros limit ->. cbn beta.
    repeat case_bool_decide; apply preserves_ret;
      (split; [lia|intros g [= <-]; lia]).
  - case_bool_decide; apply preserves_ret; (split; [lia|done]).
Qed.

Lemma sendGasless_within :
  (forall e, kind_of e ∈ [KGetAddress; KGetNetwork; KEstimateGas;
                          KGetTransaction] -> P e) ->
  (forall tx h, relay_ok (self st0) (ERelay tx h) -> P (ERelay tx h)) ->
  preserves within (sendGasless env) (fun _ => True).
Proof.
  intros HP Hrelay. unfold sendGasless.
  eapply preserves_bind; [apply since_this|].
  intros t ->. cbn beta.
  destruct (gaslessOptions (self st0)) as [options|];
    [|apply preserves_throw].
  destruct (negb _); [apply preserves_throw|].
  eapply (preserves_bind _ _ _ (fun _ => True)).
  { apply sendGasless_args_within. intros ev Hev. apply HP.
    rewrite Hev. in_kinds. }
  intros args _.
  eapply (preserves_bind _ _ _ (fun _ => True)).
  { apply preserves_call. intros. apply since_call; [|done].
    apply HP. in_kinds. }
  intros chainId _.
  eapply (preserves_bind _ _ _ (fun _ => True)).
  { since_steps HP. }
  intros from _. cbn zeta.
  eapply preserves_bind; [apply preserves_lift_eq|]. intros amount _.
  destruct (bool_decide _); [apply preserves_throw|].
  do 3 (inv_step idtac idtac).
  eapply preserves_bind.
  { apply sendGasless_gas_within. intros ev Hev. apply HP.
    rewrite Hev. in_kinds. }
  intros gas [Hgas Hlimit]. cbn zeta.
  eapply (preserves_bind _ _ _ (fun _ => True)).
  { apply preserves_call. intros. apply since_call; [|done].
    apply Hrelay. simpl. auto. }
  intros txHash _.
  since_steps HP.
Qed.

Lemma field_union_truthy (o g : gmap string oval) k :
  truthy (field o k) = true -> field (o ∪ g) k = field o k.
Proof.
  unfold field. destruct (o !! k) as [v|] eqn:Hk; [|done]. intros _.
  by rewrite (lookup_union_Some_l _ _ _ _ Hk).
Qed.

(** [send], on both of its paths. *)
Lemma send_within :
  (gasless_configured (gaslessOptions (self st0)) = false ->
   (forall e,
       kind_of e ∈ KGetBalance :: fee_calls ++
         (if truthy (field (overrides (self st0)) "gasLimit")
          then diagnosis_calls else estimate_calls) -> P e) /\
   (forall c m a o, submission_ok (self st0) (ESend c m a o) ->
                    P (ESend c m a o))) ->
  (gasless_configured (gaslessOptions (self st0)) = true ->
   (forall e, kind_of e ∈ [KGetAddress; KGetNetwork; KEstimateGas;
                           KGetTransaction] -> P e) /\
   (forall tx h, relay_ok (self st0) (ERelay tx h) -> P (ERelay tx h))) ->
  preserves within (send env) (fun _ => True).
Proof.
  intros Hdirect Hgasless. unfold send.
  eapply preserves_bind; [apply since_this|].
  intros t ->. cbn beta.
  destruct (negb _); [apply preserves_throw|].
  destruct (gasless_configured _) eqn:Hconf.
  { destruct (Hgasless eq_refl). by apply sendGasless_within. }
  destruct (Hdirect eq_refl) as [HP Hsend]. clear Hdirect Hgasless.
  assert (forall e, kind_of e ∈ fee_calls -> P e) as Hfee.
  { intros ev Hev. apply HP. apply elem_of_cons. right.
    apply elem_of_app. by left. }
  assert (forall e, kind_of e ∈ diagnosis_calls -> P e) as Hdiag.
  { intros ev Hev. apply HP. apply elem_of_cons. right.
    apply elem_of_app. right. destruct (truthy _); [done|].
    do 2 (apply elem_of_cons; right). done. }
  eapply (preserves_bind _ _ _ (fun _ => True));
    [by apply getGasOverrides_within|].
  intros gasOverrides _. cbn zeta.
  eapply (preserves_bind _ _ _
            (fun merged =>
               truthy (field merged "gasLimit") = true /\
               forall k v, overrides (self st0) !! k = Some v ->
                           k <> "gasLimit" \/ truthy v = true ->
                           merged !! k = Some v)).
  { destruct (truthy (field (overrides (self st0) ∪ gasOverrides)
                        "gasLimit")) eqn:Hm; cbn [negb].
    - apply preserves_ret. split; [done|]. intros k v Hk _.
      by apply lookup_union_Some_l.
    - destruct (truthy (field (overrides (self st0)) "gasLimit")) eqn:Hu.
      { rewrite field_union_truthy in Hm by done. congruence. }
      eapply (preserves_bind _ _ _ (fun _ => True)).
      { apply estimateGasLimit_within. intros ev Hev. apply HP.
        apply elem_of_cons. right. apply elem_of_app. by right. }
      intros limit _. apply preserves_ret. split.
      + unfold field. by rewrite lookup_insert_eq.
      + intros k v Hk [Hne|Hv].
        * rewrite lookup_insert_ne by done. by apply lookup_union_Some_l.
        * destruct (decide (k = "gasLimit")) as [->|Hne].
          -- unfold field in Hu. rewrite Hk in Hu. simpl in Hu. congruence.
          -- rewrite lookup_insert_ne by done.
             by apply lookup_union_Some_l. }
  intros merged [Hlimit Hkept].
  apply preserves_try_catch.
  - do 2 (eapply (preserves_bind _ _ _ (fun _ => True));
          [first [apply preserves_read_array | apply preserves_get_heap]|];
          intros ? _).
    apply preserves_call. intros. apply since_call; [|done].
    apply Hsend. simpl. auto.
  - intros err.
    eapply (preserves_bind _ _ _ (fun _ => True)).
    { since_steps Hdiag. }
    intros from _. cbn zeta.
    eapply (preserves_bind _ _ _ (fun _ => True)).
    { apply preserves_call. intros. apply since_call; [|done].
      apply HP. apply elem_of_cons. by left. }
    intros balance _.
    eapply (preserves_bind _ _ _ (fun _ => True)).
    { since_steps Hdiag. }
    intros [|]; intros _; by apply throw_diagnosed_within.
Qed.

End Within.

Lemma run_within {A} P (m : M W A) (R : A -> Prop) st :
  preserves (since_inv P st) m R -> only_since P st (fst (m st)).
Proof.
  intros H. specialize (H st (since_start P st)). unfold wp in H.
  destruct (m st) as [st' [e|a]]; simpl; [by destruct H|].
  by destruct H as [[_ ?] _].
Qed.

Lemma only_since_mono (P Q : Event -> Prop) st st' :
  (forall e, P e -> Q e) -> only_since P st st' -> only_since Q st st'.
Proof.
  intros HPQ (evs & Ht & HP). exists evs. split; [done|].
  by eapply Forall_impl.
Qed.

Lemma other_kind_submission_ok t e : kind_of e <> KSend -> submission_ok t e.
Proof. by destruct e. Qed.

Lemma other_kind_relay_ok t e : kind_of e <> KRelay -> relay_ok t e.
Proof. by destruct e. Qed.

(** X15: the collaborators that [send] calls.  With a relay configured
    these are the signer's address, the network, the gas estimate, the
    relay and the look-up of the relayed transaction: no fee data, gas
    price or balance is asked for and nothing is submitted to the
    contract.  Without a relay, the relay is never called. *)
Theorem send_calls st :
  only_since
    (fun e => kind_of e ∈
                (if gasless_configured (gaslessOptions (self st))
                 then gasless_calls else direct_calls))
    st (fst (send env st)).
Proof.
  eapply run_within. apply send_within.
  - intros ->. split.
    + intros e He. apply elem_of_cons. right.
      apply elem_of_cons in He as [->|He]; [apply elem_of_cons; by left|].
      apply elem_of_cons. right.
      apply elem_of_app in He as [He|He]; apply elem_of_app; [by left|].
      right. destruct (truthy _); [|done].
      do 2 (apply elem_of_cons; right). done.
    + intros. apply elem_of_cons. by left.
  - intros ->. split.
    + intros e He. revert He. generalize (kind_of e). intros k.
      unfold gasless_calls. rewrite !elem_of_cons. tauto.
    + intros. apply (bool_decide_unpack _). vm_compute. exact I.
Qed.

(** X16: when the overrides hold a gas limit that reads as true and no
    relay is configured, [send] neither estimates the gas nor simulates
    the call, whatever the collaborators answer. *)
Theorem explicit_gas_limit_skips_estimation st :
  gasless_configured (gaslessOptions (self st)) = false ->
  truthy (field (overrides (self st)) "gasLimit") = true ->
  only_since (fun e => kind_of e <> KEstimateGas /\ kind_of e <> KCallStatic)
    st (fst (send env st)).
Proof.
  intros Hconf Hlimit. eapply run_within. apply send_within.
  - intros _. rewrite Hlimit. split; [|done].
    intros e He. revert He. generalize (kind_of e). intros k.
    unfold fee_calls, diagnosis_calls. rewrite !elem_of_cons, elem_of_app.
    rewrite !elem_of_cons, !elem_of_nil. intros H.
    split; intros ->; repeat (destruct H as [H|H]; try done).
  - intros Hyes. congruence.
Qed.

(** X17: every direct submission that [send] makes goes to the
    builder's contract and method, carries a gas limit, and carries
    every override of the builder with its value (a gas limit of the
    builder that reads as false is replaced by the estimate). *)
Theorem direct_submission_carries_overrides st :
  only_since (submission_ok (self st)) st (fst (send env st)).
Proof.
  eapply run_within. apply send_within.
  - intros _. split; [|done].
    intros e He. apply other_kind_submission_ok. intros Hk.
    rewrite Hk in He. destruct (truthy _);
      apply (bool_decide_pack _) in He; vm_compute in He; destruct He.
  - intros _. split; [|done].
    intros e He. apply other_kind_submission_ok. intros Hk.
    rewrite Hk in He.
    apply (bool_decide_pack _) in He; vm_compute in He; destruct He.
Qed.

(** X18: every submission to the relay that [send] makes names the
    builder's contract, method and overrides, and has a gas limit of at
    least 100000 and of at least the gas limit of the overrides. *)
Theorem relay_submission_limits st :
  only_since (relay_ok (self st)) st (fst (send env st)).
Proof.
  eapply run_within. apply send_within.
  - intros _. split; [|done].
    intros e He. apply other_kind_relay_ok. intros Hk.
    rewrite Hk in He. destruct (truthy _);
      apply (bool_decide_pack _) in He; vm_compute in He; destruct He.
  - intros _. split; [|done].
    intros e He. apply other_kind_relay_ok. intros Hk.
    rewrite Hk in He.
    apply (bool_decide_pack _) in He; vm_compute in He; destruct He.
Qed.

End Footprints.

(** ** Fees and costs *)

Section FeeShape.

Import Tx Calls.

Context {W : Type} (env : Env W).

Implicit Types st : State W.

Local Abbreviation shaped :=
  (fun g : gmap string oval =>
     g = ∅ \/
     (exists fee tip,
         g = <[ "maxFeePerGas" := OBigNumber fee ]>
               {[ "maxPriorityFeePerGas" := OBigNumber tip ]} /\
         parseUnits_2_5_gwei <= tip <= parseUnits_300_gwei) \/
     (exists price,
         g = {[ "gasPrice" := OBigNumber price ]} /\
         price <= parseUnits_300_gwei)).

Section Any.

(** An invariant that the calls concerned keep. *)
Variables (Inv : State W -> Prop) (stable : kind -> Prop).
Hypothesis kept :
  forall st ev w, stable (kind_of ev) -> Inv st -> Inv (after_call st ev w).

Lemma getGasPrice_capped :
  stable KGetGasPrice ->
  preserves Inv (getGasPrice env) (fun price => price <= parseUnits_300_gwei).
Proof.
  intros Hs. unfold getGasPrice.
  eapply (preserves_bind _ _ _ (fun _ => True));
    [by apply preserves_this|]. intros t _.
  eapply (preserves_bind _ _ _ (fun _ => True)).
  { apply preserves_call. intros. by apply kept. }
  intros gasPrice _. cbn zeta.
  case_bool_decide; apply preserves_ret; lia.
Qed.

Lemma getGasOverrides_shaped :
  (forall k, k ∈ fee_calls -> stable k) ->
  preserves Inv (getGasOverrides env)
    shaped.
Proof.
  intros Hs. unfold getGasOverrides.
  destruct (isBrowser env); [apply preserves_ret; by left|].
  eapply (preserves_bind _ _ _ (fun _ => True));
    [by apply preserves_this|]. intros t _.
  eapply (preserves_bind _ _ _ (fun _ => True)).
  { apply preserves_call. intros. apply kept; [|done].
    apply Hs, (bool_decide_unpack _). vm_compute. exact I. }
  intros feeData _.
  assert (preserves Inv
            (bind (getGasPrice env)
               (fun price => ret {[ "gasPrice" := OBigNumber price ]}))
            shaped) as Hlegacy.
  { eapply preserves_bind.
    - apply getGasPrice_capped, Hs, (bool_decide_unpack _).
      vm_compute. exact I.
    - intros price Hp. apply preserves_ret. right. right. eauto. }
  destruct (fd_maxFeePerGas feeData); [|exact Hlegacy].
  destruct (fd_maxPriorityFeePerGas feeData) as [reported|];
    [|exact Hlegacy].
  eapply (preserves_bind _ _ _ (fun _ => True)).
  { apply preserves_call. intros. apply kept; [|done].
    apply Hs, (bool_decide_unpack _). vm_compute. exact I. }
  intros chainId _.
  eapply (preserves_bind _ _ _ (fun _ => True)).
  { apply preserves_call. intros. apply kept; [|done].
    apply Hs, (bool_decide_unpack _). vm_compute. exact I. }
  intros block _. cbn zeta.
  eapply (preserves_bind _ _ _ (fun _ => True)).
  { destruct (_ || _); [|by apply preserves_ret].
    apply preserves_call. intros. apply kept; [|done].
    apply Hs, (bool_decide_unpack _). vm_compute. exact I. }
  intros defaultPriorityFee _. apply preserves_ret. right. left.
  eexists _, _. split; [done|]. apply getPreferredPriorityFee_bounds.
Qed.

End Any.

(** X19: the overrides that the fee policy computes are empty (in a
    browser), or a maximum fee with a priority fee between 2.5 and 300
    gwei, or a gas price of at most 300 gwei: never both kinds, and never
    another field such as a gas limit. *)
Theorem getGasOverrides_shape st st' g :
  getGasOverrides env st = (st', inr g) ->
  g = ∅ \/
  (exists fee tip,
      g = <[ "maxFeePerGas" := OBigNumber fee ]>
            {[ "maxPriorityFeePerGas" := OBigNumber tip ]} /\
      parseUnits_2_5_gwei <= tip <= parseUnits_300_gwei) \/
  (exists price,
      g = {[ "gasPrice" := OBigNumber price ]} /\
      price <= parseUnits_300_gwei).
Proof.
  intros Hrun.
  pose proof (getGasOverrides_shaped (fun _ => True) (fun _ => True)
                (fun _ _ _ _ _ => I) (fun _ _ => I) st I) as H.
  unfold wp in H. rewrite Hrun in H. by destruct H.
Qed.

Variable formatEther : Z -> string.

(** X20: when [estimateGasCost] returns, [estimateGasLimit] has
    returned a gas limit, the provider has then reported a gas price [p],
    and the cost in wei is that gas limit times the price that
    [getGasPrice] makes of [p]: [p] plus ten times the whole hundreds of
    wei in [p], and 300 gwei when that is more; the cost in ether is the
    same amount formatted.  On every run, the fee-market data, the gas
    station and the balance are not asked for, and nothing is
    submitted. *)
Theorem estimateGasCost_product st :
  only_since (fun e => kind_of e ∈ KGetGasPrice :: estimate_calls)
    st (fst (estimateGasCost env formatEther st)) /\
  forall st' cost,
    estimateGasCost env formatEther st = (st', inr cost) ->
    exists st1 gasLimit w p,
      estimateGasLimit env st = (st1, inr gasLimit) /\
      provider_getGasPrice env (provider (self st)) (world st1)
        = (w, inr p) /\
      getGasPrice env st1
        = (st', inr (Z.min (p + p ÷ 100 * 10) parseUnits_300_gwei)) /\
      wei cost = gasLimit * Z.min (p + p ÷ 100 * 10) parseUnits_300_gwei /\
      ether cost = formatEther (wei cost).
Proof.
  split.
  - eapply (run_within _ _ (fun _ => True)). unfold estimateGasCost.
    eapply (preserves_bind _ _ _ (fun _ => True)).
    { apply estimateGasLimit_within. intros e He.
      apply elem_of_cons. by right. }
    intros gasLimit _.
    eapply (preserves_bind _ _ _ (fun _ => True)).
    { apply getGasPrice_within. intros e He. rewrite He.
      apply elem_of_cons. by left. }
    intros gasPrice _. by apply preserves_ret.
  - intros st' cost Hrun.
    pose proof (estimateGasLimit_frame env (self st) (heap st) st
                  (conj eq_refl (reflexivity _))) as Hframe.
    unfold wp in Hframe.
    unfold estimateGasCost, bind at 1 in Hrun.
    destruct (estimateGasLimit env st) as [st1 [e|gasLimit]]; [done|].
    destruct Hframe as [[Hself _] _].
    unfold bind at 1 in Hrun.
    assert (forall w p,
               provider_getGasPrice env (provider (self st)) (world st1)
               = (w, inr p) ->
               getGasPrice env st1
               = (after_call st1 (EGetGasPrice (provider (self st))) w,
                  inr (Z.min (p + p ÷ 100 * 10) parseUnits_300_gwei)))
      as Hprice.
    { intros w p Hq. unfold getGasPrice, bind, this, call.
      rewrite Hself, Hq. cbv zeta. unfold after_call, ret.
      unfold parseUnits_300_gwei, gwei.
      case_bool_decide; do 2 f_equal; (done || lia). }
    destruct (provider_getGasPrice env (provider (self st)) (world st1))
      as [w [e|p]] eqn:Hq.
    + exfalso. unfold getGasPrice, bind, this, call in Hrun.
      rewrite Hself, Hq in Hrun. discriminate Hrun.
    + rewrite (Hprice w p eq_refl) in Hrun. unfold ret in Hrun.
      injection Hrun as <- <-.
      exists st1, gasLimit, w, p. by rewrite (Hprice w p eq_refl).
Qed.

End FeeShape.

(** ** Errors and their diagnosis *)

Section ErrorFacts.

Import Tx Calls.

Context {W : Type} (env : Env W).

Implicit Types st : State W.

(** X21: the diagnosis of an error does not depend on the metadata of
    the contract: when the network and the signer answer, the call can
    be encoded and its arguments can be rendered, [transactionError]
    returns a structured error with the reason, the transaction hash,
    the destination, the data, the value and the rendered call of the
    error at hand, whatever the metadata service and the storage do. *)
Theorem diagnosis_survives_missing_metadata
    st err elems data value name joinedArgs :
  answers (provider_getNetwork env (provider (self st))) ->
  answers (signer_getAddress env (signer (self st))) ->
  heap st !! args (self st) = Some elems ->
  encodeFunctionData env (contract (self st)) (method (self st)) elems
    (heap st) = inr data ->
  BigNumber_from (or_else (field (overrides (self st)) "value") (ONumber 0))
    = inr value ->
  getFunction_name env (contract (self st)) (method (self st)) = inr name ->
  render_arguments env elems (heap st) = inr joinedArgs ->
  exists st' e,
    transactionError env err st = (st', inr e) /\
    reason e = parseRevertReason env err /\
    te_hash e = hash_of err /\
    te_to e = address (contract (self st)) /\
    te_data e = data /\
    te_value e = value /\
    te_method e = name +:+ "(" +:+ joinedArgs +:+ ")".
Proof.
  intros Hnet Hsig Hargs Hdata Hvalue Hname Hrender.
  assert (wp (transactionError env err)
            (fun e _ =>
               reason e = parseRevertReason env err /\
               te_hash e = hash_of err /\
               te_to e = address (contract (self st)) /\
               te_data e = data /\ te_value e = value /\
               te_method e = name +:+ "(" +:+ joinedArgs +:+ ")")
            (fun _ _ => False) st) as H.
  { unfold transactionError. wp_steps;
      try match goal with
          | H : provider_getNetwork _ _ ?w = (_, inl _) |- _ =>
              destruct (Hnet w) as (? & ? & ?); congruence
          | H : signer_getAddress _ _ ?w = (_, inl _) |- _ =>
              destruct (Hsig w) as (? & ? & ?); congruence
          end;
      cbn [self heap world trace after_call] in *; simplify_eq;
      try congruence; repeat split; simpl; congruence. }
  unfold wp in H. destruct (transactionError env err st) as [st' [e|e]];
    [done|]. by exists st', e.
Qed.

(** The arguments are not rendered, and the diagnosis fails, when one
    of them is [undefined]. *)
Lemma undefined_argument_is_not_rendered before after h :
  (forall arg, arg ∈ before ->
               exists text, stringify_argument env arg h = inr text) ->
  JSON_stringify env VUndefined h = inr None ->
  render_arguments env (before ++ VUndefined :: after) h
  = inl (JsError "TypeError: cannot read properties of undefined (reading 'length')").
Proof.
  intros Hbefore Hundef. unfold render_arguments.
  assert (map_result (fun arg => stringify_argument env arg h)
            (before ++ VUndefined :: after)
          = inl (JsError "TypeError: cannot read properties of undefined (reading 'length')"))
    as ->; [|done].
  induction before as [|x xs IH]; cbn [app map_result].
  - unfold stringify_argument at 1. by rewrite Hundef.
  - destruct (Hbefore x) as [text ->]; [by left|].
    rewrite IH; [done|]. intros arg Harg. apply Hbefore. by right.
Qed.

Variable formatEther : Z -> string.

(** X22: on a contract without the method, [simulate],
    [estimateGasLimit], [estimateGasCost], [send] (with or without a
    relay) and [execute] all fail at once with the error that names the
    contract and the method: no collaborator is called and the state is
    the one before. *)
Theorem missing_function_is_refused st :
  has_function (contract (self st)) (method (self st)) = false ->
  simulate env st = (st, inl (functionError env (self st))) /\
  estimateGasLimit env st = (st, inl (functionError env (self st))) /\
  estimateGasCost env formatEther st
    = (st, inl (functionError env (self st))) /\
  send env st = (st, inl (functionError env (self st))) /\
  execute env st = (st, inl (functionError env (self st))).
Proof.
  intros Hno.
  assert (simulate env st = (st, inl (functionError env (self st)))) as Hs.
  { unfold simulate, bind, this. by rewrite Hno. }
  assert (estimateGasLimit env st = (st, inl (functionError env (self st))))
    as Hl.
  { unfold estimateGasLimit, bind, this. by rewrite Hno. }
  assert (send env st = (st, inl (functionError env (self st)))) as Hsend.
  { unfold send, bind, this. by rewrite Hno. }
  repeat split; try done.
  - unfold estimateGasCost, bind at 1. by rewrite Hl.
  - unfold execute, bind at 1. by rewrite Hsend.
Qed.

(** X23: when the estimate of the gas is rejected, [estimateGasLimit]
    never returns a limit.  It runs the simulation on the state that the
    rejected estimate left, and fails with the error of that simulation
    when the simulation fails; when the simulation goes through, it
    starts the diagnosis of the rejection from the state that the
    simulation left and fails with the pending diagnosis. *)
Theorem rejected_estimate_never_returns st w1 elems err :
  has_function (contract (self st)) (method (self st)) = true ->
  heap st !! args (self st) = Some elems ->
  contract_estimateGas env (contract (self st)) (method (self st)) elems
    (heap st) (Some (overrides (self st))) (world st) = (w1, inl err) ->
  exists st' e,
    estimateGasLimit env st = (st', inl e) /\
    (simulate env
       (after_call st
          (EEstimateGas (contract (self st)) (method (self st)) elems
             (Some (overrides (self st)))) w1) = (st', inl e)
     \/ exists st2 v,
          simulate env
            (after_call st
               (EEstimateGas (contract (self st)) (method (self st)) elems
                  (Some (overrides (self st)))) w1) = (st2, inr v) /\
          transactionError_promise err st2 = (st', inr e) /\
          e = PromiseOfDiagnosis err).
Proof.
  intros Hfun Hargs Hest.
  unfold estimateGasLimit, bind at 1, this at 1. rewrite Hfun. cbn [negb].
  unfold try_catch, bind at 1, read_array at 1. rewrite Hargs.
  unfold bind at 1, get_heap at 1, call at 1. rewrite Hest.
  unfold bind at 1, after_call.
  destruct (simulate env _) as [st2 [e|v]]; [by eauto|].
  unfold bind at 1.
  assert (exists st3,
             transactionError_promise err st2
             = (st3, inr (PromiseOfDiagnosis err))) as [st3 Hp].
  { unfold transactionError_promise, bind, this, issue, ret. by eexists. }
  rewrite Hp. unfold throw.
  exists st3, (PromiseOfDiagnosis err). split; [done|]. right.
  by exists st2, v.
Qed.

(** X24: when waiting for the transaction fails, [execute] never
    returns a result: it fails with the error of the simulation that it
    runs next, or, when the simulation goes through, with what the
    awaited diagnosis of the failed wait throws. *)
Theorem failed_wait_never_returns st st1 tx st2 err :
  send env st = (st1, inr tx) ->
  wait_for env tx st1 = (st2, inl err) ->
  exists st' e,
    execute env st = (st', inl e) /\
    (simulate env st2 = (st', inl e) \/
     exists st3 v,
       simulate env st2 = (st3, inr v) /\
       throw_diagnosed env (A := Receipt) err st3 = (st', inl e)).
Proof.
  intros Hsend Hwait. unfold execute, bind at 1. rewrite Hsend.
  unfold bind at 1, try_catch. rewrite Hwait. unfold bind at 1.
  destruct (simulate env st2) as [st3 [e|v]]; [by eauto|].
  destruct (@throw_diagnosed W env Receipt err st3) as [st4 [e|r]] eqn:Hd.
  - exists st4, e. split; [done|]. right. by exists st3, v.
  - exfalso. unfold throw_diagnosed, bind, throw in Hd.
    destruct (transactionError env err st3) as [? [?|?]]; discriminate.
Qed.

(** X25: [execute] returns a result only when both the sending and
    the waiting went through: the state is the one after the wait (no
    simulation was run), and the result is the receipt, passed through
    the parser when the builder has one. *)
Theorem execute_result st st' r :
  execute env st = (st', inr r) ->
  exists tx st1 receipt,
    send env st = (st1, inr tx) /\
    wait_for env tx st1 = (st', inr receipt) /\
    match parse (self st) with
    | Some f => f receipt = inr r
    | None => r = RawReceipt receipt
    end.
Proof.
  intros Hrun.
  pose proof (send_frame env (self st) (heap st) st
                (conj eq_refl (reflexivity _))) as Hself.
  unfold wp in Hself.
  unfold execute, bind at 1 in Hrun.
  destruct (send env st) as [st1 [e|tx]]; [done|].
  destruct Hself as [[Hself _] _].
  unfold bind at 1, try_catch in Hrun.
  assert (self (fst (wait_for env tx st1)) = self st1) as Hw.
  { unfold wait_for, call. destruct (wait tx) as [|p h];
      [destruct (transaction_wait env tx (world st1))
      |destruct (provider_waitForTransaction env p h (world st1))]; done. }
  destruct (wait_for env tx st1) as [st2 [err|receipt]] eqn:Hwait.
  - exfalso. unfold bind at 1 in Hrun.
    destruct (simulate env st2) as [st3 [e|v]]; [done|].
    unfold throw_diagnosed, bind, throw in Hrun.
    by destruct (transactionError env err st3) as [? [?|?]].
  - simpl in Hw. unfold bind, this in Hrun. rewrite Hw, Hself in Hrun.
    exists tx, st1, receipt.
    destruct (parse (self st)) as [f|].
    + unfold lift in Hrun. injection Hrun as <- Hr. auto.
    + unfold ret in Hrun. injection Hrun as <- <-. auto.
Qed.

(** *** Batches *)

Lemma on_execute_frame t st :
  self (fst (on t (execute env) st)) = self st /\
  heap st ⊆ heap (fst (on t (execute env) st)).
Proof.
  unfold on.
  pose proof (execute_keeps_builder env
                {| self := t; heap := heap st; world := world st;
                   trace := trace st |}) as [_ Hh].
  by destruct (execute env _) as [st' r].
Qed.

Lemma executeAll_loop_results l acc st :
  self (fst (executeAll_loop env l acc st)) = self st /\
  heap st ⊆ heap (fst (executeAll_loop env l acc st)) /\
  forall results,
    snd (executeAll_loop env l acc st) = inr results ->
    length results = (length acc + length l)%nat.
Proof.
  revert acc st. induction l as [|t l IH]; intros acc st.
  - simpl. repeat split; [done|]. intros results [= <-]. lia.
  - cbn [executeAll_loop]. unfold bind.
    destruct (on_execute_frame t st) as [Hs Hh].
    destruct (on t (execute env) st) as [st1 [e|r]]; simpl in Hs, Hh.
    + simpl. by repeat split.
    + destruct (IH (acc ++ [r]) st1) as (Hs' & Hh' & Hlen).
      split; [congruence|]. split; [by etrans|].
      intros results Hr. rewrite (Hlen _ Hr), length_app. simpl. lia.
Qed.

(** X26: [executeAll] leaves the caller's builder as it was and every
    array of the heap with its elements, whether it fails or not; when it
    returns, it returns one result for each builder of the batch. *)
Theorem executeAll_results transactions st :
  self (fst (executeAll env transactions st)) = self st /\
  heap st ⊆ heap (fst (executeAll env transactions st)) /\
  forall results,
    snd (executeAll env transactions st) = inr results ->
    length results = length transactions.
Proof.
  unfold executeAll.
  destruct (executeAll_loop_results transactions [] st) as (Hs & Hh & Hlen).
  repeat split; [done..|]. intros results Hr. by rewrite (Hlen _ Hr).
Qed.

End ErrorFacts.

(** ** Estimation inside [send], the priority fee and the setters *)

Section SendFacts.

Import Tx Calls.

Context {W : Type} (env : Env W).

Implicit Types st : State W.

(** The fee policy sets no gas limit and leaves the builder alone. *)
Lemma getGasOverrides_no_limit st st1 g :
  getGasOverrides env st = (st1, inr g) ->
  g !! "gasLimit" = None /\ self st1 = self st.
Proof.
  intros Hrun.
  pose proof (getGasOverrides_shaped env (fun _ => True) (fun _ => True)
                (fun _ _ _ _ _ => I) (fun _ _ => I) st I) as Hshape.
  pose proof (getGasOverrides_frame env (self st) (heap st) st
                (conj eq_refl (reflexivity _))) as Hframe.
  unfold wp in Hshape, Hframe. rewrite Hrun in Hshape, Hframe.
  destruct Hframe as [[Hself _] _]. split; [|done].
  destruct Hshape as [_ [->|[(fee & tip & -> & _)|(price & -> & _)]]]; done.
Qed.

(** X27: when the overrides hold no gas limit that reads as true and
    no relay is configured, a failure of [estimateGasLimit] is the
    failure of [send] and of [execute], with the same error and in the
    same state: nothing is submitted, no balance is looked up and the
    error is not diagnosed again. *)
Theorem estimation_failure_reaches_caller st st1 st2 g e :
  has_function (contract (self st)) (method (self st)) = true ->
  gasless_configured (gaslessOptions (self st)) = false ->
  truthy (field (overrides (self st)) "gasLimit") = false ->
  getGasOverrides env st = (st1, inr g) ->
  estimateGasLimit env st1 = (st2, inl e) ->
  send env st = (st2, inl e) /\ execute env st = (st2, inl e).
Proof.
  intros Hfun Hconf Hlimit Hfee Hest.
  destruct (getGasOverrides_no_limit _ _ _ Hfee) as [Hg _].
  assert (truthy (field (overrides (self st) ∪ g) "gasLimit") = false) as Hm.
  { unfold field in *. rewrite lookup_union.
    destruct (overrides (self st) !! "gasLimit") as [v|]; rewrite Hg; done. }
  assert (send env st = (st2, inl e)) as Hsend.
  { unfold send, bind at 1, this at 1. rewrite Hfun, Hconf. cbn [negb].
    unfold bind at 1. rewrite Hfee. cbn zeta. rewrite Hm. cbn [negb].
    unfold bind at 1, bind at 1. by rewrite Hest. }
  split; [done|]. unfold execute, bind at 1. by rewrite Hsend.
Qed.

(** X28: the priority fee that is attached grows with the priority
    fee that the network reports, and is never below a reported fee
    between zero and 300 gwei. *)
Theorem priority_fee_is_monotone p q :
  (p <= q -> getPreferredPriorityFee p <= getPreferredPriorityFee q) /\
  (0 <= p <= parseUnits_300_gwei -> p <= getPreferredPriorityFee p).
Proof.
  rewrite !getPreferredPriorityFee_clamp.
  unfold parseUnits_2_5_gwei, parseUnits_300_gwei, gwei. split.
  - intros Hpq. pose proof (Z.quot_le_mono p q 100 ltac:(lia) Hpq). lia.
  - intros Hp. pose proof (Z.quot_pos p 100 ltac:(lia) ltac:(lia)). lia.
Qed.

(** X29: two calls of [setOverrides] amount to one call with the
    second object laid over the first: a field set twice keeps the last
    value, also when that value is [undefined], and the order in which
    different fields are set makes no difference. *)
Theorem setOverrides_accumulates (o1 o2 : gmap string oval) st :
  bind (setOverrides o1) (fun _ => setOverrides o2) st
  = setOverrides (o2 ∪ o1) st /\
  (forall k v,
      o2 !! k = Some v ->
      field (overrides
               (self (fst (bind (setOverrides o1)
                             (fun _ => setOverrides o2) st)))) k = v) /\
  (dom o1 ## dom o2 ->
   bind (setOverrides o1) (fun _ => setOverrides o2) st
   = bind (setOverrides o2) (fun _ => setOverrides o1) st).
Proof.
  unfold setOverrides, bind, this, set_this. simpl. repeat split.
  - by rewrite (assoc_L (∪)).
  - intros k v Hk. unfold field.
    by rewrite (lookup_union_Some_l _ _ _ _ Hk).
  - intros Hdisj. apply map_disjoint_dom in Hdisj.
    rewrite !(assoc_L (∪)). by rewrite (map_union_comm o2 o1).
Qed.

End SendFacts.

(** ** A rejected submission *)

Section Rejection.

Import Tx Calls.

Context {W : Type} (env : Env W).

Implicit Types st : State W.

(** X30: when the contract rejects the submission, [send] looks up the
    balance of the sender and fails with a diagnosis: of the error that
    names insufficient funds when the balance is zero or below the value
    of the overrides (the rejection itself is then dropped), and of the
    rejection otherwise. *)
Theorem rejected_submission_diagnosis
    st st1 merged elems w2 err st3 from w4 balance v :
  has_function (contract (self st)) (method (self st)) = true ->
  gasless_configured (gaslessOptions (self st)) = false ->
  send_prepared env st st1 merged ->
  heap st1 !! args (self st) = Some elems ->
  contract_functions env (contract (self st)) (method (self st)) elems
    (heap st1) merged (world st1) = (w2, inl err) ->
  from_or_signer env merged
    (after_call st1
       (ESend (contract (self st)) (method (self st)) elems merged) w2)
    = (st3, inr from) ->
  provider_getBalance env (provider (self st)) from (world st3)
    = (w4, inr balance) ->
  (truthy (field merged "value") = true ->
   BigNumber_from (field merged "value") = inr v) ->
  send env st =
    throw_diagnosed env
      (if bool_decide (balance = 0)
          || (truthy (field merged "value") && bool_decide (balance < v))
       then JsError "You have insufficient funds in your account to execute this transaction."
       else err)
      (after_call st3 (EGetBalance (provider (self st)) from) w4).
Proof.
  intros Hfun Hconf (g & st0 & Hfee & Hprep) Hargs Hsend Hfrom Hbal Hvalue.
  assert (truthy (or_else (field merged "value") (ONumber 0))
          = truthy (field merged "value")) as Htr.
  { unfold or_else. by destruct (truthy (field merged "value")) eqn:Ht. }
  unfold send, bind at 1, this at 1. rewrite Hfun, Hconf. cbn [negb].
  unfold bind at 1. rewrite Hfee. cbn zeta. unfold bind at 1.
  assert (exists st',
             (if negb (truthy (field (overrides (self st) ∪ g) "gasLimit"))
              then bind (estimateGasLimit env)
                     (fun limit =>
                        ret (<[ "gasLimit" := OBigNumber limit ]>
                               (overrides (self st) ∪ g)))
              else ret (overrides (self st) ∪ g)) st0
             = (st', inr merged) /\ st' = st1) as (st' & -> & ->).
  { destruct (truthy (field (overrides (self st) ∪ g) "gasLimit"));
      cbn [negb].
    - destruct Hprep as [-> ->]. by eexists.
    - destruct Hprep as (limit & Hest & ->). unfold bind, ret.
      rewrite Hest. by eexists. }
  unfold try_catch, bind at 1, read_array at 1. rewrite Hargs.
  unfold bind at 1, get_heap at 1, call at 1. rewrite Hsend.
  unfold bind at 1. unfold after_call in Hfrom. rewrite Hfrom.
  unfold bind at 1, call at 1. rewrite Hbal. unfold after_call.
  destruct (bool_decide (balance = 0)); [done|]. cbn [orb].
  rewrite Htr. destruct (truthy (field merged "value")) eqn:Ht;
    cbn [andb]; [|done].
  unfold or_else. rewrite Ht.
  unfold bind at 1, bind at 1, lift at 1. rewrite (Hvalue eq_refl).
  unfold ret at 1. by destruct (bool_decide (balance < v)).
Qed.

End Rejection.


(** ** The further theorems at work *)

Lemma getProviderFromRpcUrl_falls_back_witness :
  exists h,
    snd (Provider.getProviderFromRpcUrl UrlScenario.only_default
           "https://rpc.example/v1" (Some 5) Provider.initial) = inr h.
Proof.
  apply (getProviderFromRpcUrl_falls_back UrlScenario.only_default
           "https://rpc.example/v1" (Some 5) Provider.initial).
  reflexivity.
Defined.

Lemma call_touches_own_key_only_witness :
  Provider.RPC_PROVIDER_MAP
    (fst (Provider.getProviderFromRpcUrl UrlScenario.never
            "https://rpc.example/v1" (Some 5)
            (Provider.calls UrlScenario.never
               [("https://other.example/v1", Some 1)] Provider.initial)))
    !! Provider.seralizedOpts "https://other.example/v1" (Some 1)
  = Provider.RPC_PROVIDER_MAP
      (Provider.calls UrlScenario.never
         [("https://other.example/v1", Some 1)] Provider.initial)
      !! Provider.seralizedOpts "https://other.example/v1" (Some 1).
Proof.
  apply (call_touches_own_key_only UrlScenario.never
           "https://rpc.example/v1" (Some 5)
           (Provider.calls UrlScenario.never
              [("https://other.example/v1", Some 1)] Provider.initial)
           (Provider.seralizedOpts "https://other.example/v1" (Some 1))).
  left. vm_compute. discriminate.
Defined.

Lemma cached_objects_distinct_witness :
  Provider.RPC_PROVIDER_MAP
    (Provider.calls UrlScenario.never
       [("https://rpc.example/v1", Some 5)] Provider.initial)
    !! Provider.seralizedOpts "https://rpc.example/v1" (Some 5)
  = Some (Provider.mkHandle 0
            (Provider.StaticJsonRpcBatchProvider "https://rpc.example/v1" 5)) /\
  Provider.seralizedOpts "https://rpc.example/v1" (Some 5)
  = Provider.seralizedOpts "https://rpc.example/v1" (Some 5).
Proof.
  assert (Provider.RPC_PROVIDER_MAP
            (Provider.calls UrlScenario.never
               [("https://rpc.example/v1", Some 5)] Provider.initial)
            !! Provider.seralizedOpts "https://rpc.example/v1" (Some 5)
          = Some (Provider.mkHandle 0
                    (Provider.StaticJsonRpcBatchProvider
                       "https://rpc.example/v1" 5))) as H
    by (vm_compute; reflexivity).
  split; [exact H|].
  exact (cached_objects_distinct UrlScenario.never
           [("https://rpc.example/v1", Some 5)] _ _ _ _ H H eq_refl).
Defined.

Lemma streaming_provider_never_cached_witness :
  Provider.RPC_PROVIDER_MAP
    (fst (Provider.getProviderFromRpcUrl UrlScenario.never
            "wss://rpc.example/ws" (Some 5)
            (Provider.calls UrlScenario.never
               [("https://rpc.example/v1", Some 5)] Provider.initial)))
    !! Provider.seralizedOpts "https://rpc.example/v1" (Some 5)
  = Some (Provider.mkHandle 0
            (Provider.StaticJsonRpcBatchProvider "https://rpc.example/v1" 5)) /\
  ~ Provider.same_object
      (Provider.mkHandle 0
         (Provider.StaticJsonRpcBatchProvider "https://rpc.example/v1" 5))
      (Provider.mkHandle 1
         (Provider.WebSocketProvider "wss://rpc.example/ws" (Some 5))).
Proof.
  assert (Provider.RPC_PROVIDER_MAP
            (fst (Provider.getProviderFromRpcUrl UrlScenario.never
                    "wss://rpc.example/ws" (Some 5)
                    (Provider.calls UrlScenario.never
                       [("https://rpc.example/v1", Some 5)] Provider.initial)))
            !! Provider.seralizedOpts "https://rpc.example/v1" (Some 5)
          = Some (Provider.mkHandle 0
                    (Provider.StaticJsonRpcBatchProvider
                       "https://rpc.example/v1" 5))) as H
    by (vm_compute; reflexivity).
  split; [exact H|].
  exact (streaming_provider_never_cached UrlScenario.never
           [("https://rpc.example/v1", Some 5)]
           "wss://rpc.example/ws" (Some 5) _ _ _ _ eq_refl eq_refl H).
Defined.

Lemma cache_key_injective_witness :
  Provider.seralizedOpts "https://rpc.example/v1" (Some 5)
  = Provider.seralizedOpts "https://rpc.example/v1" (Some 5) /\
  "https://rpc.example/v1" = "https://rpc.example/v1" /\ 5 = 5.
Proof.
  split; [reflexivity|].
  apply (cache_key_injective "https://rpc.example/v1"
           "https://rpc.example/v1" 5 5); [lia|lia|reflexivity].
Defined.

Lemma cache_key_of_no_chain_id_witness :
  Provider.seralizedOpts "https://rpc.example/v1" None
  = Provider.seralizedOpts "https://rpc.example/v1-" (Some 1) <->
  "https://rpc.example/v1-" = "https://rpc.example/v1" +:+ "-" /\ 1 = 1.
Proof.
  apply (cache_key_of_no_chain_id "https://rpc.example/v1"
           "https://rpc.example/v1-" 1). lia.
Defined.

Lemma no_chain_id_shares_entry_witness :
  exists h,
    snd (Provider.getProviderFromRpcUrl UrlScenario.never
           "https://rpc.example/v1" None Provider.initial) = inr h /\
    snd (Provider.getProviderFromRpcUrl UrlScenario.never
           ("https://rpc.example/v1" +:+ "-") (Some 1)
           (fst (Provider.getProviderFromRpcUrl UrlScenario.never
                   "https://rpc.example/v1" None Provider.initial))) = inr h /\
    Provider.made h = Provider.JsonRpcBatchProvider "https://rpc.example/v1".
Proof.
  apply (no_chain_id_shares_entry UrlScenario.never
           "https://rpc.example/v1" Provider.initial); reflexivity.
Defined.

Lemma buildDefaultMap_last_wins_witness :
  exists rpcMap,
    UrlScenario.buildDefaultMap (UrlScenario.mine :: UrlScenario.supported)
      = inr rpcMap /\
    forall n, rpcMap !! n
              = last (filter (fun c => fst c = n)
                        (Chains.supportedChains UrlScenario.Chain
                           {| Chains.supportedChains :=
                                UrlScenario.mine :: UrlScenario.supported;
                              Chains.thirdwebApiKey := EmptyString;
                              Chains.infuraApiKey := None;
                              Chains.alchemyApiKey := None |})).
Proof.
  apply (buildDefaultMap_last_wins UrlScenario.Chain fst
           (list UrlScenario.Chain) UrlScenario.parse
           (UrlScenario.mine :: UrlScenario.supported)).
  reflexivity.
Defined.

Lemma chain_name_resolves_to_its_id_witness :
  Chains.CHAIN_ID_TO_NAME UrlScenario.value !! 137 = Some "polygon" /\
  Chains.getChainIdFromNetwork UrlScenario.value UrlScenario.inherited
    UrlScenario.Chain fst (Chains.NString "polygon")
  = inr (Chains.IdNumber 137).
Proof.
  assert (Chains.CHAIN_ID_TO_NAME UrlScenario.value !! 137 = Some "polygon")
    as H by (vm_compute; reflexivity).
  split; [exact H|].
  exact (chain_name_resolves_to_its_id UrlScenario.value
           UrlScenario.inherited UrlScenario.Chain fst 137 "polygon" H).
Defined.

Lemma value_inj : Inj (=) (=) UrlScenario.value.
Proof. intros x y H. destruct x, y; (reflexivity || discriminate H). Qed.

Lemma chain_aliases_are_not_inverted_witness :
  (Chains.CHAIN_ID_TO_NAME UrlScenario.value
     !! UrlScenario.value Chains.Polygon = Some "matic" <->
   "matic" <> "avalanche-fuji" /\ "matic" <> "ethereum" /\ "matic" <> "matic") /\
  ("matic" = "avalanche-fuji" ->
   Chains.CHAIN_ID_TO_NAME UrlScenario.value
     !! UrlScenario.value Chains.Polygon = Some "avalanche-testnet") /\
  ("matic" = "ethereum" ->
   Chains.CHAIN_ID_TO_NAME UrlScenario.value
     !! UrlScenario.value Chains.Polygon = Some "mainnet") /\
  ("matic" = "matic" ->
   Chains.CHAIN_ID_TO_NAME UrlScenario.value
     !! UrlScenario.value Chains.Polygon = Some "polygon").
Proof.
  apply (chain_aliases_are_not_inverted UrlScenario.value "matic"
           Chains.Polygon value_inj).
  apply (bool_decide_unpack _). vm_compute. exact I.
Defined.

Lemma getChainProvider_hands_over_witness :
  UrlScenario.getChainProvider (Chains.NNumber 137) UrlScenario.supported
    Provider.initial
  = Chains.lift_provider
      (Provider.getProviderFromRpcUrl UrlScenario.never
         "https://polygon.example/rpc" (Some 137) Provider.initial) /\
  UrlScenario.getChainProvider (Chains.NNumber 5) UrlScenario.supported
    Provider.initial
  = Chains.lift_provider
      (Provider.getProviderFromRpcUrl UrlScenario.never
         "https://5.rpc.thirdweb.com/key" (Some 5) Provider.initial).
Proof.
  split.
  - apply (proj1 (getChainProvider_hands_over UrlScenario.value
                    UrlScenario.inherited UrlScenario.Chain fst
                    (list UrlScenario.Chain) UrlScenario.parse
                    (Chains.supportedChains UrlScenario.Chain)
                    UrlScenario.getChainRPC "key"
                    (fun _ => "function () { [native code] }")
                    (fun url _ =>
                       Provider.getDefaultProvider UrlScenario.never url)
                    UrlScenario.never
                    (Chains.NNumber 137) UrlScenario.supported
                    {| Chains.supportedChains := UrlScenario.supported;
                       Chains.thirdwebApiKey := EmptyString;
                       Chains.infuraApiKey := None;
                       Chains.alchemyApiKey := None |}
                    (Chains.chain_map UrlScenario.Chain fst
                       UrlScenario.supported)
                    137 Provider.initial
                    eq_refl eq_refl eq_refl eq_refl)).
    + vm_compute. reflexivity.
    + discriminate.
  - apply (proj2 (getChainProvider_hands_over UrlScenario.value
                    UrlScenario.inherited UrlScenario.Chain fst
                    (list UrlScenario.Chain) UrlScenario.parse
                    (Chains.supportedChains UrlScenario.Chain)
                    UrlScenario.getChainRPC "key"
                    (fun _ => "function () { [native code] }")
                    (fun url _ =>
                       Provider.getDefaultProvider UrlScenario.never url)
                    UrlScenario.never
                    (Chains.NNumber 5) UrlScenario.supported
                    {| Chains.supportedChains := UrlScenario.supported;
                       Chains.thirdwebApiKey := EmptyString;
                       Chains.infuraApiKey := None;
                       Chains.alchemyApiKey := None |}
                    (Chains.chain_map UrlScenario.Chain fst
                       UrlScenario.supported)
                    5 Provider.initial
                    eq_refl eq_refl eq_refl eq_refl)).
    intros url H. vm_compute in H. discriminate H.
Defined.

Lemma passed_chain_is_shadowed_witness :
  UrlScenario.getChainProvider (Chains.NChain UrlScenario.mine)
    UrlScenario.supported Provider.initial
  = Chains.lift_provider
      (Provider.getProviderFromRpcUrl UrlScenario.never
         "https://one.example/rpc" (Some 1) Provider.initial).
Proof.
  apply (passed_chain_is_shadowed UrlScenario.value
           UrlScenario.inherited UrlScenario.Chain fst
           (list UrlScenario.Chain) UrlScenario.parse
           (Chains.supportedChains UrlScenario.Chain)
           UrlScenario.getChainRPC "key"
           (fun _ => "function () { [native code] }")
           (fun url _ => Provider.getDefaultProvider UrlScenario.never url)
           UrlScenario.never
           UrlScenario.mine UrlScenario.supported
           {| Chains.supportedChains := UrlScenario.supported;
              Chains.thirdwebApiKey := EmptyString;
              Chains.infuraApiKey := None;
              Chains.alchemyApiKey := None |}
           Provider.initial); reflexivity.
Defined.

Lemma getChainProvider_reuses_witness :
  exists h,
    snd (UrlScenario.getChainProvider (Chains.NNumber 137)
           UrlScenario.supported Provider.initial) = inr h /\
    UrlScenario.getChainProvider (Chains.NNumber 137) UrlScenario.supported
      (fst (UrlScenario.getChainProvider (Chains.NNumber 137)
              UrlScenario.supported Provider.initial))
    = (fst (UrlScenario.getChainProvider (Chains.NNumber 137)
              UrlScenario.supported Provider.initial), inr h).
Proof.
  apply (getChainProvider_reuses UrlScenario.value
           UrlScenario.inherited UrlScenario.Chain fst
           (list UrlScenario.Chain) UrlScenario.parse
           (Chains.supportedChains UrlScenario.Chain)
           UrlScenario.getChainRPC "key"
           (fun _ => "function () { [native code] }")
           (fun url _ => Provider.getDefaultProvider UrlScenario.never url)
           UrlScenario.never
           (Chains.NNumber 137) UrlScenario.supported
           {| Chains.supportedChains := UrlScenario.supported;
              Chains.thirdwebApiKey := EmptyString;
              Chains.infuraApiKey := None;
              Chains.alchemyApiKey := None |}
           (Chains.chain_map UrlScenario.Chain fst UrlScenario.supported)
           137 Provider.initial); reflexivity.
Defined.

Lemma explicit_gas_limit_skips_estimation_witness :
  Calls.only_since
    (fun e => Calls.kind_of e <> Calls.KEstimateGas
              /\ Calls.kind_of e <> Calls.KCallStatic)
    (Scenario.start
       (Scenario.builder "transfer" {[ "gasLimit" := Tx.ONumber 90000 ]} None)
       Scenario.transfer_heap)
    (fst (Tx.send Scenario.mainnet
            (Scenario.start
               (Scenario.builder "transfer"
                  {[ "gasLimit" := Tx.ONumber 90000 ]} None)
               Scenario.transfer_heap))).
Proof.
  apply (explicit_gas_limit_skips_estimation Scenario.mainnet
           (Scenario.start
              (Scenario.builder "transfer"
                 {[ "gasLimit" := Tx.ONumber 90000 ]} None)
              Scenario.transfer_heap)); reflexivity.
Defined.

Lemma getGasOverrides_shape_witness :
  (<[ "maxFeePerGas" := Tx.OBigNumber 43300000000 ]>
     {[ "maxPriorityFeePerGas" := Tx.OBigNumber 3300000000 ]}
   : gmap string Tx.oval) = ∅ \/
  (exists fee tip,
      (<[ "maxFeePerGas" := Tx.OBigNumber 43300000000 ]>
         {[ "maxPriorityFeePerGas" := Tx.OBigNumber 3300000000 ]}
       : gmap string Tx.oval)
      = <[ "maxFeePerGas" := Tx.OBigNumber fee ]>
          {[ "maxPriorityFeePerGas" := Tx.OBigNumber tip ]} /\
      Tx.parseUnits_2_5_gwei <= tip <= Tx.parseUnits_300_gwei) \/
  (exists price,
      (<[ "maxFeePerGas" := Tx.OBigNumber 43300000000 ]>
         {[ "maxPriorityFeePerGas" := Tx.OBigNumber 3300000000 ]}
       : gmap string Tx.oval)
      = {[ "gasPrice" := Tx.OBigNumber price ]} /\
      price <= Tx.parseUnits_300_gwei).
Proof.
  assert (Tx.getGasOverrides Scenario.mainnet Scenario.batch_start
          = (fst (Tx.getGasOverrides Scenario.mainnet Scenario.batch_start),
             inr (<[ "maxFeePerGas" := Tx.OBigNumber 43300000000 ]>
                    {[ "maxPriorityFeePerGas" := Tx.OBigNumber 3300000000 ]})))
    as H by (vm_compute; reflexivity).
  exact (getGasOverrides_shape Scenario.mainnet Scenario.batch_start _ _ H).
Defined.

Lemma estimateGasCost_product_witness :
  exists st1 gasLimit w p,
    Tx.estimateGasLimit
      (Scenario.environment (Scenario.answers 0 (3 * Tx.gwei) 21000))
      Scenario.batch_start = (st1, inr gasLimit) /\
    Tx.provider_getGasPrice
      (Scenario.environment (Scenario.answers 0 (3 * Tx.gwei) 21000))
      (Tx.provider (Tx.self Scenario.batch_start)) (Tx.world st1)
      = (w, inr p) /\
    Tx.getGasPrice
      (Scenario.environment (Scenario.answers 0 (3 * Tx.gwei) 21000)) st1
      = (fst (Calls.estimateGasCost
                (Scenario.environment (Scenario.answers 0 (3 * Tx.gwei) 21000))
                (fun z => pretty z) Scenario.batch_start),
         inr (Z.min (p + p ÷ 100 * 10) Tx.parseUnits_300_gwei)) /\
    Calls.wei {| Calls.ether := "69300000000000";
                 Calls.wei := 69300000000000 |}
    = gasLimit * Z.min (p + p ÷ 100 * 10) Tx.parseUnits_300_gwei /\
    Calls.ether {| Calls.ether := "69300000000000";
                   Calls.wei := 69300000000000 |}
    = pretty (Calls.wei {| Calls.ether := "69300000000000";
                           Calls.wei := 69300000000000 |}).
Proof.
  assert (Calls.estimateGasCost
            (Scenario.environment (Scenario.answers 0 (3 * Tx.gwei) 21000))
            (fun z => pretty z) Scenario.batch_start
          = (fst (Calls.estimateGasCost
                    (Scenario.environment
                       (Scenario.answers 0 (3 * Tx.gwei) 21000))
                    (fun z => pretty z) Scenario.batch_start),
             inr {| Calls.ether := "69300000000000";
                    Calls.wei := 69300000000000 |}))
    as H by (vm_compute; reflexivity).
  exact (proj2 (estimateGasCost_product
                  (Scenario.environment
                     (Scenario.answers 0 (3 * Tx.gwei) 21000))
                  (fun z => pretty z) Scenario.batch_start) _ _ H).
Defined.

Lemma diagnosis_survives_missing_metadata_witness :
  exists st' e,
    Tx.transactionError Scenario.mainnet Scenario.rejected
      Scenario.batch_start = (st', inr e) /\
    Tx.reason e = Tx.parseRevertReason Scenario.mainnet Scenario.rejected /\
    Tx.te_hash e = Tx.hash_of Scenario.rejected /\
    Tx.te_to e = Tx.address (Tx.contract (Tx.self Scenario.batch_start)) /\
    Tx.te_data e = [Byte.x01] /\
    Tx.te_value e = 0 /\
    Tx.te_method e = "transfer" +:+ "(" +:+ "null" +:+ ")".
Proof.
  apply (diagnosis_survives_missing_metadata Scenario.mainnet
           Scenario.batch_start Scenario.rejected [Tx.VHex [Byte.x01]]
           [Byte.x01] 0 "transfer" "null");
    try (vm_compute; reflexivity); apply served_answers.
Defined.

Lemma missing_function_is_refused_witness :
  Tx.simulate Scenario.mainnet
    (Scenario.start (Scenario.builder "burn" ∅ None) Scenario.transfer_heap)
  = (Scenario.start (Scenario.builder "burn" ∅ None) Scenario.transfer_heap,
     inl (Tx.functionError Scenario.mainnet (Scenario.builder "burn" ∅ None)))
  /\
  Tx.estimateGasLimit Scenario.mainnet
    (Scenario.start (Scenario.builder "burn" ∅ None) Scenario.transfer_heap)
  = (Scenario.start (Scenario.builder "burn" ∅ None) Scenario.transfer_heap,
     inl (Tx.functionError Scenario.mainnet (Scenario.builder "burn" ∅ None)))
  /\
  Calls.estimateGasCost Scenario.mainnet (fun z => pretty z)
    (Scenario.start (Scenario.builder "burn" ∅ None) Scenario.transfer_heap)
  = (Scenario.start (Scenario.builder "burn" ∅ None) Scenario.transfer_heap,
     inl (Tx.functionError Scenario.mainnet (Scenario.builder "burn" ∅ None)))
  /\
  Tx.send Scenario.mainnet
    (Scenario.start (Scenario.builder "burn" ∅ None) Scenario.transfer_heap)
  = (Scenario.start (Scenario.builder "burn" ∅ None) Scenario.transfer_heap,
     inl (Tx.functionError Scenario.mainnet (Scenario.builder "burn" ∅ None)))
  /\
  Tx.execute Scenario.mainnet
    (Scenario.start (Scenario.builder "burn" ∅ None) Scenario.transfer_heap)
  = (Scenario.start (Scenario.builder "burn" ∅ None) Scenario.transfer_heap,
     inl (Tx.functionError Scenario.mainnet (Scenario.builder "burn" ∅ None))).
Proof.
  apply (missing_function_is_refused Scenario.mainnet (fun z => pretty z)
           (Scenario.start (Scenario.builder "burn" ∅ None)
              Scenario.transfer_heap)).
  reflexivity.
Defined.

Lemma rejected_estimate_never_returns_witness :
  exists st' e,
    Tx.estimateGasLimit (Scenario.environment Scenario.answers_no_estimate)
      Scenario.batch_start = (st', inl e) /\
    (Tx.simulate (Scenario.environment Scenario.answers_no_estimate)
       (Tx.after_call Scenario.batch_start
          (Tx.EEstimateGas
             (Tx.contract (Tx.self Scenario.batch_start))
             (Tx.method (Tx.self Scenario.batch_start))
             [Tx.VHex [Byte.x01]]
             (Some (Tx.overrides (Tx.self Scenario.batch_start))))
          1%nat) = (st', inl e)
     \/ exists st2 v,
          Tx.simulate (Scenario.environment Scenario.answers_no_estimate)
            (Tx.after_call Scenario.batch_start
               (Tx.EEstimateGas
                  (Tx.contract (Tx.self Scenario.batch_start))
                  (Tx.method (Tx.self Scenario.batch_start))
                  [Tx.VHex [Byte.x01]]
                  (Some (Tx.overrides (Tx.self Scenario.batch_start))))
               1%nat) = (st2, inr v) /\
          Tx.transactionError_promise Scenario.rejected st2 = (st', inr e) /\
          e = Tx.PromiseOfDiagnosis Scenario.rejected).
Proof.
  apply (rejected_estimate_never_returns
           (Scenario.environment Scenario.answers_no_estimate)
           Scenario.batch_start 1%nat [Tx.VHex [Byte.x01]] Scenario.rejected);
    reflexivity.
Defined.

Lemma failed_wait_never_returns_witness :
  exists st' e,
    Tx.execute (Scenario.environment answers_no_wait) Scenario.batch_start
      = (st', inl e) /\
    (Tx.simulate (Scenario.environment answers_no_wait)
       (fst (Tx.wait_for (Scenario.environment answers_no_wait)
               {| Tx.hash := Scenario.txHash; Tx.wait := Tx.WaitOwn |}
               (fst (Tx.send (Scenario.environment answers_no_wait)
                       Scenario.batch_start)))) = (st', inl e) \/
     exists st3 v,
       Tx.simulate (Scenario.environment answers_no_wait)
         (fst (Tx.wait_for (Scenario.environment answers_no_wait)
                 {| Tx.hash := Scenario.txHash; Tx.wait := Tx.WaitOwn |}
                 (fst (Tx.send (Scenario.environment answers_no_wait)
                         Scenario.batch_start)))) = (st3, inr v) /\
       Tx.throw_diagnosed (Scenario.environment answers_no_wait)
         (A := Tx.Receipt) Scenario.rejected st3 = (st', inl e)).
Proof.
  assert (Tx.send (Scenario.environment answers_no_wait) Scenario.batch_start
          = (fst (Tx.send (Scenario.environment answers_no_wait)
                    Scenario.batch_start),
             inr {| Tx.hash := Scenario.txHash; Tx.wait := Tx.WaitOwn |}))
    as Hsend by (vm_compute; reflexivity).
  assert (Tx.wait_for (Scenario.environment answers_no_wait)
            {| Tx.hash := Scenario.txHash; Tx.wait := Tx.WaitOwn |}
            (fst (Tx.send (Scenario.environment answers_no_wait)
                    Scenario.batch_start))
          = (fst (Tx.wait_for (Scenario.environment answers_no_wait)
                    {| Tx.hash := Scenario.txHash; Tx.wait := Tx.WaitOwn |}
                    (fst (Tx.send (Scenario.environment answers_no_wait)
                            Scenario.batch_start))),
             inl Scenario.rejected))
    as Hwait by (vm_compute; reflexivity).
  exact (failed_wait_never_returns (Scenario.environment answers_no_wait)
           Scenario.batch_start _ _ _ _ Hsend Hwait).
Defined.

Lemma execute_result_witness :
  exists tx st1 receipt,
    Tx.send Scenario.mainnet Scenario.batch_start = (st1, inr tx) /\
    Tx.wait_for Scenario.mainnet tx st1
      = (fst (Tx.execute Scenario.mainnet Scenario.batch_start),
         inr receipt) /\
    match Tx.parse (Tx.self Scenario.batch_start) with
    | Some f =>
        f receipt
        = inr (Tx.RawReceipt {| Tx.transactionHash := Scenario.txHash;
                                Tx.blockNumber := 1 |})
    | None =>
        Tx.RawReceipt {| Tx.transactionHash := Scenario.txHash;
                         Tx.blockNumber := 1 |}
        = Tx.RawReceipt receipt
    end.
Proof.
  assert (Tx.execute Scenario.mainnet Scenario.batch_start
          = (fst (Tx.execute Scenario.mainnet Scenario.batch_start),
             inr (Tx.RawReceipt {| Tx.transactionHash := Scenario.txHash;
                                   Tx.blockNumber := 1 |})))
    as H by (vm_compute; reflexivity).
  exact (execute_result Scenario.mainnet Scenario.batch_start _ _ H).
Defined.

Lemma estimation_failure_reaches_caller_witness :
  Tx.send (Scenario.environment Scenario.answers_no_estimate)
    Scenario.batch_start
  = (fst (Tx.estimateGasLimit
            (Scenario.environment Scenario.answers_no_estimate)
            (fst (Tx.getGasOverrides
                    (Scenario.environment Scenario.answers_no_estimate)
                    Scenario.batch_start))),
     inl (Tx.PromiseOfDiagnosis Scenario.rejected)) /\
  Tx.execute (Scenario.environment Scenario.answers_no_estimate)
    Scenario.batch_start
  = (fst (Tx.estimateGasLimit
            (Scenario.environment Scenario.answers_no_estimate)
            (fst (Tx.getGasOverrides
                    (Scenario.environment Scenario.answers_no_estimate)
                    Scenario.batch_start))),
     inl (Tx.PromiseOfDiagnosis Scenario.rejected)).
Proof.
  assert (Tx.getGasOverrides
            (Scenario.environment Scenario.answers_no_estimate)
            Scenario.batch_start
          = (fst (Tx.getGasOverrides
                    (Scenario.environment Scenario.answers_no_estimate)
                    Scenario.batch_start),
             inr (<[ "maxFeePerGas" := Tx.OBigNumber 43300000000 ]>
                    {[ "maxPriorityFeePerGas" := Tx.OBigNumber 3300000000 ]})))
    as Hfee by (vm_compute; reflexivity).
  assert (Tx.estimateGasLimit
            (Scenario.environment Scenario.answers_no_estimate)
            (fst (Tx.getGasOverrides
                    (Scenario.environment Scenario.answers_no_estimate)
                    Scenario.batch_start))
          = (fst (Tx.estimateGasLimit
                    (Scenario.environment Scenario.answers_no_estimate)
                    (fst (Tx.getGasOverrides
                            (Scenario.environment Scenario.answers_no_estimate)
                            Scenario.batch_start))),
             inl (Tx.PromiseOfDiagnosis Scenario.rejected)))
    as Hest by (vm_compute; reflexivity).
  exact (estimation_failure_reaches_caller
           (Scenario.environment Scenario.answers_no_estimate)
           Scenario.batch_start _ _ _ _ eq_refl eq_refl eq_refl Hfee Hest).
Defined.

Lemma rejected_submission_diagnosis_witness :
  Tx.send (Scenario.environment answers_no_funds)
    (Scenario.start
       (Scenario.builder "transfer" {[ "from" := Tx.OHex Scenario.sender ]}
          None)
       Scenario.transfer_heap)
  = Tx.throw_diagnosed (Scenario.environment answers_no_funds)
      (if bool_decide (0 = 0)
          || (Tx.truthy
                (Tx.field
                   (<[ "gasLimit" := Tx.OBigNumber 21000 ]>
                      ({[ "from" := Tx.OHex Scenario.sender ]}
                       ∪ <[ "maxFeePerGas" := Tx.OBigNumber 43300000000 ]>
                           {[ "maxPriorityFeePerGas" :=
                                Tx.OBigNumber 3300000000 ]}))
                   "value")
              && bool_decide (0 < 0))
       then Tx.JsError "You have insufficient funds in your account to execute this transaction."
       else Scenario.rejected)
      (Tx.after_call
         (Tx.after_call
            (fst (Tx.estimateGasLimit (Scenario.environment answers_no_funds)
                    (fst (Tx.getGasOverrides
                            (Scenario.environment answers_no_funds)
                            (Scenario.start
                               (Scenario.builder "transfer"
                                  {[ "from" := Tx.OHex Scenario.sender ]}
                                  None)
                               Scenario.transfer_heap)))))
            (Tx.ESend
               (Tx.contract
                  (Tx.self
                     (Scenario.start
                        (Scenario.builder "transfer"
                           {[ "from" := Tx.OHex Scenario.sender ]} None)
                        Scenario.transfer_heap)))
               (Tx.method
                  (Tx.self
                     (Scenario.start
                        (Scenario.builder "transfer"
                           {[ "from" := Tx.OHex Scenario.sender ]} None)
                        Scenario.transfer_heap)))
               [Tx.VHex [Byte.x01]]
               (<[ "gasLimit" := Tx.OBigNumber 21000 ]>
                  ({[ "from" := Tx.OHex Scenario.sender ]}
                   ∪ <[ "maxFeePerGas" := Tx.OBigNumber 43300000000 ]>
                       {[ "maxPriorityFeePerGas" :=
                            Tx.OBigNumber 3300000000 ]})))
            5%nat)
         (Tx.EGetBalance
            (Tx.provider
               (Tx.self
                  (Scenario.start
                     (Scenario.builder "transfer"
                        {[ "from" := Tx.OHex Scenario.sender ]} None)
                     Scenario.transfer_heap)))
            (Tx.OHex Scenario.sender)) 6%nat).
Proof.
  set (env := Scenario.environment answers_no_funds).
  set (st := Scenario.start
               (Scenario.builder "transfer"
                  {[ "from" := Tx.OHex Scenario.sender ]} None)
               Scenario.transfer_heap).
  set (g := (<[ "maxFeePerGas" := Tx.OBigNumber 43300000000 ]>
               {[ "maxPriorityFeePerGas" := Tx.OBigNumber 3300000000 ]}
             : gmap string Tx.oval)).
  set (merged := <[ "gasLimit" := Tx.OBigNumber 21000 ]>
                   ({[ "from" := Tx.OHex Scenario.sender ]} ∪ g)).
  set (st1 := fst (Tx.estimateGasLimit env (fst (Tx.getGasOverrides env st)))).
  assert (Calls.send_prepared env st st1 merged) as Hprep.
  { exists g, (fst (Tx.getGasOverrides env st)).
    split; [vm_compute; reflexivity|].
    assert (Tx.truthy (Tx.field (Tx.overrides (Tx.self st) ∪ g) "gasLimit")
            = false) as -> by (vm_compute; reflexivity).
    exists 21000. split; vm_compute; reflexivity. }
  assert (Tx.heap st1 !! Tx.args (Tx.self st) = Some [Tx.VHex [Byte.x01]])
    as Hargs by (vm_compute; reflexivity).
  assert (Tx.contract_functions env (Tx.contract (Tx.self st))
            (Tx.method (Tx.self st)) [Tx.VHex [Byte.x01]] (Tx.heap st1)
            merged (Tx.world st1) = (5%nat, inl Scenario.rejected))
    as Hsend by (vm_compute; reflexivity).
  assert (Tx.from_or_signer env merged
            (Tx.after_call st1
               (Tx.ESend (Tx.contract (Tx.self st)) (Tx.method (Tx.self st))
                  [Tx.VHex [Byte.x01]] merged) 5%nat)
          = (Tx.after_call st1
               (Tx.ESend (Tx.contract (Tx.self st)) (Tx.method (Tx.self st))
                  [Tx.VHex [Byte.x01]] merged) 5%nat,
             inr (Tx.OHex Scenario.sender)))
    as Hfrom by (vm_compute; reflexivity).
  assert (Tx.provider_getBalance env (Tx.provider (Tx.self st))
            (Tx.OHex Scenario.sender)
            (Tx.world
               (Tx.after_call st1
                  (Tx.ESend (Tx.contract (Tx.self st))
                     (Tx.method (Tx.self st)) [Tx.VHex [Byte.x01]] merged)
                  5%nat))
          = (6%nat, inr 0)) as Hbal by (vm_compute; reflexivity).
  assert (Tx.truthy (Tx.field merged "value") = true ->
          Tx.BigNumber_from (Tx.field merged "value") = inr 0) as Hvalue.
  { intros H. vm_compute in H. discriminate H. }
  exact (rejected_submission_diagnosis env st st1 merged
           [Tx.VHex [Byte.x01]] 5%nat Scenario.rejected _
           (Tx.OHex Scenario.sender) 6%nat 0 0
           eq_refl eq_refl Hprep Hargs Hsend Hfrom Hbal Hvalue).
Defined.
